(** * Edge probing: training loop, test metrics, span alignment, layer sweep

    A shallow embedding of [src/probing-tasks/replicate/edge_probing.py].

    Conventions of the embedding:
    - Python [int] is [Z]; [%] is [Z.modulo] (sign of the divisor, as in
      Python) with the zero divisor raising [ZeroDivisionError].
    - Python [float] is idealised as an exact rational ([Q]); a division
      by zero raises, as it does in Python.  Rounding, infinities and NaN
      are outside the model.
    - [dict]s are [gmap]s; a missing key raises [KeyError].
    - Exceptions are values of [exn]; a computation that may raise returns
      a [result].
    - Tensor computations of the network (forward pass, loss, argmax) and
      the subword tokenizer are inputs of the model. *)

From Stdlib Require Import ZArith QArith Lia Lqa String Ascii.
From Stdlib Require Import DecimalString DecimalZ.
From stdpp Require Import base option list gmap strings.

Local Open Scope Z_scope.

(** ** Exceptions *)

Inductive exn : Type :=
| ZeroDivisionError (expr : string)
| KeyError
| IndexError
| UnboundLocalError (var : string)
| RuntimeError (msg : string).

Inductive result (A : Type) : Type :=
| Ok (a : A)
| Raise (e : exn).
Arguments Ok {A} a.
Arguments Raise {A} e.

Definition rbind {A B} (r : result A) (k : A -> result B) : result B :=
  match r with
  | Ok a => k a
  | Raise e => Raise e
  end.

Notation "'try' x <- r ; k" := (rbind r (fun x => k))
  (at level 10, x pattern, r at level 100, k at level 200,
   format "'[v' 'try'  x  <-  r ; '/' k ']'").

(** [a / b] on floats. *)
Definition py_div (expr : string) (a b : Q) : result Q :=
  if Qeq_bool b 0 then Raise (ZeroDivisionError expr) else Ok (a / b)%Q.

(** [a % b] on ints. *)
Definition py_mod (expr : string) (a b : Z) : result Z :=
  if b =? 0 then Raise (ZeroDivisionError expr) else Ok (a mod b).

(** [d[k]] *)
Definition dict_get {K V} `{Countable K} (d : gmap K V) (k : K) : result V :=
  match d !! k with
  | Some v => Ok v
  | None => Raise KeyError
  end.

(** [l[i]] for a non-negative index. *)
Definition list_get {A} (l : list A) (i : nat) : result A :=
  match l !! i with
  | Some a => Ok a
  | None => Raise IndexError
  end.

(** [sum(l)] *)
Definition Qsum (l : list Q) : Q := foldl Qplus 0%Q l.

(** ** Evaluator / tester: [test_single_span], [test_two_span] *)

Module Metrics.

(** One batch of the test loader, after the forward pass: the batch loss
    [loss_func(output, targets).float().mean().item()] and, per sample,
    [torch.argmax(output, dim=1)] paired with [torch.argmax(targets, dim=1)]. *)
Record Batch := {
  batch_loss : Q;
  samples : list (Z * Z)
}.

Definition preds (b : Batch) : list Z := map fst (samples b).
Definition targets_max (b : Batch) : list Z := map snd (samples b).

(** [torch.sum(t == id).item()] *)
Definition sum_eq (t : list Z) (id : Z) : Z :=
  Z.of_nat (length (List.filter (fun x => x =? id) t)).

(** [torch.sum((preds == id) * (targets_max == id)).item()] *)
Definition sum_both (b : Batch) (id : Z) : Z :=
  Z.of_nat (length (List.filter (fun s => (fst s =? id) && (snd s =? id)) (samples b))).

(** [(preds == targets_max).float().mean().item()] *)
Definition batch_accuracy (b : Batch) : Q :=
  (inject_Z (Z.of_nat (length (List.filter (fun s => fst s =? snd s) (samples b))))
   / inject_Z (Z.of_nat (length (samples b))))%Q.

(** The accumulators of the test pass. *)
Record Sums := {
  preds_sum : gmap Z Q;
  targets_sum : gmap Z Q;
  preds_correct_sum : gmap Z Q;
  loss : Q;
  accuracy : Q
}.

(** [{id: 0.0 for id in ids}] *)
Definition zeros (ids : list Z) : gmap Z Q :=
  foldl (fun d id => <[id := 0%Q]> d) ∅ ids.

(** [d[id] += n] *)
Definition dict_add (d : gmap Z Q) (id : Z) (n : Z) : result (gmap Z Q) :=
  try q <- dict_get d id;
  Ok (<[id := (q + inject_Z n)%Q]> d).

(** The inner [for id in ids] of one batch. *)
Fixpoint tally (b : Batch) (ids : list Z) (s : Sums) : result Sums :=
  match ids with
  | [] => Ok s
  | id :: ids' =>
      try ps <- dict_add (preds_sum s) id (sum_eq (preds b) id);
      try ts <- dict_add (targets_sum s) id (sum_eq (targets_max b) id);
      try cs <- dict_add (preds_correct_sum s) id (sum_both b id);
      tally b ids'
        {| preds_sum := ps; targets_sum := ts; preds_correct_sum := cs;
           loss := loss s; accuracy := accuracy s |}
  end.

(** The [for ... in loop] over the batches. *)
Fixpoint test_pass (loop : list Batch) (ids : list Z) (s : Sums) : result Sums :=
  match loop with
  | [] => Ok s
  | b :: loop' =>
      let s1 := {| preds_sum := preds_sum s; targets_sum := targets_sum s;
                   preds_correct_sum := preds_correct_sum s;
                   loss := (loss s + batch_loss b)%Q; accuracy := accuracy s |} in
      try s2 <- tally b ids s1;
      test_pass loop' ids
        {| preds_sum := preds_sum s2; targets_sum := targets_sum s2;
           preds_correct_sum := preds_correct_sum s2;
           loss := loss s2; accuracy := (accuracy s2 + batch_accuracy b)%Q |}
  end.

(** [[num[id]/den[id] if den[id] != 0 else 0 for id in ids]] *)
Fixpoint ratios (num den : gmap Z Q) (ids : list Z) : result (list Q) :=
  match ids with
  | [] => Ok []
  | id :: ids' =>
      try d <- dict_get den id;
      try x <- (if negb (Qeq_bool d 0)
                then (try n <- dict_get num id; Ok (n / d)%Q)
                else Ok 0%Q);
      try xs <- ratios num den ids';
      Ok (x :: xs)
  end.

(** [sum(xs) / len(ids)] *)
Definition macro (expr : string) (xs : list Q) (ids : list Z) : result Q :=
  py_div expr (Qsum xs) (inject_Z (Z.of_nat (length ids))).

(** [2*(macro_precision*macro_recall) / (macro_precision + macro_recall)] *)
Definition macro_f1 (macro_precision macro_recall : Q) : result Q :=
  py_div "macro_f1_score" (2 * (macro_precision * macro_recall))%Q
         (macro_precision + macro_recall)%Q.

(** What the test functions compute after the pass; the two macro averages
    are local variables of the source and are returned here next to the
    score so that they can be spoken about. *)
Record Report := {
  mean_loss : Q;
  mean_accuracy : Q;
  macro_precision : Q;
  macro_recall : Q;
  macro_f1_score : Q
}.

Definition test_span (test_data : list Batch) (ids : list Z) : result Report :=
  let init := {| preds_sum := zeros ids; targets_sum := zeros ids;
                 preds_correct_sum := zeros ids; loss := 0%Q; accuracy := 0%Q |} in
  try s <- test_pass test_data ids init;
  try precision <- ratios (preds_correct_sum s) (preds_sum s) ids;
  try recall <- ratios (preds_correct_sum s) (targets_sum s) ids;
  try mp <- macro "macro_precision" precision ids;
  try mr <- macro "macro_recall" recall ids;
  try f1 <- macro_f1 mp mr;
  let n := inject_Z (Z.of_nat (length test_data)) in
  try l <- py_div "loss / len(loop)" (loss s) n;
  try a <- py_div "accuracy / len(loop)" (accuracy s) n;
  Ok {| mean_loss := l; mean_accuracy := a; macro_precision := mp;
        macro_recall := mr; macro_f1_score := f1 |}.

(** The two testers differ only in the arguments of the forward pass, which
    is an input here. *)
Definition test_single_span := test_span.
Definition test_two_span := test_span.

(** *** The metrics as the specification words them

    Counts over the whole test set, whatever its batching. *)

Definition all_samples (test_data : list Batch) : list (Z * Z) :=
  concat (map samples test_data).

(** Samples predicted as [id]. *)
Definition predicted (test_data : list Batch) (id : Z) : Z :=
  Z.of_nat (length (List.filter (fun s => fst s =? id) (all_samples test_data))).

(** Samples whose target is [id]. *)
Definition actual (test_data : list Batch) (id : Z) : Z :=
  Z.of_nat (length (List.filter (fun s => snd s =? id) (all_samples test_data))).

(** Samples predicted as [id] whose target is [id]. *)
Definition correct (test_data : list Batch) (id : Z) : Z :=
  Z.of_nat (length (List.filter (fun s => (fst s =? id) && (snd s =? id))
                                (all_samples test_data))).

(** correct/predicted, 0 if the predicted count is 0. *)
Definition class_precision (test_data : list Batch) (id : Z) : Q :=
  if predicted test_data id =? 0 then 0%Q
  else (inject_Z (correct test_data id) / inject_Z (predicted test_data id))%Q.

(** correct/actual, 0 if the actual count is 0. *)
Definition class_recall (test_data : list Batch) (id : Z) : Q :=
  if actual test_data id =? 0 then 0%Q
  else (inject_Z (correct test_data id) / inject_Z (actual test_data id))%Q.

(** The unweighted mean of the per-class values over the label ids. *)
Definition unweighted_mean (f : Z -> Q) (ids : list Z) : Q :=
  (Qsum (map f ids) / inject_Z (Z.of_nat (length ids)))%Q.

(** *** Vocabulary of the proofs *)

(** [d'] is [d] with [f id] added at every key of [l]. *)
Definition bumped (f : Z -> Z) (l : list Z) (d d' : gmap Z Q) : Prop :=
  forall id, d' !! id =
             if decide (id ∈ l)
             then (fun q => (q + inject_Z (f id))%Q) <$> (d !! id)
             else d !! id.

(** The running total of a count over the batches seen, as the pass
    accumulates it. *)
Definition running (f : Batch -> Z -> Z) (start : Q) (data : list Batch) (id : Z) : Q :=
  foldl (fun q b => (q + inject_Z (f b id))%Q) start data.

(** One entry of the list comprehension of the per-class ratios. *)
Definition ratio (n d : Q) : Q := if Qeq_bool d 0 then 0%Q else (n / d)%Q.

(** The four samples of the end-to-end scenario: predictions [0,0,1,1]
    against targets [0,1,1,1]. *)
Definition scenario : list (Z * Z) := [(0, 0); (0, 1); (1, 1); (1, 1)].

End Metrics.

(** ** Probe trainer: [train_single_span], [train_two_span] *)

Module Trainer.

(** The fields of [TrainConfig] the control flow reads.  The data loaders
    and the network are replaced by what the loop observes of them:
    [train_data] is the number of batches the train loader yields per
    epoch, [val_loss k] is the value returned by the call of
    [eval_single_span] / [eval_two_span] made when [k] evaluations have
    already been done, and [optimizer] lists the learning rate of each of
    the optimizer's parameter groups at the start. *)
Record TrainConfig := {
  train_data : nat;
  val_loss : nat -> Q;
  optimizer : list Q;
  lr : Q;
  max_evals : option Z;
  patience_lr : Z;
  patience : Z;
  eval_interval : Z
}.

(** What is observable of a run: every [optimizer.step()] with the batch
    number [i] and the learning rates in force, and every finished
    evaluation with its number, its loss, the non-improvement counter after
    the update and the learning rates after the block. *)
Inductive Event : Type :=
| Step (i : Z) (lrs : list Q)
| Evaluation (n : Z) (loss : Q) (counter : Z) (lrs : list Q).

(** The local variables [lr], [eval], [counter], [min_loss] and [i] of the
    function ([None]: not yet bound), the live [param_groups] of the
    optimizer, and the events so far. *)
Record Machine := {
  v_lr : Q;
  v_eval : Z;
  v_counter : Z;
  v_min_loss : option Q;
  v_i : option Z;
  param_groups : list Q;
  log : list Event
}.

Inductive flow : Type :=
| Next
| Break
| Raised (e : exn).

Definition bind_i (i : Z) (m : Machine) : Machine :=
  {| v_lr := v_lr m; v_eval := v_eval m; v_counter := v_counter m;
     v_min_loss := v_min_loss m; v_i := Some i;
     param_groups := param_groups m; log := log m |}.

Definition emit (e : Event) (m : Machine) : Machine :=
  {| v_lr := v_lr m; v_eval := v_eval m; v_counter := v_counter m;
     v_min_loss := v_min_loss m; v_i := v_i m;
     param_groups := param_groups m; log := log m ++ [e] |}.

(** [eval += 1] and the improvement check. *)
Definition improvement (loss : Q) (eval : Z) (min_loss : Q) (counter : Z)
                       (m : Machine) : Machine :=
  let '(min_loss', counter') :=
    match (loss ?= min_loss)%Q with
    | Lt => (loss, 0)
    | _ => (min_loss, counter + 1)
    end in
  {| v_lr := v_lr m; v_eval := eval; v_counter := counter';
     v_min_loss := Some min_loss'; v_i := v_i m;
     param_groups := param_groups m; log := log m |}.

(** [lr = lr/2; for g in config.optimizer.param_groups: g['lr'] = lr] *)
Definition halve (m : Machine) : Machine :=
  let lr := (v_lr m / 2)%Q in
  {| v_lr := lr; v_eval := v_eval m; v_counter := v_counter m;
     v_min_loss := v_min_loss m; v_i := v_i m;
     param_groups := map (fun _ => lr) (param_groups m); log := log m |}.

Definition finish_evaluation (loss : Q) (m : Machine) : Machine :=
  emit (Evaluation (v_eval m) loss (v_counter m) (param_groups m)) m.

(** [config.max_evals is not None and eval >= config.max_evals] *)
Definition max_evals_reached (cfg : TrainConfig) (eval : Z) : bool :=
  match max_evals cfg with
  | Some mx => mx <=? eval
  | None => false
  end.

(** [counter % config.patience_lr == 0 and counter > 0], the remainder
    being [r]. *)
Definition decay_due (r counter : Z) : bool := (r =? 0) && (0 <? counter).

(** [min_loss] as the comparison reads it: the first evaluation binds it
    to its own loss. *)
Definition best_before (loss : Q) (m : Machine) : option Q :=
  if v_eval m + 1 =? 1 then Some loss else v_min_loss m.

(** The body of [if i % config.eval_interval == 0:], once the call of the
    evaluator has returned the loss [val_loss cfg k]; the call itself,
    which raises on an empty validation loader, is in
    [TrainerMore.evaluation_on]. *)
Definition evaluation (cfg : TrainConfig) (m : Machine) : Machine * flow :=
  let loss := val_loss cfg (Z.to_nat (v_eval m)) in
  match best_before loss m with
  | None => (m, Raised (UnboundLocalError "min_loss"))
  | Some min_loss =>
      let m1 := improvement loss (v_eval m + 1) min_loss (v_counter m) m in
      if max_evals_reached cfg (v_eval m1)
      then (finish_evaluation loss m1, Break)
      else if patience cfg <=? v_counter m1
      then (finish_evaluation loss m1, Break)
      else
        match py_mod "counter % config.patience_lr" (v_counter m1) (patience_lr cfg) with
        | Raise e => (m1, Raised e)
        | Ok r =>
            if decay_due r (v_counter m1)
            then (finish_evaluation loss (halve m1), Next)
            else (finish_evaluation loss m1, Next)
        end
  end.

(** One iteration of the [for] loop: the gradient step on batch [i], then
    the evaluation if [i] is a multiple of the interval. *)
Definition batch (cfg : TrainConfig) (i : Z) (m : Machine) : Machine * flow :=
  let m1 := emit (Step i (param_groups m)) (bind_i i m) in
  match py_mod "i % config.eval_interval" i (eval_interval cfg) with
  | Raise e => (m1, Raised e)
  | Ok r => if r =? 0 then evaluation cfg m1 else (m1, Next)
  end.

(** [for i, ... in enumerate(loop, start_index)] over [n] batches; [Next]
    is the normal end of the loop, which runs its [else] clause. *)
Fixpoint epoch (cfg : TrainConfig) (n : nat) (i : Z) (m : Machine) : Machine * flow :=
  match n with
  | O => (m, Next)
  | S n' =>
      match batch cfg i m with
      | (m1, Next) => epoch cfg n' (i + 1) m1
      | stop => stop
      end
  end.

Inductive status : Type :=
| Finished
| Crashed (e : exn)
| OutOfFuel.

(** [while True]; [fuel] bounds the number of epochs. *)
Fixpoint training (cfg : TrainConfig) (fuel : nat) (start_index : Z) (m : Machine)
  : Machine * status :=
  match fuel with
  | O => (m, OutOfFuel)
  | S fuel' =>
      match epoch cfg (train_data cfg) start_index m with
      | (m1, Break) => (m1, Finished)
      | (m1, Raised e) => (m1, Crashed e)
      | (m1, Next) =>
          match v_i m1 with
          | None => (m1, Crashed (UnboundLocalError "i"))
          | Some i =>
              match py_mod "i % config.eval_interval" i (eval_interval cfg) with
              | Raise e => (m1, Crashed e)
              | Ok start_index' => training cfg fuel' start_index' m1
              end
          end
      end
  end.

Definition initial (cfg : TrainConfig) : Machine :=
  {| v_lr := lr cfg; v_eval := 0; v_counter := 0; v_min_loss := None;
     v_i := None; param_groups := optimizer cfg; log := [] |}.

Definition train_span (cfg : TrainConfig) (fuel : nat) : Machine * status :=
  training cfg fuel 1 (initial cfg).

(** The two trainers differ only in the arguments of the forward pass. *)
Definition train_single_span := train_span.
Definition train_two_span := train_span.

(** The batches stepped between two consecutive evaluations: the lengths
    of the runs of [Step] events that an [Evaluation] closes, the first
    one (from the start of training) excluded. *)
Fixpoint gaps_from (run : nat) (l : list Event) : list nat :=
  match l with
  | [] => []
  | Step _ _ :: l' => gaps_from (S run) l'
  | Evaluation _ _ _ _ :: l' => run :: gaps_from 0 l'
  end.

Definition gaps (l : list Event) : list nat := tail (gaps_from 0 l).

Definition event_lrs (e : Event) : list Q :=
  match e with
  | Step _ lrs => lrs
  | Evaluation _ _ _ lrs => lrs
  end.

(** *** Vocabulary of the properties *)

(** The outcomes of the evaluation block, one constructor per path
    through it. *)
Inductive evaluated (cfg : TrainConfig) (m : Machine) : Machine -> flow -> Prop :=
| ev_unbound :
    best_before (val_loss cfg (Z.to_nat (v_eval m))) m = None ->
    evaluated cfg m m (Raised (UnboundLocalError "min_loss"))
| ev_max_evals loss min_loss m1 :
    loss = val_loss cfg (Z.to_nat (v_eval m)) ->
    best_before loss m = Some min_loss ->
    m1 = improvement loss (v_eval m + 1) min_loss (v_counter m) m ->
    max_evals_reached cfg (v_eval m1) = true ->
    evaluated cfg m (finish_evaluation loss m1) Break
| ev_patience loss min_loss m1 :
    loss = val_loss cfg (Z.to_nat (v_eval m)) ->
    best_before loss m = Some min_loss ->
    m1 = improvement loss (v_eval m + 1) min_loss (v_counter m) m ->
    max_evals_reached cfg (v_eval m1) = false ->
    patience cfg <= v_counter m1 ->
    evaluated cfg m (finish_evaluation loss m1) Break
| ev_zero_patience_lr loss min_loss m1 :
    loss = val_loss cfg (Z.to_nat (v_eval m)) ->
    best_before loss m = Some min_loss ->
    m1 = improvement loss (v_eval m + 1) min_loss (v_counter m) m ->
    max_evals_reached cfg (v_eval m1) = false ->
    v_counter m1 < patience cfg ->
    patience_lr cfg = 0 ->
    evaluated cfg m m1 (Raised (ZeroDivisionError "counter % config.patience_lr"))
| ev_halve loss min_loss m1 :
    loss = val_loss cfg (Z.to_nat (v_eval m)) ->
    best_before loss m = Some min_loss ->
    m1 = improvement loss (v_eval m + 1) min_loss (v_counter m) m ->
    max_evals_reached cfg (v_eval m1) = false ->
    v_counter m1 < patience cfg ->
    patience_lr cfg <> 0 ->
    v_counter m1 mod patience_lr cfg = 0 -> 0 < v_counter m1 ->
    evaluated cfg m (finish_evaluation loss (halve m1)) Next
| ev_keep loss min_loss m1 :
    loss = val_loss cfg (Z.to_nat (v_eval m)) ->
    best_before loss m = Some min_loss ->
    m1 = improvement loss (v_eval m + 1) min_loss (v_counter m) m ->
    max_evals_reached cfg (v_eval m1) = false ->
    v_counter m1 < patience cfg ->
    patience_lr cfg <> 0 ->
    ~ (v_counter m1 mod patience_lr cfg = 0 /\ 0 < v_counter m1) ->
    evaluated cfg m (finish_evaluation loss m1) Next.

(** The learning rates in force after the events [l], starting from [prev]. *)
Definition last_lrs (prev : list Q) (l : list Event) : list Q :=
  List.last (map event_lrs l) prev.

(** An event that follows learning rates [prev] respects the decay rule:
    a gradient step runs with the rates in force; an evaluation either
    leaves them alone or halves each of them, and halves them only when
    the counter is positive and a multiple of [patience_lr]. *)
Definition lr_step_ok (cfg : TrainConfig) (prev : list Q) (e : Event) : Prop :=
  match e with
  | Step _ lrs => lrs = prev
  | Evaluation _ _ counter lrs =>
      lrs = prev
      \/ (Forall2 (fun new old => new == old / 2 /\ new <= old
                                  /\ (0 < lr cfg -> new < old))%Q lrs prev
          /\ 0 < counter /\ patience_lr cfg <> 0
          /\ counter mod patience_lr cfg = 0)
  end.

Fixpoint lr_chain (cfg : TrainConfig) (prev : list Q) (l : list Event) : Prop :=
  match l with
  | [] => True
  | e :: l' => lr_step_ok cfg prev e /\ lr_chain cfg (event_lrs e) l'
  end.

(** No evaluation is strictly below the best loss seen before it; the best
    is then the first loss throughout. *)
Definition never_improves (loss : nat -> Q) : Prop :=
  forall k, (loss 0%nat <= loss k)%Q.

(** Configurations on which evaluations keep coming and the decay check
    cannot raise: a positive interval, a non-zero [patience_lr], and epochs
    of at least two batches (or an evaluation after every batch). *)
Definition well_configured (cfg : TrainConfig) : Prop :=
  0 < eval_interval cfg /\ patience_lr cfg <> 0
  /\ ((2 <= train_data cfg)%nat
      \/ ((1 <= train_data cfg)%nat /\ eval_interval cfg = 1)).

(** The evaluation at which a run on never improving losses stops. *)
Definition stop_count (cfg : TrainConfig) : Z :=
  Z.max 1 (match max_evals cfg with
           | Some mx => Z.min mx (patience cfg)
           | None => patience cfg
           end).

(** The reading "with [max_evals] set, training stops after exactly
    [max_evals] evaluations when losses never improve, regardless of
    [patience]". *)
Definition stops_at_max_evals (cfg : TrainConfig) : Prop :=
  forall mx, max_evals cfg = Some mx -> never_improves (val_loss cfg) ->
  exists fuel m, train_single_span cfg fuel = (m, Finished) /\ v_eval m = mx.

(** What the run keeps true of the learning rate. *)
Definition lr_invariant (cfg : TrainConfig) (m : Machine) : Prop :=
  lr_chain cfg (optimizer cfg) (log m)
  /\ last_lrs (optimizer cfg) (log m) = param_groups m
  /\ Forall (fun g => g == v_lr m)%Q (param_groups m)
  /\ (0 <= v_lr m)%Q
  /\ ((0 < lr cfg)%Q -> (0 < v_lr m)%Q).

(** What holds between evaluations of any run. *)
Definition counted (m : Machine) : Prop :=
  0 <= v_counter m <= v_eval m
  /\ (0 < v_eval m -> is_Some (v_min_loss m)).

(** What holds between evaluations when no loss is below the first. *)
Definition stalled (cfg : TrainConfig) (m : Machine) : Prop :=
  0 <= v_eval m /\ v_counter m = v_eval m
  /\ (0 < v_eval m -> v_min_loss m = Some (val_loss cfg 0%nat)).

(** Every logged evaluation after the first has a number above one; the
    first one has counter 1 and the first loss. *)
Definition first_counts (cfg : TrainConfig) (m : Machine) : Prop :=
  0 <= v_eval m
  /\ (v_eval m = 0 -> v_counter m = 0)
  /\ Forall (fun e => match e with
                      | Step _ _ => True
                      | Evaluation n loss c _ =>
                          1 <= n <= v_eval m
                          /\ (n = 1 -> c = 1 /\ loss = val_loss cfg 0%nat)
                      end) (log m).

(** On losses that never improve every logged evaluation has its counter
    equal to its number. *)
Definition stalled_log (cfg : TrainConfig) (m : Machine) : Prop :=
  stalled cfg m
  /\ Forall (fun e => match e with
                      | Step _ _ => True
                      | Evaluation n _ c _ => c = n
                      end) (log m).

(** Constant validation loss, [max_evals=3], [patience=2]. *)
Definition impatient : TrainConfig :=
  {| train_data := 2; val_loss := fun _ => 1%Q; optimizer := [1 # 10000]%Q;
     lr := (1 # 10000)%Q; max_evals := Some 3; patience_lr := 5; patience := 2;
     eval_interval := 1 |}.

(** Three batches per epoch, an evaluation every two batches, two
    evaluations. *)
Definition three_batches : TrainConfig :=
  {| train_data := 3; val_loss := fun _ => 1%Q; optimizer := [1 # 10000]%Q;
     lr := (1 # 10000)%Q; max_evals := Some 2; patience_lr := 5; patience := 20;
     eval_interval := 2 |}.

(** Two batches per epoch, an evaluation every two batches, three
    evaluations. *)
Definition two_batches : TrainConfig :=
  {| train_data := 2; val_loss := fun _ => 1%Q; optimizer := [1 # 10000]%Q;
     lr := (1 # 10000)%Q; max_evals := Some 3; patience_lr := 5; patience := 20;
     eval_interval := 2 |}.

(** One batch per epoch, an evaluation every two batches. *)
Definition one_batch : TrainConfig :=
  {| train_data := 1; val_loss := fun _ => 1%Q; optimizer := [1 # 10000]%Q;
     lr := (1 # 10000)%Q; max_evals := Some 3; patience_lr := 5; patience := 20;
     eval_interval := 2 |}.

(** The default interval of 100 batches, 250 batches per epoch, three
    evaluations. *)
Definition default_interval : TrainConfig :=
  {| train_data := 250; val_loss := fun _ => 1%Q; optimizer := [1 # 10000]%Q;
     lr := (1 # 10000)%Q; max_evals := Some 3; patience_lr := 5; patience := 20;
     eval_interval := 100 |}.

(** [config.lr] halved [h] times: the local variable [lr] after [h]
    executions of [lr = lr/2]. *)
Definition lr_after (cfg : TrainConfig) (h : nat) : Q :=
  Nat.iter h (fun x => (x / 2)%Q) (lr cfg).

(** How the learning rates of the parameter groups come about in any
    run: [lr_run cfg l h lrs] says that the events [l] contain [h]
    halvings and leave the rates [lrs] in force.  A gradient step runs with
    the rates in force; an evaluation leaves them as they are or, and then
    its counter is positive and a multiple of [patience_lr], sets every
    one of them to [config.lr] halved once more than before. *)
Inductive lr_run (cfg : TrainConfig) : list Event -> nat -> list Q -> Prop :=
| lr_start : lr_run cfg [] 0 (optimizer cfg)
| lr_step l h lrs i :
    lr_run cfg l h lrs -> lr_run cfg (l ++ [Step i lrs]) h lrs
| lr_kept l h lrs n loss counter :
    lr_run cfg l h lrs -> lr_run cfg (l ++ [Evaluation n loss counter lrs]) h lrs
| lr_halved l h lrs n loss counter :
    lr_run cfg l h lrs ->
    0 < counter -> patience_lr cfg <> 0 -> counter mod patience_lr cfg = 0 ->
    lr_run cfg
      (l ++ [Evaluation n loss counter (map (fun _ => lr_after cfg (S h)) lrs)])
      (S h) (map (fun _ => lr_after cfg (S h)) lrs).

(** The rates in force and the local variable [lr] are those the events
    account for. *)
Definition lr_accounted (cfg : TrainConfig) (m : Machine) : Prop :=
  exists h, lr_run cfg (log m) h (param_groups m) /\ v_lr m = lr_after cfg h.

(** [min_loss] and [counter] after [n] evaluations, as the losses
    determine them: the first evaluation binds [min_loss] to its loss and
    counts as no improvement; a later one resets the counter when its loss
    is below [min_loss] and counts otherwise. *)
Fixpoint tracked (loss : nat -> Q) (n : nat) : option Q * Z :=
  match n with
  | O => (None, 0)
  | S k =>
      let '(best, counter) := tracked loss k in
      match best with
      | None => (Some (loss k), counter + 1)
      | Some b =>
          match (loss k ?= b)%Q with
          | Lt => (Some (loss k), 0)
          | _ => (Some b, counter + 1)
          end
      end
  end.

Definition counter_after (loss : nat -> Q) (n : nat) : Z := snd (tracked loss n).

(** A stop condition holds at evaluation [n]: [max_evals] is set and
    reached, or the counter has reached [patience]. *)
Definition stops_at (cfg : TrainConfig) (n : nat) : bool :=
  max_evals_reached cfg (Z.of_nat n)
  || (patience cfg <=? counter_after (val_loss cfg) n).

(** Evaluation [n] is the first at which a stop condition holds. *)
Definition first_stop (cfg : TrainConfig) (n : nat) : Prop :=
  (1 <= n)%nat /\ stops_at cfg n = true
  /\ forall k, (1 <= k < n)%nat -> stops_at cfg k = false.

(** The losses stop improving: after the first [N] evaluations no loss is
    below all the losses before it.  (A sequence of floats always does,
    for some [N]: it cannot go down for ever.) *)
Definition settled (loss : nat -> Q) (N : nat) : Prop :=
  forall k, (N <= k)%nat -> (0 < k)%nat ->
  exists j, (j < k)%nat /\ (loss j <= loss k)%Q.

(** What a run keeps true of [min_loss] and the counter between
    evaluations. *)
Definition on_track (cfg : TrainConfig) (m : Machine) : Prop :=
  0 <= v_eval m
  /\ (v_min_loss m, v_counter m) = tracked (val_loss cfg) (Z.to_nat (v_eval m)).

(** A constant validation loss, a halving after every evaluation without
    improvement, three of which stop the run. *)
Definition decaying : TrainConfig :=
  {| train_data := 2; val_loss := fun _ => 1%Q; optimizer := [1 # 10000]%Q;
     lr := (1 # 10000)%Q; max_evals := None; patience_lr := 1; patience := 3;
     eval_interval := 1 |}.

(** An optimizer built with the learning rate [0.001] and a configuration
    that says [lr=0.01]. *)
Definition mismatched : TrainConfig :=
  {| train_data := 2; val_loss := fun _ => 1%Q; optimizer := [1 # 1000]%Q;
     lr := (1 # 100)%Q; max_evals := Some 2; patience_lr := 1; patience := 20;
     eval_interval := 1 |}.

(** No [max_evals], [patience=3], and the losses 2, 1, 1, 1, ... *)
Definition patient : TrainConfig :=
  {| train_data := 2; val_loss := fun k => match k with O => 2%Q | S _ => 1%Q end;
     optimizer := [1 # 10000]%Q; lr := (1 # 10000)%Q; max_evals := None;
     patience_lr := 5; patience := 3; eval_interval := 1 |}.

End Trainer.

(** ** Span aligner: [tokenize_jiant_dataset] *)

Module Aligner.

Local Open Scope nat_scope.

(** A [TokenSpan(start, end)] of the tokenizer library: the tokens
    [start <= p < end]. *)
Abbreviation TokenSpan := (nat * nat)%type.

(** One tokenized sequence of a batch: its row of [input_ids] and, for
    each word of the text that has tokens inside the window, the span of
    those tokens (the word with index [w] is entry [w]). *)
Record Encoding := {
  ids : list Z;
  word_spans : list TokenSpan
}.

Abbreviation BatchEncoding := (list Encoding).

(** [tokenizer(texts, return_tensors="pt", max_length=L, truncation=True,
    padding="max_length")] *)
Abbreviation Tokenizer := (list string -> nat -> BatchEncoding).

(** What truncation and padding to [L] guarantee of a batch: every row has
    [L] token ids and every word's tokens lie inside the row. *)
Definition within (L : nat) (e : Encoding) : bool :=
  (length (ids e) =? L)
  && forallb (fun sp => (fst sp <=? snd sp) && (snd sp <=? L)) (word_spans e).

Definition padded_to (L : nat) (enc : BatchEncoding) : bool := forallb (within L) enc.

(** [BatchEncoding.word_to_tokens(batch_or_word_index, word_index=None)] of
    the tokenizer library: called with one argument, that argument is the
    word index and the sequence looked at is the first of the batch. *)
Definition word_to_tokens (enc : BatchEncoding) (batch_or_word_index : nat)
                          (word_index : option nat) : result (option TokenSpan) :=
  let '(batch_index, word) :=
    match word_index with
    | Some w => (batch_or_word_index, w)
    | None => (0, batch_or_word_index)
    end in
  try e <- list_get enc batch_index;
  Ok (word_spans e !! word).

(** [target = torch.zeros(max_seq_length).int(); target[:tokens.shape[0]] = tokens]:
    the slice has [min (len tokens) max_seq_length] cells; a one-element
    tensor is broadcast into it, any other length must match. *)
Definition pad (max_seq_length : nat) (tokens : list Z) : result (list Z) :=
  let target := replicate max_seq_length 0%Z in
  let cells := Nat.min (length tokens) max_seq_length in
  if length tokens =? cells then Ok (tokens ++ drop cells target)
  else
    match tokens with
    | [t] => Ok (replicate cells t ++ drop cells target)
    | _ => Raise (RuntimeError "size mismatch in target[:tokens.shape[0]] = tokens")
    end.

(** [torch.minimum(torch.arange(max_seq_length) >= start,
                   torch.arange(max_seq_length) < end)] *)
Definition span_mask (max_seq_length start end_ : nat) : list bool :=
  map (fun p => (start <=? p) && (p <? end_)) (seq 0 max_seq_length).

(** [[1 if labels_to_ids[labels[i]]==k else 0 for k in range(num_labels)]] *)
Fixpoint label_tensor (labels : list string) (labels_to_ids : gmap string Z)
                      (i : nat) (ks : list nat) : result (list Q) :=
  match ks with
  | [] => Ok []
  | k :: ks' =>
      try label <- list_get labels i;
      try id <- dict_get labels_to_ids label;
      try rest <- label_tensor labels labels_to_ids i ks';
      Ok ((if (id =? Z.of_nat k)%Z then 1%Q else 0%Q) :: rest)
  end.

(** The four lists the function builds. *)
Record Aligned := {
  updated_input_ids : list (list Z);
  span1_masks : list (list bool);
  span2_masks : list (list bool);
  label_tensors : list (list Q)
}.

Section Body.

Variable encodings : BatchEncoding.
Variables span1s span2s : list (nat * nat).
Variable labels : list string.
Variable labels_to_ids : gmap string Z.
Variable max_seq_length : nat.

(** The end of the loop body, once the spans are known to be valid. *)
Definition keep (i : nat) (target : list Z) (span1_start span1_end : nat)
                (out : Aligned) : result Aligned :=
  let span1_mask := span_mask max_seq_length span1_start span1_end in
  try label <- label_tensor labels labels_to_ids i (seq 0 (size labels_to_ids));
  Ok {| updated_input_ids := updated_input_ids out ++ [target];
        span1_masks := span1_masks out ++ [span1_mask];
        span2_masks := span2_masks out;
        label_tensors := label_tensors out ++ [label] |}.

(** The loop body for sample [i]; returning [out] unchanged is the
    [continue]. *)
Definition body (i : nat) (tokens : list Z) (out : Aligned) : result Aligned :=
  try target <- pad max_seq_length tokens;
  match span2s with
  | _ :: _ =>
      try s1 <- list_get span1s i;
      try a <- word_to_tokens encodings (fst s1) None;
      try b <- word_to_tokens encodings (snd s1) None;
      try s2 <- list_get span2s i;
      try c <- word_to_tokens encodings (fst s2) None;
      try d <- word_to_tokens encodings (snd s2) None;
      match a, b, c, d with
      | Some (span1_start, _), Some (_, span1_end),
        Some (span2_start, _), Some (_, span2_end) =>
          let span2_mask := span_mask max_seq_length span2_start span2_end in
          keep i target span1_start span1_end
            {| updated_input_ids := updated_input_ids out;
               span1_masks := span1_masks out;
               span2_masks := span2_masks out ++ [span2_mask];
               label_tensors := label_tensors out |}
      | _, _, _, _ => Ok out
      end
  | [] =>
      try s1 <- list_get span1s i;
      try a <- word_to_tokens encodings (fst s1) None;
      try b <- word_to_tokens encodings (snd s1) None;
      match a, b with
      | Some (span1_start, _), Some (_, span1_end) =>
          keep i target span1_start span1_end out
      | _, _ => Ok out
      end
  end.

(** [for i, tokens in enumerate(encodings.input_ids)] *)
Fixpoint align (i : nat) (rows : list (list Z)) (out : Aligned) : result Aligned :=
  match rows with
  | [] => Ok out
  | tokens :: rows' =>
      try out' <- body i tokens out;
      align (S i) rows' out'
  end.

End Body.

Definition tokenize_jiant_dataset (tokenizer : Tokenizer) (texts : list string)
    (span1s span2s : list (nat * nat)) (labels : list string)
    (labels_to_ids : gmap string Z) (max_seq_length : nat) : result Aligned :=
  let encodings := tokenizer texts 128 in
  align encodings span1s span2s labels labels_to_ids max_seq_length
        0 (map ids encodings)
        {| updated_input_ids := []; span1_masks := []; span2_masks := [];
           label_tensors := [] |}.

(** *** Vocabulary of the properties *)

(** The lookup in sample [i]'s own sequence: the two-argument call
    [encodings.word_to_tokens(i, w)]. *)
Definition own_lookup (enc : BatchEncoding) (i w : nat) : result (option TokenSpan) :=
  word_to_tokens enc i (Some w).

(** The token boundaries the loop body resolves for a word span: the start
    of the tokens of its first word and the end of the tokens of its
    second, both looked up with the one-argument call. *)
Definition resolved (enc : BatchEncoding) (sp : nat * nat) : option (nat * nat) :=
  match word_to_tokens enc (fst sp) None, word_to_tokens enc (snd sp) None with
  | Ok (Some (start, _)), Ok (Some (_, end_)) => Some (start, end_)
  | _, _ => None
  end.

(** The same boundaries looked up in sample [i]'s own sequence. *)
Definition own_resolved (enc : BatchEncoding) (i : nat) (sp : nat * nat)
  : option (nat * nat) :=
  match own_lookup enc i (fst sp), own_lookup enc i (snd sp) with
  | Ok (Some (start, _)), Ok (Some (_, end_)) => Some (start, end_)
  | _, _ => None
  end.

(** Sample [i] has all its required boundaries. *)
Definition kept (enc : BatchEncoding) (span1s span2s : list (nat * nat)) (i : nat)
  : bool :=
  match span2s with
  | [] => bool_decide (is_Some (span1s !! i ≫= resolved enc))
  | _ :: _ => bool_decide (is_Some (span1s !! i ≫= resolved enc))
              && bool_decide (is_Some (span2s !! i ≫= resolved enc))
  end.

(** The number of samples kept among those numbered [i .. i + n - 1]. *)
Definition kept_count (enc : BatchEncoding) (span1s span2s : list (nat * nat))
                      (i n : nat) : nat :=
  length (List.filter (kept enc span1s span2s) (seq i n)).

(** A row of [updated_input_ids] is a padded row of the batch. *)
Definition padded_row (enc : BatchEncoding) (L : nat) (row : list Z) : Prop :=
  exists tokens, tokens ∈ map ids enc /\ pad L tokens = Ok row.

(** A mask is the mask of the resolved boundaries of one of the spans. *)
Definition mask_of (enc : BatchEncoding) (spans : list (nat * nat)) (L : nat)
                   (mask : list bool) : Prop :=
  exists i sp start end_,
    spans !! i = Some sp /\ resolved enc sp = Some (start, end_)
    /\ mask = span_mask L start end_.

(** The outputs after some samples, [c] of which were kept. *)
Definition aligned_so_far (enc : BatchEncoding) (span1s span2s : list (nat * nat))
                          (L c : nat) (out : Aligned) : Prop :=
  length (updated_input_ids out) = c
  /\ length (span1_masks out) = c
  /\ length (label_tensors out) = c
  /\ length (span2_masks out) = match span2s with [] => 0 | _ :: _ => c end
  /\ Forall (padded_row enc L) (updated_input_ids out)
  /\ Forall (mask_of enc span1s L) (span1_masks out)
  /\ Forall (mask_of enc span2s L) (span2_masks out).

(** The message of the failing slice assignment. *)
Definition size_mismatch : exn :=
  RuntimeError "size mismatch in target[:tokens.shape[0]] = tokens".

(** The four lists before the loop. *)
Definition no_samples : Aligned :=
  {| updated_input_ids := []; span1_masks := []; span2_masks := [];
     label_tensors := [] |}.

(** Two texts whose first words have one and two tokens. *)
Definition two_texts : list string := ["a b c"; "ab c d"]%string.

Definition two_labels : gmap string Z := <["A"%string := 0%Z]> (<["B"%string := 1%Z]> ∅).

(** A small subword tokenizer to run the aligner on: words are separated
    by single spaces, every character of a word is one token (its code),
    [101] opens and [102] closes the sequence, [0] pads. *)
Fixpoint split_words (s : string) (word : list ascii) : list (list ascii) :=
  match s with
  | EmptyString => [rev word]
  | String c s' =>
      if Ascii.eqb c " "%char then rev word :: split_words s' []
      else split_words s' (c :: word)
  end.

Fixpoint spans_from (start : nat) (ws : list (list ascii)) : list TokenSpan :=
  match ws with
  | [] => []
  | w :: ws' => (start, start + length w) :: spans_from (start + length w) ws'
  end.

Definition char_encode (L : nat) (text : string) : Encoding :=
  let ws := split_words text [] in
  let pieces := map (fun c => Z.of_nat (nat_of_ascii c)) (concat ws) in
  let tokens := 101%Z :: take (L - 2) pieces ++ [102%Z] in
  {| ids := take L (tokens ++ replicate L 0%Z);
     word_spans :=
       map (fun sp => (fst sp, Nat.min (snd sp) (L - 1)))
           (List.filter (fun sp => fst sp <? L - 1) (spans_from 1 ws)) |}.

Definition char_tokenizer : Tokenizer :=
  fun texts L => map (char_encode L) texts.

End Aligner.

(** ** Sweep controller: [probing] *)

Module Sweep.

(** The entry [{"loss": loss, "accuracy": accuracy, "f1_score": f1_score}]
    of one layer. *)
Record Scores := {
  loss : Q;
  accuracy : Q;
  f1_score : Q
}.

(** The fields of [ProbeConfig] the sweep reads.  [train_and_test layer]
    stands for building the probing model with [num_hidden_layers=layer],
    its optimizer, the training and the test pass; it yields the triple
    returned by the tester or the exception that aborts the sweep. *)
Record ProbeConfig := {
  model_name : string;
  num_layers : list Z;
  task_type : string;
  results_path : option string;
  train_and_test : Z -> result (Q * Q * Q)
}.

(** [str(k)] for an [int], the conversion [json.dump] applies to the keys. *)
Definition py_str (k : Z) : string := NilZero.string_of_int (Z.to_int k).

(** A JSON object with one [Scores] entry per key. *)
Abbreviation Json := (gmap string Scores).

(** The files, by path. *)
Abbreviation Files := (gmap string Json).

(** [json.dump(results, f)] as the object it writes. *)
Definition json_dump (results : gmap Z Scores) : Json := kmap py_str results.

(** [with open(path, "w") as f: json.dump(results, f)] *)
Definition write_json (path : string) (results : gmap Z Scores) (fs : Files) : Files :=
  <[path := json_dump results]> fs.

Definition results_file (dir : string) : string := (dir ++ "/results.json")%string.

(** [probing_model] is bound only for these model names. *)
Definition known_model (name : string) : bool :=
  String.prefix "roberta" name || String.prefix "bert" name.

(** [for layer in config.num_layers]; the result [Ok None] is the
    [return None] of an invalid task type. *)
Fixpoint sweep (cfg : ProbeConfig) (layers : list Z) (results : gmap Z Scores)
               (fs : Files) : Files * result (option (gmap Z Scores)) :=
  match layers with
  | [] => (fs, Ok (Some results))
  | layer :: layers' =>
      if (task_type cfg =? "single_span")%string || (task_type cfg =? "two_span")%string
      then
        if known_model (model_name cfg)
        then
          match train_and_test cfg layer with
          | Raise e => (fs, Raise e)
          | Ok (l, a, f1) =>
              let results' :=
                <[layer := {| loss := l; accuracy := a; f1_score := f1 |}]> results in
              let fs' :=
                match results_path cfg with
                | Some dir => write_json (results_file dir) results' fs
                | None => fs
                end in
              sweep cfg layers' results' fs'
          end
        else (fs, Raise (UnboundLocalError "probing_model"))
      else (fs, Ok None)
  end.

Definition probing (cfg : ProbeConfig) (fs : Files)
  : Files * result (option (gmap Z Scores)) :=
  sweep cfg (num_layers cfg) ∅ fs.

(** *** Vocabulary of the properties *)

(** [config.task_type] is one of the two task types. *)
Definition valid_task (cfg : ProbeConfig) : bool :=
  (task_type cfg =? "single_span")%string || (task_type cfg =? "two_span")%string.

(** [results] with an entry for every layer of [layers] that was tested. *)
Definition extend (cfg : ProbeConfig) (results : gmap Z Scores) (layers : list Z)
  : gmap Z Scores :=
  foldl (fun t layer =>
           match train_and_test cfg layer with
           | Ok (l, a, f1) => <[layer := {| loss := l; accuracy := a; f1_score := f1 |}]> t
           | Raise _ => t
           end) results layers.

(** The table of the layers in [layers]. *)
Definition table (cfg : ProbeConfig) (layers : list Z) : gmap Z Scores :=
  extend cfg ∅ layers.

(** The files once the layers [layers] are completed, starting from the
    table [results]. *)
Definition persisted (cfg : ProbeConfig) (results : gmap Z Scores) (layers : list Z)
                     (fs : Files) : Files :=
  match results_path cfg, layers with
  | Some dir, _ :: _ => write_json (results_file dir) (extend cfg results layers) fs
  | _, _ => fs
  end.

(** Every layer of [layers] trains and tests without raising. *)
Definition all_complete (cfg : ProbeConfig) (layers : list Z) : Prop :=
  forall layer, layer ∈ layers -> exists s, train_and_test cfg layer = Ok s.

(** A sweep over the layers 1, 2 and 3 with a results directory. *)
Definition three_layers : ProbeConfig :=
  {| model_name := "bert-base-uncased"; num_layers := [1; 2; 3];
     task_type := "single_span"; results_path := Some "out"%string;
     train_and_test := fun layer => Ok (1 # 2, 3 # 4, inject_Z layer / 4)%Q |}.

End Sweep.

(** ** Validation: [eval_single_span], [eval_two_span] *)

Module Evaluator.

(** The validation loader after the forward passes: one value
    [loss_func(model(...), targets).mean().item()] per batch.
    [sum(... for ... in loop) / len(loop)] *)
Definition eval_span (val_data : list Q) : result Q :=
  py_div "sum(...) / len(loop)" (Qsum val_data)
         (inject_Z (Z.of_nat (length val_data))).

(** The two evaluators differ only in the arguments of the forward pass. *)
Definition eval_single_span := eval_span.
Definition eval_two_span := eval_span.

(** *** Vocabulary of the properties of the testers *)

(** The samples of the whole test set whose prediction is their target. *)
Definition hits (test_data : list Metrics.Batch) : Z :=
  Z.of_nat (length (List.filter (fun s => fst s =? snd s)
                                (Metrics.all_samples test_data))).

(** The number of samples of the whole test set. *)
Definition sample_count (test_data : list Metrics.Batch) : Z :=
  Z.of_nat (length (Metrics.all_samples test_data)).

End Evaluator.

(** ** More vocabulary for the trainer *)

Module TrainerMore.

Import Trainer.

(** [min_loss] is the smallest validation loss evaluated so far (unbound
    before the first evaluation) and the counter never passes the number
    of evaluations. *)
Definition best_so_far (cfg : TrainConfig) (m : Machine) : Prop :=
  0 <= v_counter m <= v_eval m
  /\ (v_eval m = 0 -> v_min_loss m = None)
  /\ (0 < v_eval m ->
      exists j, (j < Z.to_nat (v_eval m))%nat
                /\ v_min_loss m = Some (val_loss cfg j)
                /\ forall k, (k < Z.to_nat (v_eval m))%nat ->
                             (val_loss cfg j <= val_loss cfg k)%Q).

(** The three ways the loop itself can raise. *)
Definition misconfigured (cfg : TrainConfig) (e : exn) : Prop :=
  (train_data cfg = 0%nat /\ e = UnboundLocalError "i")
  \/ (eval_interval cfg = 0 /\ e = ZeroDivisionError "i % config.eval_interval")
  \/ (patience_lr cfg = 0 /\ e = ZeroDivisionError "counter % config.patience_lr").

(** *** The run with the call of the evaluator in it

    [Trainer.evaluation] takes the loss of an evaluation as given.  Here
    the loss is what [eval_single_span] / [eval_two_span] returns on the
    validation loader, and the exception it raises leaves the loop.
    [val_data k] lists the batch losses the evaluator computes at the call
    made when [k] evaluations have been done, one per batch of
    [config.val_data]. *)

(** [cfg] with [losses] for the values the evaluator returns. *)
Definition with_losses (cfg : TrainConfig) (losses : nat -> Q) : TrainConfig :=
  {| train_data := train_data cfg; val_loss := losses; optimizer := optimizer cfg;
     lr := lr cfg; max_evals := max_evals cfg; patience_lr := patience_lr cfg;
     patience := patience cfg; eval_interval := eval_interval cfg |}.

(** The body of [if i % config.eval_interval == 0:], from
    [loss = eval_single_span(config.val_data, ...)] on. *)
Definition evaluation_on (val_data : nat -> list Q) (cfg : TrainConfig) (m : Machine)
  : Machine * flow :=
  match Evaluator.eval_span (val_data (Z.to_nat (v_eval m))) with
  | Raise e => (m, Raised e)
  | Ok loss => evaluation (with_losses cfg (fun _ => loss)) m
  end.

Definition batch_on (val_data : nat -> list Q) (cfg : TrainConfig) (i : Z) (m : Machine)
  : Machine * flow :=
  let m1 := emit (Step i (param_groups m)) (bind_i i m) in
  match py_mod "i % config.eval_interval" i (eval_interval cfg) with
  | Raise e => (m1, Raised e)
  | Ok r => if r =? 0 then evaluation_on val_data cfg m1 else (m1, Next)
  end.

Fixpoint epoch_on (val_data : nat -> list Q) (cfg : TrainConfig) (n : nat) (i : Z)
                  (m : Machine) : Machine * flow :=
  match n with
  | O => (m, Next)
  | S n' =>
      match batch_on val_data cfg i m with
      | (m1, Next) => epoch_on val_data cfg n' (i + 1) m1
      | stop => stop
      end
  end.

Fixpoint training_on (val_data : nat -> list Q) (cfg : TrainConfig) (fuel : nat)
                     (start_index : Z) (m : Machine) : Machine * status :=
  match fuel with
  | O => (m, OutOfFuel)
  | S fuel' =>
      match epoch_on val_data cfg (train_data cfg) start_index m with
      | (m1, Break) => (m1, Finished)
      | (m1, Raised e) => (m1, Crashed e)
      | (m1, Next) =>
          match v_i m1 with
          | None => (m1, Crashed (UnboundLocalError "i"))
          | Some i =>
              match py_mod "i % config.eval_interval" i (eval_interval cfg) with
              | Raise e => (m1, Crashed e)
              | Ok start_index' => training_on val_data cfg fuel' start_index' m1
              end
          end
      end
  end.

Definition train_span_on (val_data : nat -> list Q) (cfg : TrainConfig) (fuel : nat)
  : Machine * status :=
  training_on val_data cfg fuel 1 (initial cfg).

Definition train_single_span_on := train_span_on.
Definition train_two_span_on := train_span_on.

(** The exception of the evaluator on an empty loader. *)
Definition empty_loader : exn := ZeroDivisionError "sum(...) / len(loop)".

(** The four ways a run can raise: the three of the loop, and the
    evaluator called on an empty validation loader. *)
Definition crash_reason (val_data : nat -> list Q) (cfg : TrainConfig) (e : exn)
  : Prop :=
  misconfigured cfg e \/ (e = empty_loader /\ exists k, val_data k = []).

(** The loss the evaluator returns on a loader that is not empty. *)
Definition val_mean (val_data : nat -> list Q) (k : nat) : Q :=
  (Qsum (val_data k) / inject_Z (Z.of_nat (length (val_data k))))%Q.

(** [q] halved [n] times. *)
Definition halved (n : nat) (q : Q) : Q := Nat.iter n (fun x => (x / 2)%Q) q.

(** The learning rate after [h] halvings, in the local variable and in
    every parameter group (the groups are untouched before the first
    halving). *)
Definition decayed (cfg : TrainConfig) (h : nat) (m : Machine) : Prop :=
  v_lr m = halved h (lr cfg)
  /\ param_groups m = match h with
                      | O => optimizer cfg
                      | S _ => map (fun _ => halved h (lr cfg)) (optimizer cfg)
                      end.

(** What a run on never improving losses keeps true between evaluations. *)
Definition stalled_decay (cfg : TrainConfig) (m : Machine) : Prop :=
  stalled cfg m /\ decayed cfg (Z.to_nat (v_eval m / patience_lr cfg)) m.

(** The halvings a run on never improving losses has made when it stops. *)
Definition halvings (cfg : TrainConfig) : nat :=
  Z.to_nat ((stop_count cfg - 1) / patience_lr cfg).

(** The defaults of [TrainConfig] (no [max_evals], [patience_lr=5],
    [patience=20], [eval_interval=100]) on 250 batches per epoch and a
    constant validation loss. *)
Definition defaults : TrainConfig :=
  {| train_data := 250; val_loss := fun _ => 1%Q; optimizer := [1 # 10000]%Q;
     lr := (1 # 10000)%Q; max_evals := None; patience_lr := 5; patience := 20;
     eval_interval := 100 |}.

(** An empty train loader. *)
Definition no_batches : TrainConfig :=
  {| train_data := 0; val_loss := fun _ => 1%Q; optimizer := [1 # 10000]%Q;
     lr := (1 # 10000)%Q; max_evals := None; patience_lr := 5; patience := 20;
     eval_interval := 100 |}.

End TrainerMore.

(** ** More vocabulary for the aligner *)

Module AlignerMore.

Import Aligner.

Local Open Scope nat_scope.

(** The vector of [n] cells with a one at the cell numbered [id], if
    there is one. *)
Definition one_hot (n : nat) (id : Z) : list Q :=
  map (fun k => if (id =? Z.of_nat k)%Z then 1%Q else 0%Q) (seq 0 n).

(** What sample [i] needs for the loop body not to raise: an entry in
    [span1s], an entry in [span2s] when there are second spans and, when
    the sample is kept and the vocabulary is not empty, a label of the
    vocabulary. *)
Definition well_formed (enc : BatchEncoding) (span1s span2s : list (nat * nat))
    (labels : list string) (labels_to_ids : gmap string Z) (i : nat) : Prop :=
  is_Some (span1s !! i)
  /\ (span2s <> [] -> is_Some (span2s !! i))
  /\ (kept enc span1s span2s i = true -> size labels_to_ids <> 0 ->
      exists label, labels !! i = Some label /\ is_Some (labels_to_ids !! label)).

(** [row] is the padded row of sample [i]. *)
Definition row_of (enc : BatchEncoding) (L : nat) (i : nat) (row : list Z) : Prop :=
  exists e, enc !! i = Some e /\ pad L (ids e) = Ok row.

(** [mask] is the mask of the resolved boundaries of the span of sample [i]. *)
Definition mask_at (enc : BatchEncoding) (spans : list (nat * nat)) (L : nat)
                   (i : nat) (mask : list bool) : Prop :=
  exists sp start end_,
    spans !! i = Some sp /\ resolved enc sp = Some (start, end_)
    /\ mask = span_mask L start end_.

(** [t] is the label tensor of sample [i]: the one-hot vector of the id
    of its label (the empty vector when the vocabulary is empty). *)
Definition label_at (labels : list string) (labels_to_ids : gmap string Z)
                    (i : nat) (t : list Q) : Prop :=
  (size labels_to_ids = 0 /\ t = [])
  \/ exists label id,
       labels !! i = Some label /\ labels_to_ids !! label = Some id
       /\ t = one_hot (size labels_to_ids) id.

(** The four lists hold, entry by entry and in this order, what belongs to
    the samples numbered [samples]. *)
Definition parallel (enc : BatchEncoding) (span1s span2s : list (nat * nat))
    (labels : list string) (labels_to_ids : gmap string Z) (L : nat)
    (samples : list nat) (out : Aligned) : Prop :=
  Forall2 (row_of enc L) samples (updated_input_ids out)
  /\ Forall2 (mask_at enc span1s L) samples (span1_masks out)
  /\ Forall2 (label_at labels labels_to_ids) samples (label_tensors out)
  /\ match span2s with
     | [] => span2_masks out = []
     | _ :: _ => Forall2 (mask_at enc span2s L) samples (span2_masks out)
     end.

(** The numbers of the samples kept among [i .. i + n - 1], in order. *)
Definition kept_samples (enc : BatchEncoding) (span1s span2s : list (nat * nat))
                        (i n : nat) : list nat :=
  List.filter (kept enc span1s span2s) (seq i n).

End AlignerMore.

(** ** Reader: [read_jiant_dataset] *)

Module Loader.

Local Open Scope nat_scope.

(** One entry of ["targets"], as [json.loads] returns it: a dict in which
    each of the keys read may be missing.  Spans are two-element lists of
    word indices. *)
Record Target := {
  span1 : option (nat * nat);
  span2 : option (nat * nat);
  label : option string
}.

(** One line of the file. *)
Record Line := {
  text : option string;
  targets : option (list Target)
}.

(** [texts, span1s, span2s, labels] *)
Abbreviation JiantData :=
  (list string * list (nat * nat) * list (nat * nat) * list string)%type.

(** [d[key]] on a parsed object. *)
Definition field {A} (value : option A) : result A :=
  match value with
  | Some a => Ok a
  | None => Raise KeyError
  end.

(** The body of [for target in targets]. *)
Definition read_target (jiant_dict : Line) (target : Target) (acc : JiantData)
  : result JiantData :=
  let '(texts, span1s, span2s, labels) := acc in
  try t <- field (text jiant_dict);
  try s1 <- field (span1 target);
  let span2s' := match span2 target with
                 | Some s2 => span2s ++ [s2]
                 | None => span2s
                 end in
  try l <- field (label target);
  Ok (texts ++ [t], span1s ++ [s1], span2s', labels ++ [l]).

Fixpoint read_targets (jiant_dict : Line) (ts : list Target) (acc : JiantData)
  : result JiantData :=
  match ts with
  | [] => Ok acc
  | target :: ts' =>
      try acc' <- read_target jiant_dict target acc;
      read_targets jiant_dict ts' acc'
  end.

(** [for line in lines] *)
Fixpoint read_lines (lines : list Line) (acc : JiantData) : result JiantData :=
  match lines with
  | [] => Ok acc
  | jiant_dict :: lines' =>
      try ts <- field (targets jiant_dict);
      try acc' <- read_targets jiant_dict ts acc;
      read_lines lines' acc'
  end.

Definition read_jiant_dataset (lines : list Line) : result JiantData :=
  read_lines lines ([], [], [], []).

(** *** Vocabulary of the properties *)

(** The samples of a line, each with the text of the line. *)
Definition samples_of (jiant_dict : Line) : list (option string * Target) :=
  map (fun target => (text jiant_dict, target)) (default [] (targets jiant_dict)).

(** The samples of the file, in order. *)
Definition samples (lines : list Line) : list (option string * Target) :=
  lines ≫= samples_of.

(** What the reader collects from the samples [ss]: the values that are
    there, list by list. *)
Definition collected (ss : list (option string * Target)) : JiantData :=
  (omap fst ss, omap (fun s => span1 s.2) ss, omap (fun s => span2 s.2) ss,
   omap (fun s => label s.2) ss).

(** The keys the loop body asks a sample for are there. *)
Definition complete_sample (s : option string * Target) : bool :=
  bool_decide (is_Some s.1) && bool_decide (is_Some (span1 s.2))
  && bool_decide (is_Some (label s.2)).

(** Every key the reader asks for is there: every line has its targets,
    every sample its text, first span and label. *)
Definition complete_line (jiant_dict : Line) : bool :=
  match targets jiant_dict with
  | Some _ => forallb complete_sample (samples_of jiant_dict)
  | None => false
  end.

Definition complete (lines : list Line) : bool := forallb complete_line lines.

(** All samples have a second span, or none has. *)
Definition uniform (lines : list Line) : bool :=
  forallb (fun s => bool_decide (is_Some (span2 s.2))) (samples lines)
  || forallb (fun s => bool_decide (span2 s.2 = None)) (samples lines).

(** A file of one line with two targets of which only the first has a
    second span. *)
Definition mixed_file : list Line :=
  [ {| text := Some "a b c"%string;
       targets := Some [ {| span1 := Some (0, 0); span2 := Some (1, 1);
                            label := Some "A"%string |};
                         {| span1 := Some (1, 1); span2 := None;
                            label := Some "B"%string |} ] |} ].

End Loader.

(** ** Plotting: [plot_task] *)

Module Plot.

Import Sweep.

(** A key of a dict: an [int] or a [str]. *)
Abbreviation Key := (Z + string)%type.

(** The values [results] is made of: numbers and dicts. *)
#[warnings="-register-all"] Inductive value : Type :=
| VNum (q : Q)
| VDict (d : gmap Key value).

(** The exceptions of [exn] and the two others the function can raise. *)
Inductive error : Type :=
| Exn (e : exn)
| TypeError
| AttributeError.

Inductive outcome (A : Type) : Type :=
| Done (a : A)
| Failed (e : error).
Arguments Done {A} a.
Arguments Failed {A} e.

Definition and_then {A B} (r : outcome A) (k : A -> outcome B) : outcome B :=
  match r with
  | Done a => k a
  | Failed e => Failed e
  end.

Notation "'get' x <- r ; k" := (and_then r (fun x => k))
  (at level 10, x pattern, r at level 100, k at level 200,
   format "'[v' 'get'  x  <-  r ; '/' k ']'").

(** [v[k]] *)
Definition subscript (v : value) (k : Key) : outcome value :=
  match v with
  | VDict d =>
      match d !! k with
      | Some x => Done x
      | None => Failed (Exn KeyError)
      end
  | VNum _ => Failed TypeError
  end.

(** [float(v)] *)
Definition float (v : value) : outcome Q :=
  match v with
  | VNum q => Done q
  | VDict _ => Failed TypeError
  end.

(** [float(results[task][model][str(layer)]["f1_score"])] *)
Definition f1_of (results : value) (task model : string) (layer : Z) : outcome Q :=
  get by_model <- subscript results (inr task);
  get by_layer <- subscript by_model (inr model);
  get entry <- subscript by_layer (inr (py_str layer));
  get f1 <- subscript entry (inr "f1_score"%string);
  float f1.

(** [[... for layer in num_layers]] *)
Fixpoint scores (results : value) (task model : string) (num_layers : list Z)
  : outcome (list Q) :=
  match num_layers with
  | [] => Done []
  | layer :: rest =>
      get y <- f1_of results task model layer;
      get ys <- scores results task model rest;
      Done (y :: ys)
  end.

(** The first argument: a [str], a [dict] or anything else. *)
Inductive Input : Type :=
| Path (p : string)
| Dict (d : gmap Key value)
| Other.

(** The calls made on the plotting library. *)
Inductive Call : Type :=
| Title (title : string)
| Grid
| Line (x : list Z) (y : list Q) (linestyle label : string)
| Legend.

(** Whom a call is made on: the module [plt] or the object [plot]. *)
Inductive Target : Type := Pyplot | Axes.

(** The calls made, in order, and the exception raised if any.  [files]
    holds, for the paths that are files, what [json.load] returns;
    [plot] is [None] or an axes object. *)
Definition plot_task (files : gmap string value) (input : Input)
    (task model linestyle : string) (num_layers : list Z)
    (label title : option string) (plot : option unit)
  : list (Target * Call) * option error :=
  let loaded :=
    match input with
    | Path p => files !! p
    | Dict d => Some (VDict d)
    | Other => None
    end in
  match loaded with
  | None => ([], None)
  | Some results =>
      let label := default model label in
      let title := default task title in
      match scores results task model num_layers with
      | Failed e => ([], Some e)
      | Done y =>
          match plot with
          | Some _ =>
              ([(Axes, Title title); (Axes, Grid);
                (Axes, Line num_layers y linestyle label); (Axes, Legend)], None)
          | None =>
              ([(Pyplot, Title title); (Pyplot, Grid);
                (Pyplot, Line num_layers y linestyle label)], Some AttributeError)
          end
      end
  end.

(** *** Vocabulary of the properties *)

(** The entry of a layer as a value. *)
Definition scores_value (s : Scores) : value :=
  VDict (<[inr "loss"%string := VNum (loss s)]>
         (<[inr "accuracy"%string := VNum (accuracy s)]>
          (<[inr "f1_score"%string := VNum (f1_score s)]> ∅))).

(** What [json.load] returns for an object [json.dump] wrote. *)
Definition json_value (j : Json) : value := VDict (kmap inr (scores_value <$> j)).

(** The table [probing] returns, with its [int] keys. *)
Definition table_value (t : gmap Z Scores) : value :=
  VDict (kmap inl (scores_value <$> t)).

(** [{task: {model: v}}] *)
Definition nested (task model : string) (v : value) : gmap Key value :=
  {[ inr task := VDict {[ inr model := v ]} ]}.

(** The files as [json.load] sees them. *)
Definition loadable (fs : Files) : gmap string value := json_value <$> fs.

(** The F1 scores of the layers, in order. *)
Definition f1_scores (cfg : ProbeConfig) (layers : list Z) : list Q :=
  map (fun layer => match train_and_test cfg layer with
                    | Ok (_, _, f1) => f1
                    | Raise _ => 0%Q
                    end) layers.

End Plot.

(** * Properties *)

(** ** Generic facts *)

Lemma Qsum_from (a : Q) (l : list Q) : (foldl Qplus a l == a + Qsum l)%Q.
Proof.
  unfold Qsum. revert a.
  induction l as [|x l IH]; intros a; simpl.
  - ring.
  - rewrite (IH (a + x)%Q), (IH (0 + x)%Q). ring.
Qed.

Lemma Qsum_cons (x : Q) (l : list Q) : (Qsum (x :: l) == x + Qsum l)%Q.
Proof. unfold Qsum at 1. simpl. rewrite Qsum_from. ring. Qed.

Lemma Qsum_pointwise (l l' : list Q) :
  Forall2 Qeq l l' -> (Qsum l == Qsum l')%Q.
Proof.
  induction 1 as [|x y l l' Hxy _ IH].
  - reflexivity.
  - rewrite !Qsum_cons, Hxy, IH. reflexivity.
Qed.

Lemma Qsum_zero (l : list Q) : Forall (fun x => x == 0)%Q l -> (Qsum l == 0)%Q.
Proof.
  induction 1 as [|x l Hx _ IH].
  - reflexivity.
  - rewrite Qsum_cons, Hx, IH. ring.
Qed.

Lemma Qhalf_le (x : Q) : (0 <= x -> x / 2 <= x)%Q.
Proof. intros H. change (x / 2)%Q with (x * (1 # 2))%Q. lra. Qed.

Lemma Qhalf_lt (x : Q) : (0 < x -> x / 2 < x)%Q.
Proof. intros H. change (x / 2)%Q with (x * (1 # 2))%Q. lra. Qed.

Lemma Qhalf_nonneg (x : Q) : (0 <= x -> 0 <= x / 2)%Q.
Proof. intros H. change (x / 2)%Q with (x * (1 # 2))%Q. lra. Qed.

Lemma Qhalf_pos (x : Q) : (0 < x -> 0 < x / 2)%Q.
Proof. intros H. change (x / 2)%Q with (x * (1 # 2))%Q. lra. Qed.

Lemma py_div_Ok expr a b q :
  py_div expr a b = Ok q -> ~ (b == 0)%Q /\ q = (a / b)%Q.
Proof.
  unfold py_div. destruct (Qeq_bool b 0) eqn:E; [discriminate|].
  intros [= <-]. split; [|reflexivity]. by apply Qeq_bool_neq.
Qed.

Lemma py_div_zero expr a b :
  (b == 0)%Q -> py_div expr a b = Raise (ZeroDivisionError expr).
Proof. intros Hb. unfold py_div. apply Qeq_bool_iff in Hb. by rewrite Hb. Qed.

Lemma py_div_nonzero expr a b :
  ~ (b == 0)%Q -> py_div expr a b = Ok (a / b)%Q.
Proof.
  intros Hb. unfold py_div. destruct (Qeq_bool b 0) eqn:E; [|reflexivity].
  apply Qeq_bool_iff in E. contradiction.
Qed.

(** ** The test pass computes the counts of the whole test set *)

Module MetricsTheory.

Import Metrics.

Lemma bumped_nil f d : bumped f [] d d.
Proof. intros id. rewrite decide_False; [done | apply not_elem_of_nil]. Qed.

Lemma bumped_cons f id l d d' q :
  id ∉ l -> d !! id = Some q ->
  bumped f l (<[id := (q + inject_Z (f id))%Q]> d) d' ->
  bumped f (id :: l) d d'.
Proof.
  intros Hnot Hq Hb k. rewrite (Hb k).
  destruct (decide (k = id)) as [->|Hne].
  - rewrite (decide_False _ _ Hnot), lookup_insert_eq.
    rewrite decide_True by apply list_elem_of_here. by rewrite Hq.
  - rewrite lookup_insert_ne by done.
    destruct (decide (k ∈ l)) as [Hin|Hout].
    + rewrite decide_True by (by apply list_elem_of_further). done.
    + rewrite decide_False; [done|].
      intros [?|?]%elem_of_cons; contradiction.
Qed.

Lemma dict_add_Ok d id n q :
  d !! id = Some q -> dict_add d id n = Ok (<[id := (q + inject_Z n)%Q]> d).
Proof. intros Hq. unfold dict_add, dict_get. by rewrite Hq. Qed.

Lemma zeros_from (d : gmap Z Q) ids id :
  foldl (fun d id => <[id := 0%Q]> d) d ids !! id =
  if decide (id ∈ ids) then Some 0%Q else d !! id.
Proof.
  revert d. induction ids as [|k ids IH]; intros d; cbn [foldl].
  - rewrite decide_False; [done | apply not_elem_of_nil].
  - rewrite IH. destruct (decide (id ∈ ids)) as [Hin|Hout].
    + rewrite decide_True by (by apply list_elem_of_further). done.
    + destruct (decide (id = k)) as [->|Hne].
      * rewrite decide_True by apply list_elem_of_here. by rewrite lookup_insert_eq.
      * rewrite lookup_insert_ne by done.
        rewrite decide_False; [done|].
        intros [?|?]%elem_of_cons; contradiction.
Qed.

Lemma zeros_lookup ids id : id ∈ ids -> zeros ids !! id = Some 0%Q.
Proof. intros Hin. unfold zeros. rewrite zeros_from. by rewrite decide_True. Qed.

(** The inner loop adds the counts of the batch, once per id. *)
Lemma tally_bumps b l : forall s,
  NoDup l ->
  (forall id, id ∈ l -> is_Some (preds_sum s !! id) /\ is_Some (targets_sum s !! id)
                        /\ is_Some (preds_correct_sum s !! id)) ->
  exists s', tally b l s = Ok s'
    /\ loss s' = loss s /\ accuracy s' = accuracy s
    /\ bumped (sum_eq (preds b)) l (preds_sum s) (preds_sum s')
    /\ bumped (sum_eq (targets_max b)) l (targets_sum s) (targets_sum s')
    /\ bumped (sum_both b) l (preds_correct_sum s) (preds_correct_sum s').
Proof.
  induction l as [|id l IH]; intros s Hnd Hkeys.
  - exists s. simpl. repeat split; auto using bumped_nil.
  - apply NoDup_cons in Hnd as [Hnot Hnd].
    destruct (Hkeys id (list_elem_of_here _ _)) as ([qp Hp] & [qt Ht] & [qc Hc]).
    simpl. rewrite (dict_add_Ok _ _ _ _ Hp), (dict_add_Ok _ _ _ _ Ht),
      (dict_add_Ok _ _ _ _ Hc). simpl.
    edestruct IH as (s' & Hrun & Hl & Ha & Bp & Bt & Bc); [exact Hnd | | ].
    2:{ exists s'. split; [exact Hrun|]. simpl in *.
        repeat split; auto; eapply bumped_cons; eauto. }
    intros k Hk. simpl.
    assert (k <> id) by (intros ->; contradiction).
    rewrite !lookup_insert_ne by done.
    apply Hkeys. by apply list_elem_of_further.
Qed.

Lemma running_total f data id : forall start,
  (running f start data id ==
   start + inject_Z (foldr (fun b n => (f b id + n)%Z) 0%Z data))%Q.
Proof.
  unfold running. induction data as [|b data IH]; intros start; simpl.
  - unfold inject_Z. ring.
  - rewrite IH, inject_Z_plus. ring.
Qed.

Lemma test_pass_totals ids : forall data s (vp vt vc : Z -> Q),
  NoDup ids ->
  (forall id, id ∈ ids -> preds_sum s !! id = Some (vp id)
                          /\ targets_sum s !! id = Some (vt id)
                          /\ preds_correct_sum s !! id = Some (vc id)) ->
  exists s', test_pass data ids s = Ok s'
    /\ (forall id, id ∈ ids ->
          preds_sum s' !! id = Some (running (fun b => sum_eq (preds b)) (vp id) data id)
          /\ targets_sum s' !! id =
             Some (running (fun b => sum_eq (targets_max b)) (vt id) data id)
          /\ preds_correct_sum s' !! id = Some (running sum_both (vc id) data id)).
Proof.
  induction data as [|b data IH]; intros s vp vt vc Hnd Hs.
  - exists s. split; [reflexivity|]. intros id Hid. apply Hs, Hid.
  - simpl.
    edestruct (tally_bumps b ids) as (s2 & Hrun & _ & _ & Bp & Bt & Bc);
      [exact Hnd | | rewrite Hrun; simpl].
    { intros id Hid. simpl. destruct (Hs id Hid) as (-> & -> & ->). eauto. }
    simpl in Bp, Bt, Bc.
    apply (IH _ (fun id => (vp id + inject_Z (sum_eq (preds b) id))%Q)
                (fun id => (vt id + inject_Z (sum_eq (targets_max b) id))%Q)
                (fun id => (vc id + inject_Z (sum_both b id))%Q) Hnd).
    intros id Hid. simpl.
    rewrite (Bp id), (Bt id), (Bc id), !decide_True by done.
    destruct (Hs id Hid) as (-> & -> & ->). done.
Qed.


Lemma filter_map_length {A B} (f : A -> B) (p : B -> bool) (l : list A) :
  length (List.filter p (map f l)) = length (List.filter (fun a => p (f a)) l).
Proof.
  induction l as [|a l IH]; simpl; [reflexivity|].
  destruct (p (f a)); simpl; congruence.
Qed.

Lemma filter_concat_length {A} (p : A -> bool) (ls : list (list A)) :
  Z.of_nat (length (List.filter p (concat ls))) =
  foldr (fun l n => Z.of_nat (length (List.filter p l)) + n) 0 ls.
Proof.
  induction ls as [|l ls IH]; simpl; [reflexivity|].
  rewrite List.filter_app, length_app, Nat2Z.inj_add, IH. reflexivity.
Qed.

Lemma foldr_map {A B C} (g : A -> B) (f : B -> C -> C) (c : C) (l : list A) :
  foldr f c (map g l) = foldr (fun a => f (g a)) c l.
Proof. induction l as [|a l IH]; simpl; congruence. Qed.

Lemma total_predicted data id :
  foldr (fun b n => sum_eq (preds b) id + n) 0 data = predicted data id.
Proof.
  unfold predicted, all_samples, sum_eq, preds.
  rewrite filter_concat_length, foldr_map.
  induction data as [|b data IH]; simpl; [reflexivity|].
  rewrite filter_map_length, IH. reflexivity.
Qed.

Lemma total_actual data id :
  foldr (fun b n => sum_eq (targets_max b) id + n) 0 data = actual data id.
Proof.
  unfold actual, all_samples, sum_eq, targets_max.
  rewrite filter_concat_length, foldr_map.
  induction data as [|b data IH]; simpl; [reflexivity|].
  rewrite filter_map_length, IH. reflexivity.
Qed.

Lemma total_correct data id :
  foldr (fun b n => sum_both b id + n) 0 data = correct data id.
Proof.
  unfold correct, all_samples, sum_both.
  rewrite filter_concat_length, foldr_map. reflexivity.
Qed.

Lemma ratios_spec num den (vn vd : Z -> Q) : forall ids,
  (forall id, id ∈ ids -> num !! id = Some (vn id) /\ den !! id = Some (vd id)) ->
  ratios num den ids = Ok (map (fun id => ratio (vn id) (vd id)) ids).
Proof.
  induction ids as [|id ids IH]; intros Hk; simpl; [reflexivity|].
  destruct (Hk id (list_elem_of_here _ _)) as [Hn Hd].
  unfold dict_get. rewrite Hd. simpl. unfold ratio at 1.
  rewrite IH by (intros k Hin; apply Hk; by apply list_elem_of_further).
  destruct (Qeq_bool (vd id) 0); simpl; [reflexivity|].
  rewrite Hn. reflexivity.
Qed.

Lemma ratio_counts (n d : Q) (c p : Z) :
  (n == inject_Z c)%Q -> (d == inject_Z p)%Q ->
  (ratio n d == if p =? 0 then 0 else inject_Z c / inject_Z p)%Q.
Proof.
  intros Hn Hd. unfold ratio.
  destruct (Qeq_bool d 0) eqn:E.
  - apply Qeq_bool_iff in E. rewrite Hd in E.
    change 0%Q with (inject_Z 0) in E. apply (proj1 (inject_Z_injective _ _)) in E.
    subst p. reflexivity.
  - apply Qeq_bool_neq in E.
    destruct (Z.eqb_spec p 0) as [->|_].
    + exfalso. apply E. rewrite Hd. reflexivity.
    + rewrite Hn, Hd. reflexivity.
Qed.

Lemma from_zero f data id total :
  foldr (fun b n => f b id + n) 0 data = total ->
  (running f 0 data id == inject_Z total)%Q.
Proof. intros <-. rewrite running_total. ring. Qed.

Lemma mean_pointwise (l : list Q) (f : Z -> Q) ids :
  Forall2 Qeq l (map f ids) ->
  (Qsum l / inject_Z (Z.of_nat (length ids)) == unweighted_mean f ids)%Q.
Proof. intros H. unfold unweighted_mean. by rewrite (Qsum_pointwise _ _ H). Qed.

Lemma length_zero_iff {A} (l : list A) :
  (inject_Z (Z.of_nat (length l)) == 0)%Q <-> l = [].
Proof.
  split.
  - intros H. change 0%Q with (inject_Z 0) in H. apply (proj1 (inject_Z_injective _ _)) in H.
    destruct l; [reflexivity | simpl in H; lia].
  - intros ->. reflexivity.
Qed.

(** The outcome of a test pass, whatever the batching, for distinct label
    ids: it raises exactly when a divisor is zero, and otherwise returns
    the macro averages of the per-class ratios of the whole test set. *)
Lemma test_span_outcome (data : list Batch) (ids : list Z) :
  NoDup ids ->
  let P := unweighted_mean (class_precision data) ids in
  let R := unweighted_mean (class_recall data) ids in
  match test_span data ids with
  | Ok r =>
      ids <> [] /\ data <> [] /\ ~ (P + R == 0)%Q
      /\ (macro_precision r == P)%Q /\ (macro_recall r == R)%Q
      /\ (macro_f1_score r == 2 * (P * R) / (P + R))%Q
  | Raise e =>
      (ids = [] /\ e = ZeroDivisionError "macro_precision")
      \/ (ids <> [] /\ (P + R == 0)%Q /\ e = ZeroDivisionError "macro_f1_score")
      \/ (ids <> [] /\ ~ (P + R == 0)%Q /\ data = []
          /\ e = ZeroDivisionError "loss / len(loop)")
  end.
Proof.
  intros Hnd P R. unfold test_span.
  destruct (test_pass_totals ids data
              {| preds_sum := zeros ids; targets_sum := zeros ids;
                 preds_correct_sum := zeros ids; loss := 0%Q; accuracy := 0%Q |}
              (fun _ => 0%Q) (fun _ => 0%Q) (fun _ => 0%Q) Hnd)
    as (s & -> & Hs).
  { intros id Hid. simpl. rewrite zeros_lookup by done. done. }
  cbn [rbind].
  rewrite (ratios_spec _ _ (fun id => running sum_both 0 data id)
             (fun id => running (fun b => sum_eq (preds b)) 0 data id))
    by (intros id Hid; destruct (Hs id Hid) as (? & ? & ?); done).
  cbn [rbind].
  rewrite (ratios_spec _ _ (fun id => running sum_both 0 data id)
             (fun id => running (fun b => sum_eq (targets_max b)) 0 data id))
    by (intros id Hid; destruct (Hs id Hid) as (? & ? & ?); done).
  cbn [rbind]. unfold macro.
  destruct (decide (ids = [])) as [->|Hids].
  { simpl. left. done. }
  assert (Hn : ~ (inject_Z (Z.of_nat (length ids)) == 0)%Q)
    by (by rewrite length_zero_iff).
  rewrite !(py_div_nonzero _ _ _ Hn). cbn [rbind].
  set (mp := (Qsum _ / _)%Q). set (mr := (Qsum _ / _)%Q).
  assert (HP : (mp == P)%Q).
  { apply mean_pointwise. apply Forall2_fmap, Forall2_same_length_lookup_2; [done|].
    intros i x y Hx Hy. rewrite Hx in Hy. injection Hy as <-.
    apply ratio_counts; apply from_zero;
      [apply total_correct | apply total_predicted]. }
  assert (HR : (mr == R)%Q).
  { apply mean_pointwise. apply Forall2_fmap, Forall2_same_length_lookup_2; [done|].
    intros i x y Hx Hy. rewrite Hx in Hy. injection Hy as <-.
    apply ratio_counts; apply from_zero;
      [apply total_correct | apply total_actual]. }
  unfold macro_f1.
  destruct (Qeq_dec (mp + mr) 0) as [Hz|Hnz].
  { rewrite (py_div_zero _ _ _ Hz). simpl. right. left.
    split; [done|]. split; [|done]. by rewrite <- HP, <- HR. }
  rewrite (py_div_nonzero _ _ _ Hnz). cbn [rbind].
  assert (HPR : ~ (P + R == 0)%Q) by (by rewrite <- HP, <- HR).
  destruct (decide (data = [])) as [->|Hdata].
  { simpl. right. right. done. }
  assert (Hl : ~ (inject_Z (Z.of_nat (length data)) == 0)%Q)
    by (by rewrite length_zero_iff).
  rewrite !(py_div_nonzero _ _ _ Hl). cbn [rbind]. simpl.
  repeat split; try done.
  by rewrite HP, HR.
Qed.


(** No prediction equals its target: every count of correct predictions
    is zero. *)
Lemma correct_zero data id :
  (forall s, s ∈ all_samples data -> fst s <> snd s) -> correct data id = 0.
Proof.
  intros Hne. unfold correct.
  induction (all_samples data) as [|s l IH]; [reflexivity|].
  simpl. destruct (Z.eqb_spec (fst s) id) as [E1|_]; simpl.
  - destruct (Z.eqb_spec (snd s) id) as [E2|_]; simpl.
    + exfalso. apply (Hne s); [apply list_elem_of_here | congruence].
    + apply IH. intros s' Hs'. apply Hne. by apply list_elem_of_further.
  - apply IH. intros s' Hs'. apply Hne. by apply list_elem_of_further.
Qed.

Lemma mean_zero (f : Z -> Q) ids :
  (forall id, id ∈ ids -> (f id == 0)%Q) -> (unweighted_mean f ids == 0)%Q.
Proof.
  intros Hf. unfold unweighted_mean. rewrite Qsum_zero.
  - unfold Qdiv. ring.
  - apply Forall_fmap, Forall_forall. intros id Hid. by apply Hf.
Qed.

(** C1. After a test pass of [test_single_span] or [test_two_span] over
    distinct label ids, the macro precision is the unweighted mean over
    the label ids of correct/predicted (0 for an id never predicted), the
    macro recall the unweighted mean of correct/actual (0 for an id that
    never occurs), the divisor being the number of label ids, and the
    macro F1 is 2*P*R/(P+R).  On the scenario (predictions [0,0,1,1],
    targets [0,1,1,1], ids 0 and 1), however batched, the pass returns
    macro-P = 3/4, macro-R = 5/6 and macro-F1 = 15/19, which is 0.789
    to three decimals. *)
Theorem macro_metrics_of_test_pass (test_data : list Batch) (ids : list Z) :
  NoDup ids ->
  let P := unweighted_mean (class_precision test_data) ids in
  let R := unweighted_mean (class_recall test_data) ids in
  (forall r,
      test_single_span test_data ids = Ok r \/ test_two_span test_data ids = Ok r ->
      (macro_precision r == P)%Q /\ (macro_recall r == R)%Q
      /\ (macro_f1_score r == 2 * (P * R) / (P + R))%Q)
  /\ (forall id, predicted test_data id = 0 -> class_precision test_data id = 0%Q)
  /\ (forall id, actual test_data id = 0 -> class_recall test_data id = 0%Q)
  /\ (all_samples test_data = scenario -> ids = [0; 1] ->
      exists r,
        test_single_span test_data ids = Ok r /\ test_two_span test_data ids = Ok r
        /\ (class_precision test_data 0 == 1 # 2)%Q
        /\ (class_recall test_data 0 == 1)%Q
        /\ (class_precision test_data 1 == 1)%Q
        /\ (class_recall test_data 1 == 2 # 3)%Q
        /\ (macro_precision r == 3 # 4)%Q /\ (macro_recall r == 5 # 6)%Q
        /\ (macro_f1_score r == 15 # 19)%Q
        /\ (789 # 1000 <= macro_f1_score r)%Q /\ (macro_f1_score r < 790 # 1000)%Q).
Proof.
  intros Hnd P R. pose proof (test_span_outcome test_data ids Hnd) as Hout.
  cbv zeta in Hout. fold P R in Hout.
  split; [|split; [|split]].
  - intros r Hr.
    assert (Hr' : test_span test_data ids = Ok r) by (destruct Hr; assumption).
    rewrite Hr' in Hout. tauto.
  - intros id H0. unfold class_precision. by rewrite H0.
  - intros id H0. unfold class_recall. by rewrite H0.
  - intros Hall ->.
    assert (Hcp0 : (class_precision test_data 0 == 1 # 2)%Q)
      by (unfold class_precision, predicted, correct; rewrite Hall; reflexivity).
    assert (Hcr0 : (class_recall test_data 0 == 1)%Q)
      by (unfold class_recall, actual, correct; rewrite Hall; reflexivity).
    assert (Hcp1 : (class_precision test_data 1 == 1)%Q)
      by (unfold class_precision, predicted, correct; rewrite Hall; reflexivity).
    assert (Hcr1 : (class_recall test_data 1 == 2 # 3)%Q)
      by (unfold class_recall, actual, correct; rewrite Hall; reflexivity).
    assert (HP : (P == 3 # 4)%Q).
    { unfold P, unweighted_mean. cbn [map length]. rewrite !Qsum_cons, Hcp0, Hcp1.
      reflexivity. }
    assert (HR : (R == 5 # 6)%Q).
    { unfold R, unweighted_mean. cbn [map length]. rewrite !Qsum_cons, Hcr0, Hcr1.
      reflexivity. }
    unfold test_single_span, test_two_span.
    destruct (test_span test_data [0; 1]) as [r|e].
    + destruct Hout as (_ & _ & _ & Hp & Hr & Hf).
      assert (Hf' : (macro_f1_score r == 15 # 19)%Q)
        by (rewrite Hf, HP, HR; reflexivity).
      exists r. repeat split; try done.
      * by rewrite Hp.
      * by rewrite Hr.
      * rewrite Hf'. discriminate.
      * rewrite Hf'. reflexivity.
    + exfalso. destruct Hout as [[? _]|[(_ & Hz & _)|(_ & _ & Hd & _)]].
      * discriminate.
      * rewrite HP, HR in Hz. discriminate.
      * subst test_data. discriminate.
Qed.

Lemma macro_metrics_of_test_pass_witness :
  exists r,
    test_single_span [{| batch_loss := 1 # 2; samples := scenario |}] [0; 1] = Ok r
    /\ (macro_f1_score r == 15 # 19)%Q.
Proof.
  assert (Hnd : NoDup [0; 1]) by (apply (bool_decide_unpack _); vm_compute; exact I).
  destruct (macro_metrics_of_test_pass
              [{| batch_loss := 1 # 2; samples := scenario |}] [0; 1] Hnd)
    as (_ & _ & _ & Hs).
  destruct (Hs eq_refl eq_refl) as (r & Hr & _ & _ & _ & _ & _ & _ & _ & Hf & _).
  exists r. split; assumption.
Defined.

(** C3. On a test set on which every per-class precision and recall is 0
    (in particular one where no prediction equals its target) the division
    of the macro F1 is by zero: both testers raise [ZeroDivisionError] at
    [2*(macro_precision*macro_recall) / (macro_precision + macro_recall)]. *)
Theorem macro_f1_zero_division (test_data : list Batch) (ids : list Z) :
  NoDup ids -> ids <> [] ->
  ((forall id, id ∈ ids ->
      (class_precision test_data id == 0)%Q /\ (class_recall test_data id == 0)%Q) ->
   test_single_span test_data ids = Raise (ZeroDivisionError "macro_f1_score")
   /\ test_two_span test_data ids = Raise (ZeroDivisionError "macro_f1_score"))
  /\ ((forall s, s ∈ all_samples test_data -> fst s <> snd s) ->
      forall id,
        (class_precision test_data id == 0)%Q /\ (class_recall test_data id == 0)%Q).
Proof.
  intros Hnd Hids. split.
  - intros Hzero.
    pose proof (test_span_outcome test_data ids Hnd) as Hout. cbv zeta in Hout.
    assert (HP : (unweighted_mean (class_precision test_data) ids == 0)%Q)
      by (apply mean_zero; intros id Hid; apply Hzero, Hid).
    assert (HR : (unweighted_mean (class_recall test_data) ids == 0)%Q)
      by (apply mean_zero; intros id Hid; apply Hzero, Hid).
    unfold test_single_span, test_two_span.
    destruct (test_span test_data ids) as [r|e].
    + exfalso. destruct Hout as (_ & _ & Hnz & _). apply Hnz.
      rewrite HP, HR. reflexivity.
    + destruct Hout as [[? _]|[(_ & _ & ->)|(_ & Hnz & _)]].
      * contradiction.
      * done.
      * exfalso. apply Hnz. rewrite HP, HR. reflexivity.
  - intros Hne id. unfold class_precision, class_recall.
    rewrite (correct_zero _ id Hne).
    split.
    + destruct (predicted test_data id =? 0); [reflexivity|].
      unfold Qdiv. change (inject_Z 0) with 0%Q. ring.
    + destruct (actual test_data id =? 0); [reflexivity|].
      unfold Qdiv. change (inject_Z 0) with 0%Q. ring.
Qed.

Lemma macro_f1_zero_division_witness :
  test_single_span [{| batch_loss := 1; samples := [(0, 1); (1, 0)] |}] [0; 1]
  = Raise (ZeroDivisionError "macro_f1_score").
Proof.
  assert (Hnd : NoDup [0; 1]) by (apply (bool_decide_unpack _); vm_compute; exact I).
  assert (Hids : [0; 1] <> []) by discriminate.
  destruct (macro_f1_zero_division
              [{| batch_loss := 1; samples := [(0, 1); (1, 0)] |}] [0; 1] Hnd Hids)
    as [Hraise Hzero].
  apply Hraise. intros id _. apply Hzero.
  intros s Hs. simpl in Hs.
  apply elem_of_cons in Hs as [->|Hs]; [discriminate|].
  apply elem_of_cons in Hs as [->|Hs]; [discriminate|].
  by apply elem_of_nil in Hs.
Defined.

End MetricsTheory.

(** ** The training loop *)

Module TrainerTheory.

Import Trainer.

(** *** The evaluation block *)

Lemma evaluation_evaluated cfg m m' f :
  evaluation cfg m = (m', f) -> evaluated cfg m m' f.
Proof.
  unfold evaluation.
  destruct (best_before _ m) as [min_loss|] eqn:Hbest.
  2:{ intros [= <- <-]. by apply ev_unbound. }
  set (loss := val_loss cfg (Z.to_nat (v_eval m))) in *.
  set (m1 := improvement loss (v_eval m + 1) min_loss (v_counter m) m).
  destruct (max_evals_reached cfg (v_eval m1)) eqn:Hmax.
  { intros [= <- <-]. by eapply ev_max_evals. }
  destruct (Z.leb_spec (patience cfg) (v_counter m1)) as [Hpat|Hpat].
  { intros [= <- <-]. by eapply ev_patience. }
  unfold py_mod. destruct (Z.eqb_spec (patience_lr cfg) 0) as [Hz|Hnz].
  { intros [= <- <-]. by eapply ev_zero_patience_lr. }
  unfold decay_due.
  destruct (Z.eqb_spec (v_counter m1 mod patience_lr cfg) 0) as [Hmod|Hmod];
    destruct (Z.ltb_spec 0 (v_counter m1)) as [Hpos|Hpos]; simpl;
    intros [= <- <-];
    solve [ by eapply ev_halve | eapply ev_keep; eauto; intros [? ?]; lia ].
Qed.

Lemma improvement_fields loss eval min_loss counter m :
  let m1 := improvement loss eval min_loss counter m in
  v_lr m1 = v_lr m /\ v_eval m1 = eval /\ v_i m1 = v_i m
  /\ param_groups m1 = param_groups m /\ log m1 = log m
  /\ ((loss < min_loss)%Q /\ v_counter m1 = 0 /\ v_min_loss m1 = Some loss
      \/ (min_loss <= loss)%Q /\ v_counter m1 = counter + 1
         /\ v_min_loss m1 = Some min_loss).
Proof.
  unfold improvement. destruct (loss ?= min_loss)%Q eqn:E; simpl; repeat split.
  - right. split; [|done]. apply Qeq_alt in E. rewrite E. apply Qle_refl.
  - left. by rewrite Qlt_alt.
  - right. split; [|done]. apply Qlt_le_weak. by apply Qgt_alt.
Qed.


(** *** Invariants of a run

    A property that holds of a machine, that survives the bookkeeping of a
    gradient step and every outcome of the evaluation block, holds of the
    machine a run ends with, whatever the fuel. *)

Section Invariant.

Variable cfg : TrainConfig.
Variable Inv : Machine -> Prop.
Hypothesis step_inv :
  forall i m, Inv m -> Inv (emit (Step i (param_groups m)) (bind_i i m)).
Hypothesis eval_inv :
  forall m m' f, Inv m -> evaluated cfg m m' f -> Inv m'.

Lemma batch_invariant i m : Inv m -> Inv (fst (batch cfg i m)).
Proof.
  intros Hm. unfold batch.
  destruct (py_mod _ i (eval_interval cfg)) as [r|e]; [|by apply step_inv].
  destruct (r =? 0); [|by apply step_inv].
  destruct (evaluation cfg _) as [m' f] eqn:E.
  apply evaluation_evaluated in E. eapply eval_inv; [|exact E]. by apply step_inv.
Qed.

Lemma epoch_invariant n : forall i m, Inv m -> Inv (fst (epoch cfg n i m)).
Proof.
  induction n as [|n IH]; intros i m Hm; simpl; [done|].
  pose proof (batch_invariant i m Hm) as Hb.
  destruct (batch cfg i m) as [m1 [| |e]]; simpl in *; auto.
Qed.

Lemma training_invariant fuel : forall s m, Inv m -> Inv (fst (training cfg fuel s m)).
Proof.
  induction fuel as [|fuel IH]; intros s m Hm; simpl; [done|].
  pose proof (epoch_invariant (train_data cfg) s m Hm) as He.
  destruct (epoch cfg (train_data cfg) s m) as [m1 [| |e]]; simpl in *; auto.
  destruct (v_i m1) as [i|]; [|done].
  destruct (py_mod _ i (eval_interval cfg)) as [s'|e]; simpl; auto.
Qed.

End Invariant.

(** *** The learning rate *)

Lemma last_cons_default {A} (l : list A) : forall d x,
  List.last (x :: l) d = List.last l x.
Proof.
  induction l as [|y l IH]; intros d x; [reflexivity|].
  change (List.last (y :: l) d = List.last (y :: l) x).
  by rewrite !IH.
Qed.

Lemma last_lrs_snoc prev l e : last_lrs prev (l ++ [e]) = event_lrs e.
Proof. unfold last_lrs. rewrite map_app. simpl. apply last_last. Qed.

Lemma lr_chain_snoc cfg e : forall l prev,
  lr_chain cfg prev (l ++ [e]) <->
  lr_chain cfg prev l /\ lr_step_ok cfg (last_lrs prev l) e.
Proof.
  induction l as [|x l IH]; intros prev.
  - simpl. unfold last_lrs. simpl. tauto.
  - cbn [app lr_chain]. rewrite IH.
    assert (Hl : last_lrs prev (x :: l) = last_lrs (event_lrs x) l).
    { unfold last_lrs. cbn [map]. apply last_cons_default. }
    rewrite Hl. tauto.
Qed.

Lemma lr_invariant_emit cfg e m :
  lr_invariant cfg m -> event_lrs e = param_groups m ->
  lr_invariant cfg (emit e m).
Proof.
  intros (Hc & Hl & Hg & H0 & Hpos) He. unfold lr_invariant. simpl.
  rewrite lr_chain_snoc, last_lrs_snoc. repeat split; try done.
  rewrite Hl. destruct e; simpl in *; auto.
Qed.

Lemma lr_invariant_evaluated cfg m m' f :
  lr_invariant cfg m -> evaluated cfg m m' f -> lr_invariant cfg m'.
Proof.
  intros Hm Hev.
  assert (Hm1 : forall loss min_loss,
             lr_invariant cfg (improvement loss (v_eval m + 1) min_loss (v_counter m) m)).
  { intros loss min_loss.
    destruct (improvement_fields loss (v_eval m + 1) min_loss (v_counter m) m)
      as (E1 & _ & _ & E2 & E3 & _).
    destruct Hm as (Hc & Hl & Hg & H0 & Hpos). unfold lr_invariant.
    rewrite E1, E2, E3. done. }
  destruct Hev as [ | loss ml m1 _ _ -> _ | loss ml m1 _ _ -> _ _
                  | loss ml m1 _ _ -> _ _ _
                  | loss ml m1 _ _ -> _ _ Hnz Hmod Hpos
                  | loss ml m1 _ _ -> _ _ _ _ ]; auto;
    try (apply lr_invariant_emit; [apply Hm1 | reflexivity]).
  specialize (Hm1 loss ml).
  set (m1 := improvement loss (v_eval m + 1) ml (v_counter m) m) in *.
  destruct Hm1 as (Hc & Hl & Hg & H0 & Hlr).
  unfold lr_invariant, finish_evaluation. simpl.
  rewrite lr_chain_snoc, last_lrs_snoc. simpl.
  assert (Hhalf : (v_lr m1 / 2 <= v_lr m1)%Q) by (by apply Qhalf_le).
  repeat split; try done.
  - right. rewrite Hl. repeat split; try done.
    apply Forall2_fmap_l, Forall2_same_length_lookup_2; [done|].
    intros i x y Hx Hy. rewrite Hx in Hy. injection Hy as <-.
    rewrite Forall_forall in Hg.
    assert (Hxg : (x == v_lr m1)%Q) by (apply Hg; eapply list_elem_of_lookup_2; eauto).
    split; [by rewrite Hxg|]. split; [by rewrite Hxg|].
    intros Hcfg. rewrite Hxg. by apply Qhalf_lt, Hlr.
  - apply Forall_fmap, Forall_forall. intros x _. simpl. reflexivity.
  - by apply Qhalf_nonneg.
  - intros Hcfg. by apply Qhalf_pos, Hlr.
Qed.

Lemma lr_after_succ cfg h : lr_after cfg (S h) = (lr_after cfg h / 2)%Q.
Proof. reflexivity. Qed.

Lemma lr_accounted_evaluated cfg m m' f :
  lr_accounted cfg m -> evaluated cfg m m' f -> lr_accounted cfg m'.
Proof.
  intros (h & Hrun & Hlr) Hev.
  assert (Hm1 : forall loss min_loss,
             let m1 := improvement loss (v_eval m + 1) min_loss (v_counter m) m in
             v_lr m1 = v_lr m /\ param_groups m1 = param_groups m /\ log m1 = log m).
  { intros loss min_loss.
    destruct (improvement_fields loss (v_eval m + 1) min_loss (v_counter m) m)
      as (E1 & _ & _ & E2 & E3 & _). done. }
  destruct Hev as [ | loss ml m1 _ _ -> _ | loss ml m1 _ _ -> _ _
                  | loss ml m1 _ _ -> _ _ _
                  | loss ml m1 _ _ -> _ _ Hnz Hmod Hpos
                  | loss ml m1 _ _ -> _ _ _ _ ];
    try (destruct (Hm1 loss ml) as (E1 & E2 & E3)).
  - by exists h.
  - exists h. unfold finish_evaluation. simpl. rewrite E1, E2, E3.
    split; [by apply lr_kept | done].
  - exists h. unfold finish_evaluation. simpl. rewrite E1, E2, E3.
    split; [by apply lr_kept | done].
  - exists h. by rewrite E1, E2, E3.
  - exists (S h). unfold finish_evaluation. simpl. rewrite E1, E2, E3.
    rewrite Hlr. change (lr_after cfg h / 2)%Q with (lr_after cfg (S h)).
    split; [by apply lr_halved | done].
  - exists h. unfold finish_evaluation. simpl. rewrite E1, E2, E3.
    split; [by apply lr_kept | done].
Qed.

Lemma lr_accounted_run cfg fuel : lr_accounted cfg (fst (train_span cfg fuel)).
Proof.
  unfold train_span. apply (training_invariant cfg (lr_accounted cfg)).
  - intros i m (h & Hrun & Hlr). exists h. simpl. split; [by apply lr_step | done].
  - apply lr_accounted_evaluated.
  - exists 0%nat. split; [apply lr_start | reflexivity].
Qed.

(** C4, as amended.  Along every run of [train_single_span] and
    [train_two_span], whatever the configuration: a gradient step runs
    with the learning rates the previous event left; an evaluation leaves
    them unchanged or sets every parameter group to the local [lr], which
    is [config.lr] halved once more than before; and it does so only when
    its non-improvement counter is positive and a multiple of
    [patience_lr].  If moreover the optimizer was initialised with
    [config.lr] and that rate is not negative, every such change replaces
    each group's rate by exactly its half, which is never larger (and is
    smaller when the rate is positive). *)
Theorem learning_rate_only_halves (cfg : TrainConfig) (fuel : nat) :
  lr_accounted cfg (fst (train_single_span cfg fuel))
  /\ lr_accounted cfg (fst (train_two_span cfg fuel))
  /\ ((0 <= lr cfg)%Q ->
      Forall (fun g => g == lr cfg)%Q (optimizer cfg) ->
      lr_chain cfg (optimizer cfg) (log (fst (train_single_span cfg fuel)))
      /\ lr_chain cfg (optimizer cfg) (log (fst (train_two_span cfg fuel)))).
Proof.
  split; [apply lr_accounted_run|]. split; [apply lr_accounted_run|].
  intros Hlr Hopt.
  assert (H : lr_invariant cfg (fst (train_span cfg fuel))).
  { unfold train_span. apply (training_invariant cfg (lr_invariant cfg)).
    - intros i m Hm. apply lr_invariant_emit; [|reflexivity].
      destruct Hm as (Hc & Hl & Hg & H0 & Hpos). unfold lr_invariant. simpl. done.
    - apply lr_invariant_evaluated.
    - unfold lr_invariant, initial. simpl. done. }
  destruct H as [H _]. split; exact H.
Qed.

Lemma learning_rate_only_halves_witness :
  lr_chain decaying (optimizer decaying) (log (fst (train_single_span decaying 5)))
  /\ log (fst (train_single_span decaying 5))
     = [Step 1 [1 # 10000]; Evaluation 1 1 1 [1 # 20000];
        Step 2 [1 # 20000]; Evaluation 2 1 2 [1 # 40000];
        Step 0 [1 # 40000]; Evaluation 3 1 3 [1 # 40000]]%Q.
Proof.
  assert (Hlr : (0 <= lr decaying)%Q) by discriminate.
  assert (Hopt : Forall (fun g => g == lr decaying)%Q (optimizer decaying))
    by (constructor; [reflexivity | constructor]).
  destruct (learning_rate_only_halves decaying 5) as (_ & _ & Hchain).
  destruct (Hchain Hlr Hopt) as [H _].
  split; [exact H|]. vm_compute. reflexivity.
Defined.

(** C4, counterexample to the claim as stated: with an optimizer built
    with the rate [0.001] and [config.lr = 0.01], the first decay sets the
    rate of the parameter group to [0.005]: the rate goes up, and not to
    half of what it was. *)
Lemma decay_raises_a_mismatched_rate :
  log (fst (train_single_span mismatched 1))
  = [Step 1 [1 # 1000]; Evaluation 1 1 1 [1 # 200];
     Step 2 [1 # 200]; Evaluation 2 1 2 [1 # 200]]%Q
  /\ (1 # 1000 < 1 # 200)%Q
  /\ ~ (1 # 200 == (1 # 1000) / 2)%Q
  /\ ~ lr_chain mismatched (optimizer mismatched)
                (log (fst (train_single_span mismatched 1))).
Proof.
  assert (Hlog : log (fst (train_single_span mismatched 1))
                 = [Step 1 [1 # 1000]; Evaluation 1 1 1 [1 # 200];
                    Step 2 [1 # 200]; Evaluation 2 1 2 [1 # 200]]%Q)
    by (vm_compute; reflexivity).
  split; [exact Hlog|]. split; [reflexivity|]. split; [discriminate|].
  rewrite Hlog. cbn [lr_chain lr_step_ok event_lrs].
  intros (_ & [Hsame|(Hhalf & _)] & _).
  - discriminate.
  - apply Forall2_cons in Hhalf as [(Heq & _) _]. discriminate.
Qed.


(** *** Termination

    A run stops provided evaluations keep coming.  The argument is
    parametric in a bound [N] on the number of evaluations, an invariant
    [J] under which the evaluation block cannot raise before the bound,
    and the property [Final] that holds when the block breaks. *)

Lemma evaluated_v_i cfg m m' f : evaluated cfg m m' f -> v_i m' = v_i m.
Proof.
  intros Hev.
  destruct Hev as [ | loss ml m1 _ _ -> _ | loss ml m1 _ _ -> _ _
                  | loss ml m1 _ _ -> _ _ _
                  | loss ml m1 _ _ -> _ _ _ _ _
                  | loss ml m1 _ _ -> _ _ _ _ ]; try reflexivity;
    simpl; apply improvement_fields.
Qed.

Section Termination.

Variable cfg : TrainConfig.
Variable N : Z.
Variables J Final : Machine -> Prop.
Hypothesis Hcfg : well_configured cfg.
Hypothesis J_step :
  forall i m, J m -> J (emit (Step i (param_groups m)) (bind_i i m)).
Hypothesis J_eval :
  forall m m' f, J m -> v_eval m < N -> evaluated cfg m m' f ->
    match f with
    | Break => Final m'
    | Next => J m' /\ v_eval m' = v_eval m + 1 /\ v_eval m' < N
    | Raised _ => False
    end.

Lemma epoch_progress n : forall i m,
  J m -> v_eval m < N ->
  match epoch cfg n i m with
  | (m', Break) => Final m'
  | (m', Raised _) => False
  | (m', Next) =>
      J m' /\ v_eval m' < N /\ v_eval m <= v_eval m'
      /\ (n <> 0%nat -> v_i m' = Some (i + Z.of_nat n - 1))
      /\ (forall j, i <= j < i + Z.of_nat n -> j mod eval_interval cfg = 0 ->
          v_eval m < v_eval m')
  end.
Proof.
  destruct Hcfg as (HE & _ & _).
  induction n as [|n IH]; intros i m HJ HN.
  - simpl. repeat split; try done; try lia.
  - cbn [epoch]. unfold batch, py_mod.
    destruct (Z.eqb_spec (eval_interval cfg) 0) as [?|_]; [lia|].
    set (m1 := emit (Step i (param_groups m)) (bind_i i m)).
    assert (HJ1 : J m1) by (by apply J_step).
    destruct (Z.eqb_spec (i mod eval_interval cfg) 0) as [Hi|Hi].
    + destruct (evaluation cfg m1) as [m2 f] eqn:E.
      apply evaluation_evaluated in E.
      pose proof (evaluated_v_i _ _ _ _ E) as Hvi.
      pose proof (J_eval m1 m2 f HJ1 HN E) as H2.
      destruct f as [| |e]; [|done|done].
      destruct H2 as (HJ2 & He2 & HN2). change (v_eval m1) with (v_eval m) in He2.
      specialize (IH (i + 1) m2 HJ2 HN2).
      destruct (epoch cfg n (i + 1) m2) as [m3 [| |e]] eqn:E3; [|done|done].
      destruct IH as (HJ3 & HN3 & Hle & Hvi3 & _).
      repeat split; try done; try lia.
      * intros _. destruct n as [|n'].
        -- simpl in E3. injection E3 as <-. rewrite Hvi. simpl. f_equal. lia.
        -- rewrite Hvi3 by done. f_equal. lia.
    + specialize (IH (i + 1) m1 HJ1 HN).
      destruct (epoch cfg n (i + 1) m1) as [m3 [| |e]] eqn:E3; [|done|done].
      destruct IH as (HJ3 & HN3 & Hle & Hvi3 & Hmul).
      change (v_eval m1) with (v_eval m) in *.
      repeat split; try done.
      * intros _. destruct n as [|n'].
        -- simpl in E3. injection E3 as <-. simpl. f_equal. lia.
        -- rewrite Hvi3 by done. f_equal. lia.
      * intros j Hj Hjm. destruct (decide (j = i)) as [->|Hne]; [done|].
        apply (Hmul j); [lia | done].
Qed.

Lemma training_terminates k : forall s m,
  J m -> v_eval m < N -> 0 <= s <= eval_interval cfg ->
  (N - v_eval m) * (eval_interval cfg + 1) + (eval_interval cfg - s) < Z.of_nat k ->
  exists m', training cfg k s m = (m', Finished) /\ Final m'.
Proof.
  destruct Hcfg as (HE & _ & HB).
  induction k as [|k IH]; intros s m HJ HN Hs Hk.
  { exfalso. nia. }
  cbn [training].
  pose proof (epoch_progress (train_data cfg) s m HJ HN) as Hep.
  destruct (epoch cfg (train_data cfg) s m) as [m1 [| |e]]; [|eauto|done].
  destruct Hep as (HJ1 & HN1 & Hle & Hvi & Hmul).
  rewrite Hvi by (destruct HB; lia).
  unfold py_mod. destruct (Z.eqb_spec (eval_interval cfg) 0) as [?|_]; [lia|].
  set (B := Z.of_nat (train_data cfg)) in *.
  set (E := eval_interval cfg) in *.
  pose proof (Z.mod_pos_bound (s + B - 1) E HE) as Hs'.
  apply IH; try done; [lia|].
  destruct (decide (v_eval m < v_eval m1)) as [Hlt|Hnlt].
  - nia.
  - assert (Heq : v_eval m1 = v_eval m) by lia.
    assert (Hnone : forall j, s <= j < s + B -> j mod E <> 0).
    { intros j Hj Hjm. specialize (Hmul j Hj Hjm). lia. }
    assert (HB1 : 1 <= B) by (destruct HB; lia).
    assert (Hs0 : s <> 0).
    { intros ->. apply (Hnone 0); [lia | apply Z.mod_0_l; lia]. }
    assert (HsE : s + B - 1 < E).
    { destruct (decide (s + B - 1 < E)); [done|]. exfalso.
      apply (Hnone E); [lia | apply Z_mod_same_full]. }
    assert (HB2 : 2 <= B).
    { destruct HB as [?|[_ HE1]]; [lia|]. exfalso.
      apply (Hnone s); [lia|]. fold E in HE1. rewrite HE1. apply Z.mod_1_r. }
    rewrite Z.mod_small by lia. rewrite Heq. nia.
Qed.

End Termination.

(** Extra fuel does not change a run that has stopped. *)
Lemma training_fuel_mono cfg k : forall k' s m m',
  training cfg k s m = (m', Finished) -> (k <= k')%nat ->
  training cfg k' s m = (m', Finished).
Proof.
  induction k as [|k IH]; intros k' s m m' Hrun Hle; [discriminate|].
  destruct k' as [|k']; [lia|].
  cbn [training] in *.
  destruct (epoch cfg (train_data cfg) s m) as [m1 [| |e]]; try done.
  destruct (v_i m1) as [i|]; [|done].
  destruct (py_mod _ i (eval_interval cfg)) as [s'|e]; [|done].
  apply IH; [done | lia].
Qed.


(** *** Runs bounded by [max_evals] *)

Lemma best_before_bound loss m :
  0 <= v_eval m -> (0 < v_eval m -> is_Some (v_min_loss m)) ->
  is_Some (best_before loss m).
Proof.
  intros H0 Hb. unfold best_before.
  destruct (Z.eqb_spec (v_eval m + 1) 1); [eauto | apply Hb; lia].
Qed.

Lemma max_evals_reached_false cfg mx n :
  max_evals cfg = Some mx -> max_evals_reached cfg n = false -> n < mx.
Proof. unfold max_evals_reached. intros ->. apply Z.leb_gt. Qed.

Lemma max_evals_reached_true cfg n :
  max_evals_reached cfg n = true -> exists mx, max_evals cfg = Some mx /\ mx <= n.
Proof.
  unfold max_evals_reached. destruct (max_evals cfg) as [mx|]; [|discriminate].
  intros H%Z.leb_le. eauto.
Qed.

Lemma counted_evaluated cfg mx m m' f :
  max_evals cfg = Some mx -> patience_lr cfg <> 0 ->
  counted m -> v_eval m < Z.max 1 mx -> evaluated cfg m m' f ->
  match f with
  | Break => 1 <= v_eval m' <= Z.max 1 mx
             /\ (mx <= patience cfg -> v_eval m' = Z.max 1 mx)
  | Next => counted m' /\ v_eval m' = v_eval m + 1 /\ v_eval m' < Z.max 1 mx
  | Raised _ => False
  end.
Proof.
  intros Hmx Hnz ((Hc0 & Hce) & Hb) HN Hev.
  assert (H0 : 0 <= v_eval m) by lia.
  destruct Hev as [ Hnone | loss ml m1 _ _ -> Hmax | loss ml m1 _ _ -> Hmax Hpat
                  | loss ml m1 _ _ -> _ _ Hz
                  | loss ml m1 _ _ -> Hmax Hpat _ _ _
                  | loss ml m1 _ _ -> Hmax Hpat _ _ ].
  - destruct (best_before_bound (val_loss cfg (Z.to_nat (v_eval m))) m H0 Hb) as [? Hs].
    congruence.
  - destruct (improvement_fields loss (v_eval m + 1) ml (v_counter m) m)
      as (_ & He & _ & _ & _ & _).
    simpl. rewrite He in *.
    apply max_evals_reached_true in Hmax as (mx' & Hmx' & Hle).
    assert (mx' = mx) by congruence. subst mx'. lia.
  - destruct (improvement_fields loss (v_eval m + 1) ml (v_counter m) m)
      as (_ & He & _ & _ & _ & Hcnt).
    simpl. rewrite He in *.
    apply (max_evals_reached_false _ _ _ Hmx) in Hmax.
    destruct Hcnt as [(_ & Hc & _)|(_ & Hc & _)]; rewrite Hc in Hpat; lia.
  - contradiction.
  - destruct (improvement_fields loss (v_eval m + 1) ml (v_counter m) m)
      as (_ & He & _ & _ & _ & Hcnt).
    unfold counted. simpl. rewrite He in *.
    apply (max_evals_reached_false _ _ _ Hmx) in Hmax.
    destruct Hcnt as [(_ & Hc & Hm)|(_ & Hc & Hm)]; rewrite Hc, Hm;
      repeat split; eauto; lia.
  - destruct (improvement_fields loss (v_eval m + 1) ml (v_counter m) m)
      as (_ & He & _ & _ & _ & Hcnt).
    unfold counted. simpl. rewrite He in *.
    apply (max_evals_reached_false _ _ _ Hmx) in Hmax.
    destruct Hcnt as [(_ & Hc & Hm)|(_ & Hc & Hm)]; rewrite Hc, Hm;
      repeat split; eauto; lia.
Qed.

Lemma bounded_run_stops cfg mx :
  well_configured cfg -> max_evals cfg = Some mx ->
  exists fuel m, train_span cfg fuel = (m, Finished)
    /\ 1 <= v_eval m <= Z.max 1 mx
    /\ (mx <= patience cfg -> v_eval m = Z.max 1 mx).
Proof.
  intros Hcfg Hmx.
  set (k := Z.to_nat (Z.max 1 mx * (eval_interval cfg + 1) + eval_interval cfg)).
  destruct (training_terminates cfg (Z.max 1 mx) counted
              (fun m => 1 <= v_eval m <= Z.max 1 mx
                        /\ (mx <= patience cfg -> v_eval m = Z.max 1 mx))
              Hcfg) with (k := k) (s := 1) (m := initial cfg) as (m & Hrun & Hfin).
  - intros i m Hm. exact Hm.
  - intros m m' f Hm HN Hev.
    apply (counted_evaluated cfg mx m m' f); try done. apply Hcfg.
  - unfold counted, initial. simpl. split; [lia|]. lia.
  - simpl. lia.
  - destruct Hcfg as (HE & _). lia.
  - destruct Hcfg as (HE & _). subst k. simpl. nia.
  - exists k, m. split; [exact Hrun | exact Hfin].
Qed.

(** *** Runs on losses that never improve *)

Lemma stalled_improvement cfg m loss ml :
  never_improves (val_loss cfg) -> stalled cfg m ->
  loss = val_loss cfg (Z.to_nat (v_eval m)) ->
  best_before loss m = Some ml ->
  let m1 := improvement loss (v_eval m + 1) ml (v_counter m) m in
  v_eval m1 = v_eval m + 1 /\ v_counter m1 = v_eval m + 1
  /\ v_min_loss m1 = Some (val_loss cfg 0%nat).
Proof.
  intros Hnever (H0 & Hc & Hb) Hloss Hbest m1.
  assert (Hml : ml = val_loss cfg 0%nat /\ (ml <= loss)%Q).
  { unfold best_before in Hbest.
    destruct (Z.eqb_spec (v_eval m + 1) 1) as [E|E].
    - assert (E0 : v_eval m = 0) by lia. rewrite E0 in Hloss. simpl in Hloss.
      injection Hbest as <-. split; [done | apply Qle_refl].
    - rewrite Hb in Hbest by lia. injection Hbest as <-.
      split; [done|]. subst loss. apply Hnever. }
  destruct Hml as [-> Hle].
  destruct (improvement_fields loss (v_eval m + 1) (val_loss cfg 0%nat) (v_counter m) m)
    as (_ & He & _ & _ & _ & Hcnt).
  fold m1 in He, Hcnt.
  destruct Hcnt as [(Hlt & _)|(_ & Hc1 & Hm1)].
  - exfalso. by apply (Qlt_not_le _ _ Hlt).
  - repeat split; try done. lia.
Qed.

Lemma stalled_evaluated cfg m m' f :
  never_improves (val_loss cfg) -> patience_lr cfg <> 0 ->
  stalled cfg m -> v_eval m < stop_count cfg -> evaluated cfg m m' f ->
  match f with
  | Break => v_eval m' = stop_count cfg /\ v_counter m' = stop_count cfg
  | Next => stalled cfg m' /\ v_eval m' = v_eval m + 1 /\ v_eval m' < stop_count cfg
  | Raised _ => False
  end.
Proof.
  intros Hnever Hnz Hm HN Hev. pose proof Hm as (H0 & Hc & Hb).
  unfold stop_count in *.
  destruct Hev as [ Hnone | loss ml m1 Hl Hbest -> Hmax | loss ml m1 Hl Hbest -> Hmax Hpat
                  | loss ml m1 _ _ -> _ _ Hz
                  | loss ml m1 Hl Hbest -> Hmax Hpat _ _ _
                  | loss ml m1 Hl Hbest -> Hmax Hpat _ _ ];
    try (destruct (stalled_improvement cfg m loss ml Hnever Hm Hl Hbest)
           as (He & Hc1 & Hm1)).
  - destruct (best_before_bound (val_loss cfg (Z.to_nat (v_eval m))) m H0) as [? Hs].
    + intros Hpos. rewrite Hb by done. eauto.
    + congruence.
  - simpl. rewrite He, Hc1 in *.
    apply max_evals_reached_true in Hmax as (mx & Hmx & Hle).
    rewrite Hmx in *. lia.
  - simpl. rewrite He, Hc1 in *.
    unfold max_evals_reached in Hmax.
    destruct (max_evals cfg) as [mx|]; [apply Z.leb_gt in Hmax|]; lia.
  - contradiction.
  - unfold stalled. simpl. rewrite He, Hc1, Hm1 in *.
    unfold max_evals_reached in Hmax.
    destruct (max_evals cfg) as [mx|]; [apply Z.leb_gt in Hmax|];
      repeat split; try done; lia.
  - unfold stalled. simpl. rewrite He, Hc1, Hm1 in *.
    unfold max_evals_reached in Hmax.
    destruct (max_evals cfg) as [mx|]; [apply Z.leb_gt in Hmax|];
      repeat split; try done; lia.
Qed.

Lemma stalled_run_stops cfg :
  well_configured cfg -> never_improves (val_loss cfg) ->
  exists fuel m, train_span cfg fuel = (m, Finished)
    /\ v_eval m = stop_count cfg /\ v_counter m = stop_count cfg.
Proof.
  intros Hcfg Hnever.
  set (k := Z.to_nat (stop_count cfg * (eval_interval cfg + 1) + eval_interval cfg)).
  assert (H1 : 1 <= stop_count cfg) by (unfold stop_count; lia).
  destruct (training_terminates cfg (stop_count cfg) (stalled cfg)
              (fun m => v_eval m = stop_count cfg /\ v_counter m = stop_count cfg)
              Hcfg) with (k := k) (s := 1) (m := initial cfg) as (m & Hrun & Hfin).
  - intros i m Hm. exact Hm.
  - intros m m' f Hm HN Hev.
    apply (stalled_evaluated cfg m m' f); try done. apply Hcfg.
  - unfold stalled, initial. simpl. repeat split; lia.
  - simpl. lia.
  - destruct Hcfg as (HE & _). lia.
  - destruct Hcfg as (HE & _). subst k. simpl. nia.
  - exists k, m. split; [exact Hrun | exact Hfin].
Qed.


(** *** The order of the stop conditions *)

Lemma evaluation_order cfg m m' f :
  patience_lr cfg <> 0 ->
  v_eval m = 0 \/ is_Some (v_min_loss m) ->
  evaluation cfg m = (m', f) ->
  v_eval m' = v_eval m + 1
  /\ f = (if max_evals_reached cfg (v_eval m') then Break
          else if patience cfg <=? v_counter m' then Break
          else Next)
  /\ (f = Break -> v_lr m' = v_lr m /\ param_groups m' = param_groups m)
  /\ (f = Next ->
      if decay_due (v_counter m' mod patience_lr cfg) (v_counter m')
      then v_lr m' = (v_lr m / 2)%Q
           /\ param_groups m' = map (fun _ => (v_lr m / 2)%Q) (param_groups m)
      else v_lr m' = v_lr m /\ param_groups m' = param_groups m).
Proof.
  intros Hnz Hb Hev. apply evaluation_evaluated in Hev.
  destruct Hev as [ Hnone | loss ml m1 _ _ -> Hmax | loss ml m1 _ _ -> Hmax Hpat
                  | loss ml m1 _ _ -> _ _ Hz
                  | loss ml m1 _ _ -> Hmax Hpat _ Hmod Hpos
                  | loss ml m1 _ _ -> Hmax Hpat _ Hno ];
    try (destruct (improvement_fields loss (v_eval m + 1) ml (v_counter m) m)
           as (Hlr & He & _ & Hg & _ & _)).
  - exfalso. unfold best_before in Hnone.
    destruct (Z.eqb_spec (v_eval m + 1) 1) as [|E]; [discriminate|].
    destruct Hb as [?|[? ?]]; [lia | congruence].
  - simpl. rewrite Hmax. repeat split; try done.
  - simpl. rewrite Hmax. apply Z.leb_le in Hpat. rewrite Hpat. repeat split; try done.
  - contradiction.
  - simpl. rewrite Hmax. apply Z.leb_gt in Hpat. rewrite Hpat.
    repeat split; try done. intros _.
    unfold decay_due. rewrite Hmod. apply Z.ltb_lt in Hpos. rewrite Hpos. simpl.
    by rewrite Hlr, Hg.
  - simpl. rewrite Hmax. apply Z.leb_gt in Hpat. rewrite Hpat.
    repeat split; try done. intros _.
    unfold decay_due.
    destruct (Z.eqb_spec (v_counter
                (improvement loss (v_eval m + 1) ml (v_counter m) m)
                mod patience_lr cfg) 0) as [Hmod|Hmod];
      destruct (Z.ltb_spec 0 (v_counter
                (improvement loss (v_eval m + 1) ml (v_counter m) m)));
      simpl; try done.
    exfalso. apply Hno. done.
Qed.

(** *** The evaluation at which a run stops *)

Lemma tracked_succ loss k :
  tracked loss (S k)
  = match fst (tracked loss k) with
    | None => (Some (loss k), snd (tracked loss k) + 1)
    | Some b =>
        match (loss k ?= b)%Q with
        | Lt => (Some (loss k), 0)
        | _ => (Some b, snd (tracked loss k) + 1)
        end
    end.
Proof. cbn [tracked]. by destruct (tracked loss k) as [[b|] c]. Qed.

Lemma tracked_bound loss k : is_Some (fst (tracked loss (S k))).
Proof.
  rewrite tracked_succ. destruct (fst (tracked loss k)) as [b|]; [|by eexists].
  destruct (loss k ?= b)%Q; by eexists.
Qed.

Lemma counter_after_nonneg loss n : 0 <= counter_after loss n.
Proof.
  unfold counter_after. induction n as [|n IH]; [done|].
  rewrite tracked_succ. destruct (fst (tracked loss n)) as [b|]; [|simpl; lia].
  destruct (loss n ?= b)%Q; simpl; lia.
Qed.

(** [min_loss] is one of the losses so far and none of them is below it. *)
Lemma tracked_best loss n b :
  fst (tracked loss n) = Some b ->
  forall j, (j < n)%nat -> (b <= loss j)%Q.
Proof.
  revert b. induction n as [|n IH]; intros b; [discriminate|].
  rewrite tracked_succ.
  destruct (fst (tracked loss n)) as [b0|] eqn:Hb0.
  - specialize (IH b0 eq_refl).
    destruct (loss n ?= b0)%Q eqn:Hcmp; simpl; intros [= <-] j Hj;
      destruct (decide (j = n)) as [->|Hne]; try (apply IH; lia).
    + apply Qeq_alt in Hcmp. rewrite Hcmp. apply Qle_refl.
    + apply Qle_refl.
    + apply Qlt_alt in Hcmp. apply Qlt_le_weak.
      eapply Qlt_le_trans; [exact Hcmp|]. apply IH. lia.
    + apply Qgt_alt in Hcmp. by apply Qlt_le_weak.
  - simpl. intros [= <-] j Hj.
    assert (n = 0)%nat as -> by (destruct n; [done|];
      destruct (tracked_bound loss n) as [? E]; congruence).
    assert (j = 0)%nat as -> by lia. apply Qle_refl.
Qed.

(** Once the losses have stopped improving every evaluation counts. *)
Lemma counter_settled loss N :
  settled loss N -> forall p, Z.of_nat p <= counter_after loss (N + p).
Proof.
  intros Hset. induction p as [|p IH].
  - rewrite Nat.add_0_r. apply counter_after_nonneg.
  - replace (N + S p)%nat with (S (N + p)) by lia.
    unfold counter_after in *. rewrite tracked_succ.
    destruct (fst (tracked loss (N + p))) as [b|] eqn:Hb; [|simpl; lia].
    destruct (loss (N + p)%nat ?= b)%Q eqn:Hcmp; simpl; try lia.
    exfalso. apply Qlt_alt in Hcmp.
    assert (Hpos : (0 < N + p)%nat).
    { destruct (N + p)%nat; [discriminate | lia]. }
    destruct (Hset (N + p)%nat ltac:(lia) Hpos) as (j & Hj & Hle).
    pose proof (tracked_best loss _ b Hb j Hj) as Hbj.
    apply (Qlt_not_le _ _ Hcmp). by eapply Qle_trans.
Qed.

Lemma on_track_evaluated cfg m m' f :
  on_track cfg m -> evaluated cfg m m' f ->
  let n := S (Z.to_nat (v_eval m)) in
  match f with
  | Raised _ => patience_lr cfg = 0
  | Break => on_track cfg m' /\ v_eval m' = Z.of_nat n /\ stops_at cfg n = true
  | Next => on_track cfg m' /\ v_eval m' = Z.of_nat n /\ stops_at cfg n = false
  end.
Proof.
  intros [H0 Htr] Hev n.
  set (k := Z.to_nat (v_eval m)) in *.
  assert (Hn : v_eval m + 1 = Z.of_nat n) by (subst n k; lia).
  assert (Hm1 : forall loss ml,
             loss = val_loss cfg k -> best_before loss m = Some ml ->
             let m1 := improvement loss (v_eval m + 1) ml (v_counter m) m in
             v_eval m1 = Z.of_nat n
             /\ (v_min_loss m1, v_counter m1) = tracked (val_loss cfg) n
             /\ on_track cfg m1
             /\ stops_at cfg n
                = max_evals_reached cfg (v_eval m1) || (patience cfg <=? v_counter m1)).
  { intros loss ml Hl Hbest m1.
    assert (He : v_eval m1 = Z.of_nat n) by (subst m1; unfold improvement;
      destruct (loss ?= ml)%Q; simpl; exact Hn).
    assert (Ht : (v_min_loss m1, v_counter m1) = tracked (val_loss cfg) n).
    { subst n. rewrite tracked_succ. fold k. rewrite <- Htr. cbn [fst snd].
      unfold best_before in Hbest.
      destruct (v_min_loss m) as [b|] eqn:Hb.
      - destruct (Z.eqb_spec (v_eval m + 1) 1) as [E|E].
        + exfalso. assert (k = 0)%nat by (subst k; lia).
          replace k with 0%nat in Htr. simpl in Htr. congruence.
        + injection Hbest as <-. subst m1. unfold improvement. rewrite <- Hl.
          by destruct (loss ?= b)%Q.
      - destruct (Z.eqb_spec (v_eval m + 1) 1) as [E|E]; [|discriminate].
        injection Hbest as <-. subst m1. unfold improvement.
        assert (Hcmp : (loss ?= loss)%Q = Eq) by (apply Qeq_alt; reflexivity).
        rewrite Hcmp, <- Hl. reflexivity. }
    split; [exact He|]. split; [exact Ht|]. split.
    - split; [lia|]. rewrite He, Nat2Z.id. exact Ht.
    - unfold stops_at, counter_after. rewrite <- Ht, He. reflexivity. }
  destruct Hev as [ Hnone | loss ml m1 Hl Hbest -> Hmax | loss ml m1 Hl Hbest -> Hmax Hpat
                  | loss ml m1 Hl Hbest -> _ _ Hz
                  | loss ml m1 Hl Hbest -> Hmax Hpat _ _ _
                  | loss ml m1 Hl Hbest -> Hmax Hpat _ _ ];
    try (destruct (Hm1 loss ml Hl Hbest) as (He & Ht & Hon & Hstop)).
  - exfalso. unfold best_before in Hnone.
    destruct (Z.eqb_spec (v_eval m + 1) 1) as [|E]; [discriminate|].
    destruct (tracked_bound (val_loss cfg) (Z.to_nat (v_eval m) - 1)) as [b Hb].
    replace (S (Z.to_nat (v_eval m) - 1)) with k in Hb by (subst k; lia).
    rewrite <- Htr in Hb. simpl in Hb. congruence.
  - split; [exact Hon|]. split; [exact He|]. rewrite Hstop, Hmax. reflexivity.
  - split; [exact Hon|]. split; [exact He|]. rewrite Hstop.
    apply Z.leb_le in Hpat. rewrite Hpat. apply orb_true_r.
  - exact Hz.
  - split; [exact Hon|]. split; [exact He|]. rewrite Hstop, Hmax.
    apply Z.leb_gt in Hpat. rewrite Hpat. reflexivity.
  - split; [exact Hon|]. split; [exact He|]. rewrite Hstop, Hmax.
    apply Z.leb_gt in Hpat. rewrite Hpat. reflexivity.
Qed.

(** What the machine of a run that has stopped satisfies. *)
Section Stopped.

Variable cfg : TrainConfig.
Variables J Final : Machine -> Prop.
Hypothesis J_step :
  forall i m, J m -> J (emit (Step i (param_groups m)) (bind_i i m)).
Hypothesis J_eval :
  forall m m' f, J m -> evaluated cfg m m' f ->
    match f with
    | Break => Final m'
    | Next => J m'
    | Raised _ => True
    end.

Lemma epoch_stopped n : forall i m,
  J m ->
  match epoch cfg n i m with
  | (m', Break) => Final m'
  | (m', Next) => J m'
  | (_, Raised _) => True
  end.
Proof.
  induction n as [|n IH]; intros i m HJ; [done|].
  cbn [epoch]. unfold batch.
  set (m1 := emit (Step i (param_groups m)) (bind_i i m)).
  assert (HJ1 : J m1) by (by apply J_step).
  destruct (py_mod _ i (eval_interval cfg)) as [r|e]; [|done].
  destruct (r =? 0).
  - destruct (evaluation cfg m1) as [m2 f] eqn:E.
    apply evaluation_evaluated in E.
    pose proof (J_eval m1 m2 f HJ1 E) as H2.
    destruct f as [| |e]; [by apply IH | done | done].
  - by apply IH.
Qed.

Lemma training_stopped fuel : forall s m m',
  J m -> training cfg fuel s m = (m', Finished) -> Final m'.
Proof.
  induction fuel as [|fuel IH]; intros s m m' HJ; [discriminate|].
  cbn [training].
  pose proof (epoch_stopped (train_data cfg) s m HJ) as He.
  destruct (epoch cfg (train_data cfg) s m) as [m1 [| |e]]; [| |discriminate].
  - destruct (v_i m1) as [i|]; [|discriminate].
    destruct (py_mod _ i (eval_interval cfg)) as [s'|e]; [|discriminate].
    by apply IH.
  - by intros [= <-].
Qed.

End Stopped.

Lemma first_stop_exists cfg n :
  (1 <= n)%nat -> stops_at cfg n = true ->
  exists n0, first_stop cfg n0 /\ (n0 <= n)%nat.
Proof.
  intros H1 Hstop.
  assert (H : forall b, (exists n0, first_stop cfg n0 /\ (n0 <= b)%nat)
                        \/ forall k, (1 <= k <= b)%nat -> stops_at cfg k = false).
  { induction b as [|b [(n0 & Hf & Hle)|Hnone]].
    - right. intros k Hk. lia.
    - left. exists n0. split; [done | lia].
    - destruct (stops_at cfg (S b)) eqn:Hb.
      + left. exists (S b). split; [|done]. split; [lia|]. split; [done|].
        intros k Hk. apply Hnone. lia.
      + right. intros k Hk. destruct (decide (k = S b)) as [->|Hne]; [done|].
        apply Hnone. lia. }
  destruct (H n) as [Hex|Hnone]; [exact Hex|].
  rewrite Hnone in Hstop by lia. discriminate.
Qed.

(** A run on which evaluations keep coming stops at the first evaluation
    at which a stop condition holds. *)
Lemma run_stops_at_first_stop cfg n :
  well_configured cfg -> first_stop cfg n ->
  exists fuel m, train_span cfg fuel = (m, Finished)
    /\ v_eval m = Z.of_nat n /\ v_counter m = counter_after (val_loss cfg) n.
Proof.
  intros Hcfg (H1 & Hstop & Hfirst).
  set (k := Z.to_nat (Z.of_nat n * (eval_interval cfg + 1) + eval_interval cfg)).
  destruct (training_terminates cfg (Z.of_nat n) (on_track cfg)
              (fun m => v_eval m = Z.of_nat n
                        /\ v_counter m = counter_after (val_loss cfg) n)
              Hcfg) with (k := k) (s := 1) (m := initial cfg) as (m & Hrun & Hfin).
  - intros i m Hm. exact Hm.
  - intros m m' f Hm HN Hev.
    pose proof (on_track_evaluated cfg m m' f Hm Hev) as Hout. cbv zeta in Hout.
    destruct Hm as [H0 _].
    destruct f as [| |e].
    + destruct Hout as (Hon & He & Hs). split; [exact Hon|].
      split; [lia|].
      destruct (decide (S (Z.to_nat (v_eval m)) = n)) as [E|E]; [congruence | lia].
    + destruct Hout as (Hon & He & Hs).
      destruct (decide (S (Z.to_nat (v_eval m)) = n)) as [E|E].
      * split; [congruence|]. destruct Hon as [_ Ht].
        rewrite He, Nat2Z.id, E in Ht. unfold counter_after. by rewrite <- Ht.
      * rewrite Hfirst in Hs by lia. discriminate.
    + destruct Hcfg as (_ & Hnz & _). contradiction.
  - split; [simpl; lia | reflexivity].
  - simpl. lia.
  - destruct Hcfg as (HE & _). lia.
  - destruct Hcfg as (HE & _). subst k. simpl. nia.
  - exists k, m. split; [exact Hrun | exact Hfin].
Qed.

(** A run that has stopped has stopped at the first evaluation at which a
    stop condition holds. *)
Lemma stopped_at_first_stop cfg fuel m :
  train_span cfg fuel = (m, Finished) ->
  first_stop cfg (Z.to_nat (v_eval m))
  /\ v_counter m = counter_after (val_loss cfg) (Z.to_nat (v_eval m)).
Proof.
  unfold train_span.
  apply (training_stopped cfg
           (fun m => on_track cfg m
                     /\ forall j, (1 <= j <= Z.to_nat (v_eval m))%nat ->
                                  stops_at cfg j = false)
           (fun m => first_stop cfg (Z.to_nat (v_eval m))
                     /\ v_counter m
                        = counter_after (val_loss cfg) (Z.to_nat (v_eval m)))).
  - intros i m0 Hm. exact Hm.
  - intros m0 m' f [Hon Hnone] Hev.
    pose proof (on_track_evaluated cfg m0 m' f Hon Hev) as Hout. cbv zeta in Hout.
    destruct f as [| |e]; [| |done].
    + destruct Hout as (Hon' & He & Hs). split; [exact Hon'|].
      intros j Hj. rewrite He, Nat2Z.id in Hj.
      destruct (decide (j = S (Z.to_nat (v_eval m0)))) as [->|Hne]; [done|].
      apply Hnone. lia.
    + destruct Hout as (Hon' & He & Hs). rewrite He, Nat2Z.id. split.
      * split; [lia|]. split; [done|]. intros j Hj. apply Hnone. lia.
      * destruct Hon' as [_ Ht]. rewrite He, Nat2Z.id in Ht.
        unfold counter_after. by rewrite <- Ht.
  - split; [split; [simpl; lia | reflexivity]|]. intros j Hj. simpl in Hj. lia.
Qed.

(** Losses that stop improving bring a run to its end, by [patience] at
    the latest. *)
Lemma settled_run_stops cfg N :
  well_configured cfg -> settled (val_loss cfg) N ->
  exists fuel m, train_span cfg fuel = (m, Finished)
    /\ 1 <= v_eval m <= Z.max 1 (Z.of_nat N + patience cfg).
Proof.
  intros Hcfg Hset.
  assert (Hn : exists n, (1 <= n)%nat /\ stops_at cfg n = true
                         /\ Z.of_nat n <= Z.max 1 (Z.of_nat N + patience cfg)).
  { destruct (decide (patience cfg <= 1)) as [Hp|Hp].
    - exists 1%nat. split; [lia|]. split; [|lia].
      unfold stops_at. apply orb_true_iff. right. apply Z.leb_le.
      unfold counter_after. simpl. lia.
    - exists (N + Z.to_nat (patience cfg))%nat. split; [lia|]. split; [|lia].
      unfold stops_at. apply orb_true_iff. right. apply Z.leb_le.
      pose proof (counter_settled _ N Hset (Z.to_nat (patience cfg))). lia. }
  destruct Hn as (n & H1 & Hstop & Hbound).
  destruct (first_stop_exists cfg n H1 Hstop) as (n0 & Hf & Hle).
  destruct (run_stops_at_first_stop cfg n0 Hcfg Hf) as (fuel & m & Hrun & He & _).
  exists fuel, m. split; [exact Hrun|]. destruct Hf as (H1' & _). lia.
Qed.

(** C5, as amended.  At each evaluation the stop conditions are checked in
    order: [max_evals] reached, else [patience] reached, else the decay
    check runs (halving [lr] and every parameter group when it is due) and
    training continues.  A run that stops has stopped at the first
    evaluation at which one of the two stop conditions holds, and on a
    configuration on which evaluations keep coming a run does stop there.
    So such a run terminates whenever [max_evals] is set, after at most
    [max 1 max_evals] evaluations, and after exactly that many when
    [max_evals <= patience]; and it terminates whenever its losses stop
    improving, by [patience] further evaluations at the latest, also
    without [max_evals].  A run on losses that never improve stops after
    exactly [stop_count] evaluations, the smaller of [max_evals] and
    [patience] (at least one). *)
Theorem stop_conditions_in_order (cfg : TrainConfig) :
  well_configured cfg ->
  (forall m m' f,
      v_eval m = 0 \/ is_Some (v_min_loss m) ->
      evaluation cfg m = (m', f) ->
      v_eval m' = v_eval m + 1
      /\ f = (if max_evals_reached cfg (v_eval m') then Break
              else if patience cfg <=? v_counter m' then Break
              else Next)
      /\ (f = Break -> v_lr m' = v_lr m /\ param_groups m' = param_groups m)
      /\ (f = Next ->
          if decay_due (v_counter m' mod patience_lr cfg) (v_counter m')
          then v_lr m' = (v_lr m / 2)%Q
               /\ param_groups m' = map (fun _ => (v_lr m / 2)%Q) (param_groups m)
          else v_lr m' = v_lr m /\ param_groups m' = param_groups m))
  /\ (forall mx, max_evals cfg = Some mx ->
      exists fuel m,
        train_single_span cfg fuel = (m, Finished)
        /\ train_two_span cfg fuel = (m, Finished)
        /\ 1 <= v_eval m <= Z.max 1 mx
        /\ (mx <= patience cfg -> v_eval m = Z.max 1 mx))
  /\ (never_improves (val_loss cfg) ->
      exists fuel m,
        train_single_span cfg fuel = (m, Finished)
        /\ train_two_span cfg fuel = (m, Finished)
        /\ v_eval m = stop_count cfg)
  /\ (forall n, first_stop cfg n ->
      exists fuel m,
        train_single_span cfg fuel = (m, Finished)
        /\ train_two_span cfg fuel = (m, Finished)
        /\ v_eval m = Z.of_nat n
        /\ v_counter m = counter_after (val_loss cfg) n)
  /\ (forall N, settled (val_loss cfg) N ->
      exists fuel m,
        train_single_span cfg fuel = (m, Finished)
        /\ train_two_span cfg fuel = (m, Finished)
        /\ 1 <= v_eval m <= Z.max 1 (Z.of_nat N + patience cfg))
  /\ (forall fuel m,
      train_single_span cfg fuel = (m, Finished)
      \/ train_two_span cfg fuel = (m, Finished) ->
      first_stop cfg (Z.to_nat (v_eval m))
      /\ v_counter m = counter_after (val_loss cfg) (Z.to_nat (v_eval m))).
Proof.
  intros Hcfg. split; [|split; [|split; [|split; [|split]]]].
  - intros m m' f Hb Hev. apply evaluation_order; try done. apply Hcfg.
  - intros mx Hmx.
    destruct (bounded_run_stops cfg mx Hcfg Hmx) as (fuel & m & Hrun & Hle & Hex).
    exists fuel, m. done.
  - intros Hnever.
    destruct (stalled_run_stops cfg Hcfg Hnever) as (fuel & m & Hrun & He & _).
    exists fuel, m. done.
  - intros n Hf.
    destruct (run_stops_at_first_stop cfg n Hcfg Hf) as (fuel & m & Hrun & He & Hc).
    exists fuel, m. done.
  - intros N Hset.
    destruct (settled_run_stops cfg N Hcfg Hset) as (fuel & m & Hrun & He).
    exists fuel, m. done.
  - intros fuel m Hrun. apply (stopped_at_first_stop cfg fuel).
    by destruct Hrun.
Qed.

Lemma impatient_well_configured : well_configured impatient.
Proof. unfold well_configured. simpl. repeat split; lia. Qed.

Lemma impatient_never_improves : never_improves (val_loss impatient).
Proof. intros k. simpl. apply Qle_refl. Qed.

Lemma patient_well_configured : well_configured patient.
Proof. unfold well_configured. simpl. repeat split; lia. Qed.

Lemma patient_first_stop : first_stop patient 5.
Proof.
  split; [lia|]. split; [vm_compute; reflexivity|].
  intros k Hk. destruct k as [|[|[|[|[|k]]]]]; try lia; vm_compute; reflexivity.
Qed.

Lemma stop_conditions_in_order_witness :
  exists fuel m, train_single_span patient fuel = (m, Finished) /\ v_eval m = 5.
Proof.
  destruct (stop_conditions_in_order patient patient_well_configured)
    as (_ & _ & _ & Hfirst & _).
  destruct (Hfirst 5%nat patient_first_stop) as (fuel & m & Hrun & _ & He & _).
  exists fuel, m. split; [exact Hrun | exact He].
Defined.

(** C5, counterexample to the claim as stated: with [max_evals=3],
    [patience=2] and a constant validation loss, training stops after two
    evaluations, not after three. *)
Lemma patience_stops_before_max_evals :
  max_evals impatient = Some 3
  /\ never_improves (val_loss impatient)
  /\ (exists m, train_single_span impatient 2 = (m, Finished) /\ v_eval m = 2)
  /\ ~ stops_at_max_evals impatient.
Proof.
  set (m2 := fst (train_span impatient 2)).
  assert (Hrun : train_span impatient 2 = (m2, Finished))
    by (vm_compute; reflexivity).
  assert (He : v_eval m2 = 2) by (vm_compute; reflexivity).
  clearbody m2.
  split; [reflexivity|]. split; [apply impatient_never_improves|]. split.
  - eexists. split; [exact Hrun | exact He].
  - intros Hclaim.
    destruct (Hclaim 3 eq_refl impatient_never_improves) as (fuel & m & Hm & Hem).
    unfold train_single_span, train_span in Hm, Hrun.
    apply (training_fuel_mono _ _ (Nat.max fuel 2)) in Hm; [|lia].
    apply (training_fuel_mono _ _ (Nat.max fuel 2)) in Hrun; [|lia].
    rewrite Hm in Hrun. injection Hrun as Heq. subst m2. lia.
Qed.

(** With one batch per epoch and an evaluation interval of two, the batch
    number the next epoch starts from never moves: no evaluation ever
    happens and the run never stops. *)
Lemma single_batch_epochs_never_evaluate (fuel : nat) :
  snd (train_span one_batch fuel) = OutOfFuel
  /\ v_eval (fst (train_span one_batch fuel)) = 0.
Proof.
  unfold train_span.
  assert (H : forall m, snd (training one_batch fuel 1 m) = OutOfFuel
                        /\ v_eval (fst (training one_batch fuel 1 m)) = v_eval m).
  { induction fuel as [|fuel IH]; intros m; [done|].
    cbn [training]. simpl. apply (IH (emit _ (bind_i 1 m))). }
  apply H.
Qed.

(** *** The first evaluation *)

Lemma first_counts_weaken cfg (l : list Event) (a b : Z) :
  a <= b ->
  Forall (fun e => match e with
                   | Step _ _ => True
                   | Evaluation n loss c _ =>
                       1 <= n <= a /\ (n = 1 -> c = 1 /\ loss = val_loss cfg 0%nat)
                   end) l ->
  Forall (fun e => match e with
                   | Step _ _ => True
                   | Evaluation n loss c _ =>
                       1 <= n <= b /\ (n = 1 -> c = 1 /\ loss = val_loss cfg 0%nat)
                   end) l.
Proof.
  intros Hab H. eapply Forall_impl; [exact H|].
  intros [|n loss c lrs]; [done|]. intros [? ?]. split; [lia | done].
Qed.

Lemma first_counts_evaluated cfg m m' f :
  first_counts cfg m -> evaluated cfg m m' f -> first_counts cfg m'.
Proof.
  intros (H0 & Hc0 & Hlog) Hev.
  assert (Hfin : forall loss ml m1,
             loss = val_loss cfg (Z.to_nat (v_eval m)) ->
             best_before loss m = Some ml ->
             m1 = improvement loss (v_eval m + 1) ml (v_counter m) m ->
             first_counts cfg m1 /\ first_counts cfg (finish_evaluation loss m1)
             /\ first_counts cfg (finish_evaluation loss (halve m1))).
  { intros loss ml m1 Hl Hbest ->.
    destruct (improvement_fields loss (v_eval m + 1) ml (v_counter m) m)
      as (_ & He & _ & _ & Hlg & Hcnt).
    set (m1 := improvement loss (v_eval m + 1) ml (v_counter m) m) in *.
    assert (Hfirst : v_eval m1 = 1 -> v_counter m1 = 1 /\ loss = val_loss cfg 0%nat).
    { intros E1. rewrite He in E1. assert (E0 : v_eval m = 0) by lia.
      unfold best_before in Hbest. rewrite E0 in Hbest, Hl. simpl in Hbest, Hl.
      injection Hbest as <-. split; [|done].
      destruct Hcnt as [(Hlt & _)|(_ & Hc & _)].
      - exfalso. by apply (Qlt_irrefl loss).
      - rewrite Hc, Hc0 by done. reflexivity. }
    assert (Hold : Forall (fun e => match e with
                      | Step _ _ => True
                      | Evaluation n loss c _ =>
                          1 <= n <= v_eval m1
                          /\ (n = 1 -> c = 1 /\ loss = val_loss cfg 0%nat)
                      end) (log m)).
    { apply (first_counts_weaken cfg _ (v_eval m)); [lia | done]. }
    unfold first_counts, finish_evaluation. simpl. rewrite Hlg.
    repeat split; try lia; try done;
      apply Forall_app; (split; [done|]);
      (constructor; [|constructor]); (split; [lia | done]). }
  destruct Hev as [ Hnone | loss ml m1 Hl Hbest Hm1 _ | loss ml m1 Hl Hbest Hm1 _ _
                  | loss ml m1 Hl Hbest Hm1 _ _ _
                  | loss ml m1 Hl Hbest Hm1 _ _ _ _ _
                  | loss ml m1 Hl Hbest Hm1 _ _ _ _ ];
    try (destruct (Hfin loss ml m1 Hl Hbest Hm1) as (F1 & F2 & F3)); try done.
Qed.


Lemma stalled_log_evaluated cfg m m' f :
  never_improves (val_loss cfg) ->
  stalled_log cfg m -> evaluated cfg m m' f -> stalled_log cfg m'.
Proof.
  intros Hnever (Hm & Hlog) Hev.
  assert (Hfin : forall loss ml m1,
             loss = val_loss cfg (Z.to_nat (v_eval m)) ->
             best_before loss m = Some ml ->
             m1 = improvement loss (v_eval m + 1) ml (v_counter m) m ->
             stalled_log cfg m1 /\ stalled_log cfg (finish_evaluation loss m1)
             /\ stalled_log cfg (finish_evaluation loss (halve m1))).
  { intros loss ml m1 Hl Hbest ->.
    destruct (stalled_improvement cfg m loss ml Hnever Hm Hl Hbest) as (He & Hc & Hml).
    destruct (improvement_fields loss (v_eval m + 1) ml (v_counter m) m)
      as (_ & _ & _ & _ & Hlg & _).
    destruct Hm as (H0 & _ & _).
    unfold stalled_log, stalled, finish_evaluation. simpl.
    rewrite He, Hc, Hml, Hlg.
    repeat split; try lia; try done;
      apply Forall_app; (split; [done|]); (constructor; [|constructor]); done. }
  destruct Hev as [ Hnone | loss ml m1 Hl Hbest Hm1 _ | loss ml m1 Hl Hbest Hm1 _ _
                  | loss ml m1 Hl Hbest Hm1 _ _ _
                  | loss ml m1 Hl Hbest Hm1 _ _ _ _ _
                  | loss ml m1 Hl Hbest Hm1 _ _ _ _ ];
    try (destruct (Hfin loss ml m1 Hl Hbest Hm1) as (F1 & F2 & F3)); try done.
Qed.

Lemma first_counts_run cfg fuel : first_counts cfg (fst (train_span cfg fuel)).
Proof.
  unfold train_span. apply (training_invariant cfg (first_counts cfg)).
  - intros i m (H0 & Hc0 & Hlog). unfold first_counts. simpl.
    repeat split; try done. apply Forall_app. split; [done|]. by constructor.
  - apply first_counts_evaluated.
  - unfold first_counts, initial. simpl. repeat split; done.
Qed.

Lemma stalled_log_run cfg fuel :
  never_improves (val_loss cfg) -> stalled_log cfg (fst (train_span cfg fuel)).
Proof.
  intros Hnever. unfold train_span.
  apply (training_invariant cfg (stalled_log cfg)).
  - intros i m (Hm & Hlog). unfold stalled_log. simpl.
    split; [exact Hm|]. apply Forall_app. split; [done|]. by constructor.
  - intros m m' f. by apply stalled_log_evaluated.
  - unfold stalled_log, stalled, initial. simpl. repeat split; try done; lia.
Qed.

(** C9. In every run of [train_single_span] and [train_two_span] the
    evaluation numbered 1 is logged with counter 1, whatever its loss: it
    never counts as an improvement.  When no validation loss is below the
    first, every evaluation is logged with a counter equal to its number,
    so the counter reaches [patience] at the evaluation numbered
    [patience]; and a run without [max_evals] then stops after exactly
    [patience] evaluations, the first one included. *)
Theorem first_evaluation_is_no_improvement (cfg : TrainConfig) (fuel : nat) :
  (forall train n loss c lrs,
      train = train_single_span \/ train = train_two_span ->
      Evaluation n loss c lrs ∈ log (fst (train cfg fuel)) ->
      1 <= n /\ (n = 1 -> c = 1 /\ loss = val_loss cfg 0%nat))
  /\ (never_improves (val_loss cfg) ->
      forall train n loss c lrs,
        train = train_single_span \/ train = train_two_span ->
        Evaluation n loss c lrs ∈ log (fst (train cfg fuel)) ->
        c = n /\ (patience cfg <= c <-> patience cfg <= n))
  /\ (never_improves (val_loss cfg) -> well_configured cfg ->
      max_evals cfg = None -> 1 <= patience cfg ->
      exists fuel' m,
        train_single_span cfg fuel' = (m, Finished)
        /\ train_two_span cfg fuel' = (m, Finished)
        /\ v_eval m = patience cfg /\ v_counter m = patience cfg).
Proof.
  split; [|split].
  - intros train n loss c lrs Htrain Hin.
    assert (Hin' : Evaluation n loss c lrs ∈ log (fst (train_span cfg fuel)))
      by (destruct Htrain; subst train; exact Hin).
    destruct (first_counts_run cfg fuel) as (_ & _ & Hlog).
    rewrite Forall_forall in Hlog. specialize (Hlog _ Hin'). simpl in Hlog.
    split; [lia | apply Hlog].
  - intros Hnever train n loss c lrs Htrain Hin.
    assert (Hin' : Evaluation n loss c lrs ∈ log (fst (train_span cfg fuel)))
      by (destruct Htrain; subst train; exact Hin).
    destruct (stalled_log_run cfg fuel Hnever) as (_ & Hlog).
    rewrite Forall_forall in Hlog. specialize (Hlog _ Hin'). simpl in Hlog.
    subst c. done.
  - intros Hnever Hcfg Hmax Hpat.
    destruct (stalled_run_stops cfg Hcfg Hnever) as (fuel' & m & Hrun & He & Hc).
    unfold stop_count in He, Hc. rewrite Hmax in He, Hc.
    exists fuel', m. repeat split; try done; lia.
Qed.

(** C7, on the code: with three batches per epoch and an evaluation every
    two batches, three batches are stepped between the first and the
    second evaluation; with two batches per epoch, one batch and then
    three; with the default interval of 100 and 250 batches per epoch, 101
    batches are stepped between the second and the third evaluation, which
    an epoch boundary separates. *)
Theorem evaluation_interval_drifts :
  (eval_interval three_batches = 2
   /\ exists m, train_single_span three_batches 2 = (m, Finished)
                /\ train_two_span three_batches 2 = (m, Finished)
                /\ gaps (log m) = [3%nat])
  /\ (eval_interval two_batches = 2
      /\ exists m, train_single_span two_batches 3 = (m, Finished)
                   /\ train_two_span two_batches 3 = (m, Finished)
                   /\ gaps (log m) = [1%nat; 3%nat])
  /\ (eval_interval default_interval = 100
      /\ exists m, train_single_span default_interval 2 = (m, Finished)
                   /\ gaps (log m) = [100%nat; 101%nat]).
Proof.
  split; [|split]; (split; [reflexivity|]).
  - exists (fst (train_span three_batches 2)).
    split; [|split]; vm_compute; reflexivity.
  - exists (fst (train_span two_batches 3)).
    split; [|split]; vm_compute; reflexivity.
  - exists (fst (train_span default_interval 2)).
    split; vm_compute; reflexivity.
Qed.

End TrainerTheory.

(** ** The span aligner *)

Module AlignerTheory.

Import Aligner.

Local Open Scope nat_scope.

Lemma span_mask_length L s e : length (span_mask L s e) = L.
Proof. unfold span_mask. by rewrite length_map, length_seq. Qed.

(** The mask is true exactly on [start <= p < end]. *)
Lemma span_mask_lookup L s e p :
  p < L -> span_mask L s e !! p = Some (bool_decide (s <= p < e)).
Proof.
  intros Hp. unfold span_mask. rewrite list_lookup_fmap, lookup_seq_lt by done.
  simpl. f_equal.
  destruct (Nat.leb_spec s p), (Nat.ltb_spec p e); simpl;
    symmetry; (apply bool_decide_eq_true_2 || apply bool_decide_eq_false_2); lia.
Qed.

Lemma pad_fits L tokens :
  length tokens <= L -> pad L tokens = Ok (tokens ++ replicate (L - length tokens) 0%Z).
Proof.
  intros Hle. unfold pad. rewrite Nat.min_l by done. rewrite Nat.eqb_refl.
  by rewrite drop_replicate.
Qed.


Lemma resolved_cases enc sp a b :
  word_to_tokens enc (fst sp) None = Ok a ->
  word_to_tokens enc (snd sp) None = Ok b ->
  resolved enc sp = match a, b with
                    | Some (start, _), Some (_, end_) => Some (start, end_)
                    | _, _ => None
                    end.
Proof.
  unfold resolved. intros -> ->.
  destruct a as [[? ?]|], b as [[? ?]|]; reflexivity.
Qed.

Lemma keep_spec labels l2i L i target s e out out' :
  keep labels l2i L i target s e out = Ok out' ->
  exists label,
    out' = {| updated_input_ids := updated_input_ids out ++ [target];
              span1_masks := span1_masks out ++ [span_mask L s e];
              span2_masks := span2_masks out;
              label_tensors := label_tensors out ++ [label] |}.
Proof.
  unfold keep. destruct (label_tensor _ _ _ _) as [label|]; [|discriminate].
  intros [= <-]. by exists label.
Qed.

(** What one pass through the loop body does when it does not raise: it
    drops the sample, leaving the four lists as they are, or it appends
    one entry to each list (to [span2_masks] only when there are second
    spans). *)
Lemma body_spec enc span1s span2s labels l2i L i tokens out out' :
  body enc span1s span2s labels l2i L i tokens out = Ok out' ->
  (kept enc span1s span2s i = false /\ out' = out)
  \/ (kept enc span1s span2s i = true
      /\ exists target sp1 s1 e1 label,
          pad L tokens = Ok target /\ span1s !! i = Some sp1
          /\ resolved enc sp1 = Some (s1, e1)
          /\ updated_input_ids out' = updated_input_ids out ++ [target]
          /\ span1_masks out' = span1_masks out ++ [span_mask L s1 e1]
          /\ label_tensors out' = label_tensors out ++ [label]
          /\ match span2s with
             | [] => span2_masks out' = span2_masks out
             | _ :: _ =>
                 exists sp2 s2 e2,
                   span2s !! i = Some sp2 /\ resolved enc sp2 = Some (s2, e2)
                   /\ span2_masks out' = span2_masks out ++ [span_mask L s2 e2]
             end).
Proof.
  unfold body, kept, list_get.
  destruct (pad L tokens) as [target|]; [|discriminate]. cbn [rbind].
  destruct span2s as [|sp2h span2t].
  - destruct (span1s !! i) as [sp1|]; [|discriminate]. cbn [rbind mbind option_bind].
    destruct (word_to_tokens enc (fst sp1) None) as [a|] eqn:Ha; [|discriminate].
    destruct (word_to_tokens enc (snd sp1) None) as [b|] eqn:Hb; [|discriminate].
    cbn [rbind]. rewrite (resolved_cases enc sp1 a b Ha Hb).
    destruct a as [[s1 ?]|], b as [[? e1]|];
      try (intros [= <-]; left; split; [reflexivity | reflexivity]).
    intros (label & ->)%keep_spec. right. split; [reflexivity|].
    exists target, sp1, s1, e1, label. simpl. repeat split; try done.
    apply (resolved_cases enc sp1 _ _ Ha Hb).
  - destruct (span1s !! i) as [sp1|]; [|discriminate]. cbn [rbind mbind option_bind].
    destruct (word_to_tokens enc (fst sp1) None) as [a|] eqn:Ha; [|discriminate].
    destruct (word_to_tokens enc (snd sp1) None) as [b|] eqn:Hb; [|discriminate].
    cbn [rbind].
    destruct ((sp2h :: span2t) !! i) as [sp2|]; [|discriminate].
    cbn [rbind mbind option_bind].
    destruct (word_to_tokens enc (fst sp2) None) as [c|] eqn:Hc; [|discriminate].
    destruct (word_to_tokens enc (snd sp2) None) as [d|] eqn:Hd; [|discriminate].
    cbn [rbind].
    rewrite (resolved_cases enc sp1 a b Ha Hb), (resolved_cases enc sp2 c d Hc Hd).
    destruct a as [[s1 ?]|], b as [[? e1]|], c as [[s2 ?]|], d as [[? e2]|];
      try (intros [= <-]; left; split; [reflexivity | reflexivity]).
    intros (label & ->)%keep_spec. right. split; [reflexivity|].
    exists target, sp1, s1, e1, label. simpl. repeat split; try done.
    + apply (resolved_cases enc sp1 _ _ Ha Hb).
    + exists sp2, s2, e2. repeat split; try done.
      apply (resolved_cases enc sp2 _ _ Hc Hd).
Qed.


Lemma kept_count_cons enc span1s span2s i n :
  kept_count enc span1s span2s i (S n) =
  (if kept enc span1s span2s i then 1 else 0) + kept_count enc span1s span2s (S i) n.
Proof.
  unfold kept_count. simpl. by destruct (kept enc span1s span2s i).
Qed.

Lemma kept_count_le enc span1s span2s n : forall i,
  kept_count enc span1s span2s i n <= n.
Proof.
  induction n as [|n IH]; intros i; [done|].
  rewrite kept_count_cons. specialize (IH (S i)).
  destruct (kept enc span1s span2s i); lia.
Qed.

(** The loop keeps the four lists in step and fills them only with padded
    rows of the batch and masks of resolved spans. *)
Lemma align_spec enc span1s span2s labels l2i L : forall rows i out out' c,
  Forall (fun tokens => tokens ∈ map ids enc) rows ->
  aligned_so_far enc span1s span2s L c out ->
  align enc span1s span2s labels l2i L i rows out = Ok out' ->
  aligned_so_far enc span1s span2s L
    (c + kept_count enc span1s span2s i (length rows)) out'.
Proof.
  induction rows as [|tokens rows IH]; intros i out out' c Hrows Hout Hrun.
  - simpl in Hrun. injection Hrun as <-.
    unfold kept_count. simpl. by rewrite Nat.add_0_r.
  - apply Forall_cons in Hrows as [Htok Hrows].
    cbn [align] in Hrun.
    destruct (body enc span1s span2s labels l2i L i tokens out) as [out1|] eqn:Hbody;
      [|discriminate].
    cbn [rbind] in Hrun. cbn [length]. rewrite kept_count_cons.
    apply body_spec in Hbody. destruct Hbody as [[Hk ->]|[Hk Hkept]]; rewrite Hk.
    + replace (c + (0 + kept_count enc span1s span2s (S i) (length rows)))
        with (c + kept_count enc span1s span2s (S i) (length rows)) by lia.
      by apply (IH (S i) out out' c).
    + replace (c + (1 + kept_count enc span1s span2s (S i) (length rows)))
        with (S c + kept_count enc span1s span2s (S i) (length rows)) by lia.
      apply (IH (S i) out1 out' (S c)); [done| |done].
      destruct Hkept as (target & sp1 & s1 & e1 & label & Hpad & H1 & Hr1
                         & Hids & Hm1 & Hlab & H2).
      destruct Hout as (Li & L1 & Ll & L2 & Fi & F1 & F2).
      unfold aligned_so_far. rewrite Hids, Hm1, Hlab, !length_app. simpl.
      assert (Hrow : padded_row enc L target) by (by exists tokens).
      assert (Hmask : mask_of enc span1s L (span_mask L s1 e1))
        by (by exists i, sp1, s1, e1).
      destruct span2s as [|sp2h span2t].
      * rewrite H2. repeat split; try lia; try done;
          apply Forall_app; split; try done; by constructor.
      * destruct H2 as (sp2 & s2 & e2 & H2 & Hr2 & ->). rewrite length_app. simpl.
        assert (Hmask2 : mask_of enc (sp2h :: span2t) L (span_mask L s2 e2))
          by (by exists i, sp2, s2, e2).
        repeat split; try lia; try done;
          apply Forall_app; split; try done; by constructor.
Qed.

(** The outputs of a call that returns. *)
Lemma tokenize_spec tokenizer texts span1s span2s labels l2i L out :
  tokenize_jiant_dataset tokenizer texts span1s span2s labels l2i L = Ok out ->
  let enc := tokenizer texts 128 in
  aligned_so_far enc span1s span2s L (kept_count enc span1s span2s 0 (length enc)) out.
Proof.
  intros Hrun enc. unfold tokenize_jiant_dataset in Hrun. fold enc in Hrun.
  apply (align_spec _ _ _ _ _ _ _ _ _ _ 0) in Hrun.
  - by rewrite length_map in Hrun.
  - by apply Forall_forall.
  - unfold aligned_so_far. simpl. destruct span2s; repeat split; constructor.
Qed.


(** *** Dropped samples *)

Lemma lookup_total enc w w' :
  word_to_tokens enc w None = Ok None ->
  exists a, word_to_tokens enc w' None = Ok a.
Proof.
  intros H. unfold word_to_tokens, list_get in *.
  destruct (enc !! 0) as [e|]; simpl in *; [eexists; reflexivity | discriminate].
Qed.

Lemma resolved_none_l enc w0 w1 :
  word_to_tokens enc w0 None = Ok None -> resolved enc (w0, w1) = None.
Proof. unfold resolved. simpl. by intros ->. Qed.

Lemma resolved_none_r enc w0 w1 :
  word_to_tokens enc w1 None = Ok None -> resolved enc (w0, w1) = None.
Proof.
  unfold resolved. simpl. intros ->.
  by destruct (word_to_tokens enc w0 None) as [[[? ?]|]|].
Qed.

(** A sample one of whose spans is unresolved is skipped without error. *)
Lemma body_skips enc span1s span2s labels l2i L i tokens out target sp1 :
  pad L tokens = Ok target ->
  span1s !! i = Some sp1 ->
  (exists w, word_to_tokens enc w None = Ok None) ->
  match span2s with
  | [] => resolved enc sp1 = None
  | _ :: _ => exists sp2, span2s !! i = Some sp2
                          /\ (resolved enc sp1 = None \/ resolved enc sp2 = None)
  end ->
  kept enc span1s span2s i = false
  /\ body enc span1s span2s labels l2i L i tokens out = Ok out.
Proof.
  intros Hpad H1 [w Hw] Hnone.
  unfold body, kept, list_get. rewrite Hpad, H1. cbn [rbind mbind option_bind].
  destruct (lookup_total enc w (fst sp1) Hw) as [a Ha].
  destruct (lookup_total enc w (snd sp1) Hw) as [b Hb].
  rewrite Ha, Hb. cbn [rbind].
  pose proof (resolved_cases enc sp1 a b Ha Hb) as Hr1.
  destruct span2s as [|sp2h span2t].
  - rewrite Hnone in *.
    split; [reflexivity|].
    destruct a as [[? ?]|], b as [[? ?]|]; try reflexivity. discriminate.
  - destruct Hnone as (sp2 & H2 & Hnone). rewrite H2. cbn [rbind mbind option_bind].
    destruct (lookup_total enc w (fst sp2) Hw) as [c Hc].
    destruct (lookup_total enc w (snd sp2) Hw) as [d Hd].
    rewrite Hc, Hd. cbn [rbind].
    pose proof (resolved_cases enc sp2 c d Hc Hd) as Hr2.
    split.
    + destruct Hnone as [E|E]; rewrite E; [reflexivity|].
      by destruct (resolved enc sp1).
    + destruct a as [[? ?]|], b as [[? ?]|], c as [[? ?]|], d as [[? ?]|];
        try reflexivity.
      destruct Hnone; congruence.
Qed.

(** C6. A sample for which a required word-to-token lookup returns [None]
    (one of two for a single-span sample, one of four for a two-span
    sample) is skipped by the loop body: no error, and the four output
    lists are left exactly as they were, so the loop goes on as if the
    sample were not there.  A call that returns has as many
    entries in each list as there are samples with all their boundaries
    (none in [span2_masks] without second spans), which is at most the
    number of input texts. *)
Theorem unresolved_samples_are_dropped
    (tokenizer : Tokenizer) (texts : list string) (span1s span2s : list (nat * nat))
    (labels : list string) (labels_to_ids : gmap string Z) (max_seq_length : nat) :
  length (tokenizer texts 128) = length texts ->
  let enc := tokenizer texts 128 in
  (forall i tokens out target w0 w1,
      pad max_seq_length tokens = Ok target ->
      span1s !! i = Some (w0, w1) ->
      match span2s with
      | [] => word_to_tokens enc w0 None = Ok None
              \/ word_to_tokens enc w1 None = Ok None
      | _ :: _ => exists w2 w3,
          span2s !! i = Some (w2, w3)
          /\ (word_to_tokens enc w0 None = Ok None
              \/ word_to_tokens enc w1 None = Ok None
              \/ word_to_tokens enc w2 None = Ok None
              \/ word_to_tokens enc w3 None = Ok None)
      end ->
      kept enc span1s span2s i = false
      /\ body enc span1s span2s labels labels_to_ids max_seq_length i tokens out
         = Ok out
      /\ forall rows,
           align enc span1s span2s labels labels_to_ids max_seq_length
                 i (tokens :: rows) out
           = align enc span1s span2s labels labels_to_ids max_seq_length
                   (S i) rows out)
  /\ (forall out,
      tokenize_jiant_dataset tokenizer texts span1s span2s labels labels_to_ids
                             max_seq_length = Ok out ->
      let n := kept_count enc span1s span2s 0 (length texts) in
      length (updated_input_ids out) = n
      /\ length (span1_masks out) = n
      /\ length (label_tensors out) = n
      /\ length (span2_masks out) = match span2s with [] => 0 | _ :: _ => n end
      /\ n <= length texts).
Proof.
  intros Hlen enc. split.
  - intros i tokens out target w0 w1 Hpad H1 Hnone.
    assert (Hskip : kept enc span1s span2s i = false
                    /\ body enc span1s span2s labels labels_to_ids max_seq_length
                            i tokens out = Ok out);
      [|destruct Hskip as [Hk Hb]; split; [exact Hk|]; split; [exact Hb|];
        intros rows; cbn [align]; by rewrite Hb].
    apply (body_skips enc span1s span2s labels labels_to_ids max_seq_length
             i tokens out target (w0, w1) Hpad H1).
    + destruct span2s as [|sp2h span2t].
      * destruct Hnone as [E|E]; eauto.
      * destruct Hnone as (w2 & w3 & _ & [E|[E|[E|E]]]); eauto.
    + destruct span2s as [|sp2h span2t].
      * destruct Hnone as [E|E];
          [by apply resolved_none_l | by apply resolved_none_r].
      * destruct Hnone as (w2 & w3 & H2 & Hnone). exists (w2, w3).
        split; [done|].
        destruct Hnone as [E|[E|[E|E]]];
          [left; by apply resolved_none_l | left; by apply resolved_none_r
          | right; by apply resolved_none_l | right; by apply resolved_none_r].
  - intros out Hrun n. apply tokenize_spec in Hrun. cbv zeta in Hrun.
    rewrite Hlen in Hrun. subst n enc.
    destruct Hrun as (Li & L1 & Ll & L2 & _).
    repeat split; try done. apply kept_count_le.
Qed.


Lemma unresolved_samples_are_dropped_witness :
  exists out,
    tokenize_jiant_dataset char_tokenizer two_texts [(0, 1); (2, 3)] []
                           ["A"; "B"]%string two_labels 128 = Ok out
    /\ length (updated_input_ids out) = 1.
Proof.
  assert (Hlen : length (char_tokenizer two_texts 128) = length two_texts)
    by reflexivity.
  destruct (unresolved_samples_are_dropped char_tokenizer two_texts
              [(0, 1); (2, 3)] [] ["A"; "B"]%string two_labels 128 Hlen)
    as [_ Hcall].
  set (out := match tokenize_jiant_dataset char_tokenizer two_texts [(0, 1); (2, 3)]
                      [] ["A"; "B"]%string two_labels 128 with
              | Ok o => o
              | Raise _ => no_samples
              end).
  assert (Hrun : tokenize_jiant_dataset char_tokenizer two_texts [(0, 1); (2, 3)]
                   [] ["A"; "B"]%string two_labels 128 = Ok out)
    by (vm_compute; reflexivity).
  exists out. split; [exact Hrun|].
  destruct (Hcall out Hrun) as (Hn & _). rewrite Hn. vm_compute. reflexivity.
Defined.

(** *** The window of 128 tokens *)

Lemma padded_to_spec L enc e :
  padded_to L enc = true -> e ∈ enc ->
  length (ids e) = L
  /\ forall sp, sp ∈ word_spans e -> fst sp <= snd sp /\ snd sp <= L.
Proof.
  unfold padded_to. rewrite forallb_forall. intros Hall He.
  apply list_elem_of_In in He. specialize (Hall e He).
  unfold within in Hall. apply andb_prop in Hall as [Hl Hs].
  split; [by apply Nat.eqb_eq|].
  intros sp Hsp. apply list_elem_of_In in Hsp.
  rewrite forallb_forall in Hs. specialize (Hs sp Hsp).
  apply andb_prop in Hs as [H1 H2].
  split; by apply Nat.leb_le.
Qed.

Lemma resolved_end_bound L enc sp s e :
  padded_to L enc = true -> resolved enc sp = Some (s, e) -> e <= L.
Proof.
  intros Hpad. unfold resolved, word_to_tokens, list_get.
  destruct (enc !! 0) as [e0|] eqn:E0; [|discriminate]. simpl.
  destruct (word_spans e0 !! fst sp) as [[? ?]|]; [|discriminate].
  destruct (word_spans e0 !! snd sp) as [[? e']|] eqn:E1; [|discriminate].
  intros [= <- <-].
  apply list_elem_of_lookup_2 in E0, E1.
  destruct (padded_to_spec L enc e0 Hpad E0) as [_ Hs].
  apply (Hs _ E1).
Qed.

Lemma pad_too_short L tokens :
  L < 128 -> length tokens = 128 -> pad L tokens = Raise size_mismatch.
Proof.
  intros HL Hlen. unfold pad. rewrite Hlen, Nat.min_r by lia.
  destruct (Nat.eqb_spec 128 L) as [?|_]; [lia|].
  destruct tokens as [|t [|t' tokens]]; try reflexivity. simpl in Hlen. lia.
Qed.

(** C10. The tokenizer is always called with [max_length=128], whatever
    [max_seq_length] is.  With [max_seq_length > 128] every returned row
    of input ids and every mask has [max_seq_length] cells and is zero,
    respectively false, from cell 128 on.  With [max_seq_length < 128] the
    slice assignment fails on every row of the batch, so the call raises
    as soon as there is one text. *)
Theorem window_is_fixed_at_128
    (tokenizer : Tokenizer) (texts : list string) (span1s span2s : list (nat * nat))
    (labels : list string) (labels_to_ids : gmap string Z) (max_seq_length : nat) :
  padded_to 128 (tokenizer texts 128) = true ->
  tokenize_jiant_dataset tokenizer texts span1s span2s labels labels_to_ids
                         max_seq_length
  = align (tokenizer texts 128) span1s span2s labels labels_to_ids max_seq_length
          0 (map ids (tokenizer texts 128)) no_samples
  /\ (128 < max_seq_length ->
      forall out,
        tokenize_jiant_dataset tokenizer texts span1s span2s labels labels_to_ids
                               max_seq_length = Ok out ->
        (forall row, row ∈ updated_input_ids out ->
           length row = max_seq_length
           /\ forall p, 128 <= p < max_seq_length -> row !! p = Some 0%Z)
        /\ (forall mask, mask ∈ span1_masks out \/ mask ∈ span2_masks out ->
              length mask = max_seq_length
              /\ forall p, 128 <= p < max_seq_length -> mask !! p = Some false))
  /\ (max_seq_length < 128 ->
      (forall tokens, tokens ∈ map ids (tokenizer texts 128) ->
         pad max_seq_length tokens = Raise size_mismatch)
      /\ (tokenizer texts 128 <> [] ->
          tokenize_jiant_dataset tokenizer texts span1s span2s labels labels_to_ids
                                 max_seq_length = Raise size_mismatch)).
Proof.
  intros Hpad. split; [reflexivity|]. split.
  - intros HL out Hrun. apply tokenize_spec in Hrun. cbv zeta in Hrun.
    destruct Hrun as (_ & _ & _ & _ & Fi & F1 & F2).
    rewrite Forall_forall in Fi. rewrite Forall_forall in F1.
    rewrite Forall_forall in F2.
    assert (Hmask : forall spans mask,
               mask_of (tokenizer texts 128) spans max_seq_length mask ->
               length mask = max_seq_length
               /\ forall p, 128 <= p < max_seq_length -> mask !! p = Some false).
    { intros spans mask (i & sp & s & e & _ & Hres & ->).
      split; [apply span_mask_length|]. intros p Hp.
      rewrite span_mask_lookup by lia. f_equal.
      apply bool_decide_eq_false_2.
      pose proof (resolved_end_bound 128 _ _ _ _ Hpad Hres). lia. }
    split.
    + intros row Hrow. destruct (Fi row Hrow) as (tokens & Htok & Hp).
      apply list_elem_of_fmap in Htok as (e & -> & He).
      destruct (padded_to_spec 128 _ e Hpad He) as [Hlen _].
      rewrite pad_fits in Hp by lia. injection Hp as <-.
      split.
      * rewrite length_app, length_replicate. lia.
      * intros p Hp. rewrite lookup_app_r by lia.
        apply lookup_replicate_2. lia.
    + intros mask [Hm|Hm]; [apply (Hmask span1s), F1, Hm | apply (Hmask span2s), F2, Hm].
  - intros HL.
    assert (Hrows : forall tokens, tokens ∈ map ids (tokenizer texts 128) ->
                      pad max_seq_length tokens = Raise size_mismatch).
    { intros tokens Htok. apply list_elem_of_fmap in Htok as (e & -> & He).
      destruct (padded_to_spec 128 _ e Hpad He) as [Hlen _].
      by apply pad_too_short. }
    split; [exact Hrows|].
    intros Hne. unfold tokenize_jiant_dataset.
    destruct (tokenizer texts 128) as [|e enc] eqn:E; [done|].
    cbn [map align]. unfold body at 1.
    rewrite (Hrows (ids e)) by (simpl; apply list_elem_of_here).
    reflexivity.
Qed.

Lemma window_is_fixed_at_128_witness :
  tokenize_jiant_dataset char_tokenizer two_texts [(0, 1); (0, 1)] []
                         ["A"; "B"]%string two_labels 100 = Raise size_mismatch.
Proof.
  assert (Hpad : padded_to 128 (char_tokenizer two_texts 128) = true)
    by (vm_compute; reflexivity).
  destruct (window_is_fixed_at_128 char_tokenizer two_texts [(0, 1); (0, 1)] []
              ["A"; "B"]%string two_labels 100 Hpad) as (_ & _ & Hshort).
  assert (H100 : 100 < 128) by lia.
  destruct (Hshort H100) as [_ Hraise].
  apply Hraise. discriminate.
Defined.

(** *** Which sequence the spans are resolved in *)

(** C2, on the code: the one-argument lookup the loop body makes is the
    lookup in the first sequence of the batch, whatever the sample; every
    returned span1 mask has the fixed length and is true exactly on
    [token_start <= p < token_end] for boundaries resolved there.  For
    the second of two texts whose first words have one and two tokens, the
    returned span1 mask covers tokens 1 and 2, the boundaries of the words
    of the first text, where the sample's own tokenization gives tokens 1
    to 3. *)
Theorem spans_resolved_in_first_sequence :
  (forall enc w, word_to_tokens enc w None = own_lookup enc 0 w)
  /\ (forall (tokenizer : Tokenizer) texts span1s span2s labels labels_to_ids
             max_seq_length out mask,
        tokenize_jiant_dataset tokenizer texts span1s span2s labels labels_to_ids
                               max_seq_length = Ok out ->
        mask ∈ span1_masks out ->
        exists i sp token_start token_end,
          span1s !! i = Some sp
          /\ own_resolved (tokenizer texts 128) 0 sp = Some (token_start, token_end)
          /\ length mask = max_seq_length
          /\ forall p, p < max_seq_length ->
                mask !! p = Some (bool_decide (token_start <= p < token_end)))
  /\ exists out mask0 mask1,
      tokenize_jiant_dataset char_tokenizer two_texts [(0, 1); (0, 1)] []
                             ["A"; "B"]%string two_labels 128 = Ok out
      /\ span1_masks out = [mask0; mask1]
      /\ resolved (char_tokenizer two_texts 128) (0, 1) = Some (1, 3)
      /\ own_resolved (char_tokenizer two_texts 128) 1 (0, 1) = Some (1, 4)
      /\ mask1 = span_mask 128 1 3
      /\ mask1 !! 3 = Some false
      /\ span_mask 128 1 4 !! 3 = Some true.
Proof.
  split; [reflexivity|]. split.
  - intros tokenizer texts span1s span2s labels labels_to_ids max_seq_length
           out mask Hrun Hmask.
    apply tokenize_spec in Hrun. cbv zeta in Hrun.
    destruct Hrun as (_ & _ & _ & _ & _ & F1 & _).
    rewrite Forall_forall in F1.
    destruct (F1 mask Hmask) as (i & sp & s & e & Hsp & Hres & ->).
    exists i, sp, s, e. split; [exact Hsp|]. split; [exact Hres|].
    split; [apply span_mask_length|]. intros p Hp. by apply span_mask_lookup.
  - set (run := tokenize_jiant_dataset char_tokenizer two_texts [(0, 1); (0, 1)] []
                  ["A"; "B"]%string two_labels 128).
    set (out := match run with Ok o => o | Raise _ => no_samples end).
    exists out, (span_mask 128 1 3), (span_mask 128 1 3).
    split; [vm_compute; reflexivity|].
    split; [vm_compute; reflexivity|].
    split; [vm_compute; reflexivity|].
    split; [vm_compute; reflexivity|].
    split; [reflexivity|].
    split; vm_compute; reflexivity.
Qed.

End AlignerTheory.

(** ** The layer sweep *)

Module SweepTheory.

Import Sweep.

Lemma py_str_inj (a b : Z) : py_str a = py_str b -> a = b.
Proof.
  unfold py_str. intros H.
  assert (Hp : forall z, NilZero.int_of_string (NilZero.string_of_int (Z.to_int z))
                         = Some (Z.to_int z)).
  { intros z. apply NilZero.isi; destruct z; simpl; try discriminate;
      intros [= E]; by apply DecimalPos.Unsigned.to_uint_nonnil in E. }
  apply DecimalZ.to_int_inj.
  pose proof (Hp a) as Ha. rewrite H, Hp in Ha. by injection Ha.
Qed.

#[local] Instance py_str_Inj : Inj (=) (=) py_str.
Proof. intros a b. apply py_str_inj. Qed.

(** The keys of the written object are the decimal strings of the layers
    of the table, with the same entries. *)
Lemma json_dump_lookup (results : gmap Z Scores) (k : Z) :
  json_dump results !! py_str k = results !! k.
Proof. unfold json_dump. apply lookup_kmap. apply _. Qed.

Lemma json_dump_keys (results : gmap Z Scores) (key : string) :
  is_Some (json_dump results !! key)
  <-> exists k, key = py_str k /\ is_Some (results !! k).
Proof. unfold json_dump. apply lookup_kmap_is_Some. apply _. Qed.


Lemma extend_cons cfg results layer layers s :
  train_and_test cfg layer = Ok s ->
  extend cfg results (layer :: layers) =
  extend cfg (<[layer := {| loss := s.1.1; accuracy := s.1.2; f1_score := s.2 |}]> results)
         layers.
Proof. unfold extend. simpl. intros ->. by destruct s as [[l a] f1]. Qed.

Lemma extend_app cfg results l1 l2 :
  extend cfg results (l1 ++ l2) = extend cfg (extend cfg results l1) l2.
Proof. unfold extend. apply foldl_app. Qed.

(** The sweep over a prefix of layers that all complete: what remains is
    the sweep over the rest, from the table and the files of the prefix. *)
Lemma sweep_app cfg rest : forall done results fs,
  valid_task cfg = true -> known_model (model_name cfg) = true ->
  all_complete cfg done ->
  sweep cfg (done ++ rest) results fs =
  sweep cfg rest (extend cfg results done) (persisted cfg results done fs).
Proof.
  intros done. induction done as [|layer done IH]; intros results fs Hv Hk Hall.
  - unfold persisted. by destruct (results_path cfg).
  - assert (Hlayer : exists s, train_and_test cfg layer = Ok s)
      by (apply Hall, list_elem_of_here).
    destruct Hlayer as [s Hs].
    assert (Hdone : all_complete cfg done)
      by (intros l Hl; apply Hall; by apply list_elem_of_further).
    cbn [app sweep]. unfold valid_task in Hv. rewrite Hv, Hk, Hs.
    destruct s as [[l a] f1].
    rewrite IH by done.
    rewrite (extend_cons cfg results layer done (l, a, f1) Hs). simpl.
    f_equal. unfold persisted.
    destruct (results_path cfg) as [dir|]; [|by destruct done].
    destruct done as [|layer' done']; [unfold extend; simpl; by rewrite Hs|].
    unfold write_json.
    rewrite (extend_cons cfg results layer (layer' :: done') (l, a, f1) Hs). simpl.
    apply insert_insert_eq.
Qed.

Lemma table_lookup cfg layers : forall results layer,
  all_complete cfg layers ->
  extend cfg results layers !! layer =
  if decide (layer ∈ layers)
  then match train_and_test cfg layer with
       | Ok (l, a, f1) => Some {| loss := l; accuracy := a; f1_score := f1 |}
       | Raise _ => None
       end
  else results !! layer.
Proof.
  induction layers as [|x layers IH]; intros results layer Hall.
  - rewrite decide_False; [done | apply not_elem_of_nil].
  - assert (Hx : exists s, train_and_test cfg x = Ok s)
      by (apply Hall, list_elem_of_here).
    destruct Hx as [s Hs]. rewrite (extend_cons _ _ _ _ s Hs).
    rewrite IH by (intros l Hl; apply Hall; by apply list_elem_of_further).
    destruct (decide (layer ∈ layers)) as [Hin|Hout].
    + rewrite decide_True by (by apply list_elem_of_further). done.
    + destruct (decide (layer = x)) as [->|Hne].
      * rewrite decide_True by apply list_elem_of_here.
        rewrite lookup_insert_eq, Hs. by destruct s as [[l a] f1].
      * rewrite lookup_insert_ne by done. rewrite decide_False; [done|].
        intros [?|?]%elem_of_cons; contradiction.
Qed.

(** C8. With a results path, a valid task type and a known model family:
    a sweep whose layers all complete returns the table of the layers and
    leaves in the results file exactly the object of that table; a sweep
    that is aborted by an exception at some layer leaves in the file
    exactly the object of the table of the layers completed before it (and
    the files untouched if there is none).  The file is replaced as a
    whole: what it held before plays no role.  The object has one entry
    per completed layer, under the decimal string of the layer; for the
    layers 1, 2 and 3 its keys are exactly "1", "2" and "3". *)
Theorem results_file_rewritten_per_layer (cfg : ProbeConfig) (fs : Files) (dir : string) :
  results_path cfg = Some dir ->
  valid_task cfg = true ->
  known_model (model_name cfg) = true ->
  (all_complete cfg (num_layers cfg) ->
     snd (probing cfg fs) = Ok (Some (table cfg (num_layers cfg)))
     /\ (num_layers cfg <> [] ->
         fst (probing cfg fs) =
         <[results_file dir := json_dump (table cfg (num_layers cfg))]> fs))
  /\ (forall done bad rest e,
        num_layers cfg = done ++ bad :: rest ->
        all_complete cfg done ->
        train_and_test cfg bad = Raise e ->
        snd (probing cfg fs) = Raise e
        /\ (done = [] -> fst (probing cfg fs) = fs)
        /\ (done <> [] ->
            fst (probing cfg fs) =
            <[results_file dir := json_dump (table cfg done)]> fs))
  /\ (forall layers,
        all_complete cfg layers ->
        (forall key, is_Some (json_dump (table cfg layers) !! key)
                     <-> exists layer, layer ∈ layers /\ key = py_str layer)
        /\ (forall layer l a f1,
              layer ∈ layers -> train_and_test cfg layer = Ok (l, a, f1) ->
              json_dump (table cfg layers) !! py_str layer
              = Some {| loss := l; accuracy := a; f1_score := f1 |}))
  /\ (num_layers cfg = [1; 2; 3] -> all_complete cfg [1; 2; 3] ->
      exists json,
        fst (probing cfg fs) !! results_file dir = Some json
        /\ forall key, is_Some (json !! key)
                       <-> key = "1"%string \/ key = "2"%string \/ key = "3"%string).
Proof.
  intros Hdir Hv Hk.
  assert (Hkeys : forall layers,
        all_complete cfg layers ->
        (forall key, is_Some (json_dump (table cfg layers) !! key)
                     <-> exists layer, layer ∈ layers /\ key = py_str layer)
        /\ (forall layer l a f1,
              layer ∈ layers -> train_and_test cfg layer = Ok (l, a, f1) ->
              json_dump (table cfg layers) !! py_str layer
              = Some {| loss := l; accuracy := a; f1_score := f1 |})).
  { intros layers Hall. split.
    - intros key. rewrite json_dump_keys. unfold table. split.
      + intros (k & -> & Hsome). exists k. split; [|done].
        rewrite table_lookup in Hsome by done.
        destruct (decide (k ∈ layers)); [done|].
        rewrite lookup_empty in Hsome. by destruct Hsome.
      + intros (layer & Hin & ->). exists layer. split; [done|].
        rewrite table_lookup by done. rewrite decide_True by done.
        destruct (Hall layer Hin) as [[[l a] f1] ->]. eauto.
    - intros layer l a f1 Hin Hs. rewrite json_dump_lookup. unfold table.
      rewrite table_lookup by done. rewrite decide_True by done. by rewrite Hs. }
  assert (Hfull : all_complete cfg (num_layers cfg) ->
     snd (probing cfg fs) = Ok (Some (table cfg (num_layers cfg)))
     /\ (num_layers cfg <> [] ->
         fst (probing cfg fs) =
         <[results_file dir := json_dump (table cfg (num_layers cfg))]> fs)).
  { intros Hall.
    assert (Hrun : probing cfg fs =
                   sweep cfg [] (extend cfg ∅ (num_layers cfg))
                         (persisted cfg ∅ (num_layers cfg) fs)).
    { unfold probing.
      rewrite <- (sweep_app cfg [] (num_layers cfg) ∅ fs Hv Hk Hall).
      by rewrite app_nil_r. }
    rewrite Hrun. simpl. split; [reflexivity|].
    intros Hne. unfold persisted. rewrite Hdir.
    by destruct (num_layers cfg). }
  split; [exact Hfull|]. split; [|split; [exact Hkeys|]].
  - intros done bad rest e Hlayers Hall Hbad. unfold probing. rewrite Hlayers.
    rewrite (sweep_app cfg (bad :: rest) done ∅ fs Hv Hk Hall).
    cbn [sweep]. unfold valid_task in Hv. rewrite Hv, Hk, Hbad. simpl.
    split; [reflexivity|]. unfold persisted. rewrite Hdir. split.
    + by intros ->.
    + intros Hne. by destruct done.
  - intros Hlayers Hall. rewrite <- Hlayers in Hall.
    destruct (Hfull Hall) as [_ Hfs].
    rewrite Hfs by (rewrite Hlayers; discriminate).
    exists (json_dump (table cfg (num_layers cfg))).
    split; [apply lookup_insert_eq|].
    intros key. rewrite (proj1 (Hkeys _ Hall)), Hlayers. split.
    + intros (layer & Hin & ->).
      repeat (apply elem_of_cons in Hin as [->|Hin]; [by auto|]).
      by apply elem_of_nil in Hin.
    + intros [-> | [-> | ->]]; [exists 1 | exists 2 | exists 3];
        (split; [|reflexivity]); repeat constructor.
Qed.

Lemma three_layers_complete : all_complete three_layers (num_layers three_layers).
Proof. intros layer _. simpl. by eexists. Qed.

Lemma results_file_rewritten_per_layer_witness :
  exists json,
    fst (probing three_layers ∅) !! "out/results.json"%string = Some json
    /\ is_Some (json !! "3"%string) /\ json !! "4"%string = None.
Proof.
  destruct (results_file_rewritten_per_layer three_layers ∅ "out"%string
              eq_refl eq_refl eq_refl) as (_ & _ & _ & Hscenario).
  destruct (Hscenario eq_refl three_layers_complete) as (json & Hfile & Hkeys).
  exists json. split; [exact Hfile|]. split.
  - apply Hkeys. auto.
  - destruct (json !! "4"%string) eqn:E; [|reflexivity].
    assert (Hs : is_Some (json !! "4"%string)) by (rewrite E; eauto).
    apply Hkeys in Hs. destruct Hs as [?|[?|?]]; discriminate.
Defined.

End SweepTheory.

(** ** More on the evaluators and testers *)

Module EvaluatorTheory.

Import Metrics Evaluator MetricsTheory.

Lemma Qsum_bounds (lo hi : Q) (l : list Q) :
  Forall (fun x => lo <= x /\ x <= hi)%Q l ->
  (inject_Z (Z.of_nat (length l)) * lo <= Qsum l)%Q
  /\ (Qsum l <= inject_Z (Z.of_nat (length l)) * hi)%Q.
Proof.
  induction 1 as [|x l [Hlo Hhi] _ [IHlo IHhi]].
  - split; vm_compute; discriminate.
  - rewrite Qsum_cons. cbn [length]. rewrite Nat2Z.inj_succ.
    unfold Z.succ. rewrite inject_Z_plus.
    change (inject_Z 1) with 1%Q. split; lra.
Qed.

Lemma length_pos_Q {A} (l : list A) :
  l <> [] -> (0 < inject_Z (Z.of_nat (length l)))%Q.
Proof.
  intros Hl. change 0%Q with (inject_Z 0). rewrite <- Zlt_Qlt.
  destruct l; [done | simpl; lia].
Qed.

(** X1. The evaluators raise [ZeroDivisionError] on an empty loader and
    on no other; on a non-empty one they return the sum of the batch
    losses over the number of batches, a value between any two bounds of
    the batch losses. *)
Theorem eval_is_bounded_mean (val_data : list Q) (lo hi : Q) :
  Forall (fun x => lo <= x /\ x <= hi)%Q val_data ->
  (val_data = [] ->
     eval_single_span val_data = Raise (ZeroDivisionError "sum(...) / len(loop)")
     /\ eval_two_span val_data = Raise (ZeroDivisionError "sum(...) / len(loop)"))
  /\ (val_data <> [] ->
      exists loss,
        eval_single_span val_data = Ok loss /\ eval_two_span val_data = Ok loss
        /\ loss = (Qsum val_data / inject_Z (Z.of_nat (length val_data)))%Q
        /\ (lo <= loss)%Q /\ (loss <= hi)%Q).
Proof.
  intros Hb. unfold eval_single_span, eval_two_span, eval_span. split.
  - intros ->. split; reflexivity.
  - intros Hne. pose proof (length_pos_Q val_data Hne) as Hn.
    rewrite py_div_nonzero by (intros E; rewrite E in Hn; discriminate).
    destruct (Qsum_bounds lo hi val_data Hb) as [Hlo Hhi].
    eexists. repeat split.
    + apply Qle_shift_div_l; [done|]. by rewrite Qmult_comm.
    + apply Qle_shift_div_r; [done|]. by rewrite Qmult_comm.
Qed.

Lemma eval_is_bounded_mean_witness :
  exists loss, eval_single_span [1 # 2; 3 # 2]%Q = Ok loss /\ (loss <= 3 # 2)%Q.
Proof.
  assert (Hb : Forall (fun x => 1 # 2 <= x /\ x <= 3 # 2)%Q [1 # 2; 3 # 2]%Q).
  { repeat constructor; discriminate. }
  destruct (eval_is_bounded_mean [1 # 2; 3 # 2]%Q (1 # 2) (3 # 2) Hb) as [_ Hne].
  destruct Hne as (loss & Hrun & _ & _ & _ & Hhi); [discriminate|].
  exists loss. split; [exact Hrun | exact Hhi].
Defined.


(** *** Ranges of the per-class ratios *)

Lemma filter_and_le_l {A} (p q : A -> bool) (l : list A) :
  (length (List.filter (fun a => p a && q a) l) <= length (List.filter p l))%nat.
Proof.
  induction l as [|a l IH]; simpl; [lia|].
  destruct (p a), (q a); simpl; lia.
Qed.

Lemma filter_and_le_r {A} (p q : A -> bool) (l : list A) :
  (length (List.filter (fun a => p a && q a) l) <= length (List.filter q l))%nat.
Proof.
  induction l as [|a l IH]; simpl; [lia|].
  destruct (p a), (q a); simpl; lia.
Qed.

Lemma correct_le_predicted data id : 0 <= correct data id <= predicted data id.
Proof.
  unfold correct, predicted. split; [lia|].
  apply inj_le. apply (filter_and_le_l (fun s => fst s =? id) (fun s => snd s =? id)).
Qed.

Lemma correct_le_actual data id : 0 <= correct data id <= actual data id.
Proof.
  unfold correct, actual. split; [lia|].
  apply inj_le. apply (filter_and_le_r (fun s => fst s =? id) (fun s => snd s =? id)).
Qed.

Lemma ratio_range (c p : Z) :
  0 <= c <= p ->
  let x := if p =? 0 then 0%Q else (inject_Z c / inject_Z p)%Q in
  (0 <= x)%Q /\ (x <= 1)%Q /\ (0 < c -> (0 < x)%Q) /\ (c = 0 -> (x == 0)%Q).
Proof.
  intros Hc. destruct (Z.eqb_spec p 0) as [Hp|Hp]; simpl.
  - repeat split; try discriminate; try reflexivity. lia.
  - assert (Hpos : (0 < inject_Z p)%Q)
      by (change 0%Q with (inject_Z 0); rewrite <- Zlt_Qlt; lia).
    repeat split.
    + apply Qle_shift_div_l; [done|]. rewrite Qmult_0_l.
      change 0%Q with (inject_Z 0). rewrite <- Zle_Qle. lia.
    + apply Qle_shift_div_r; [done|]. rewrite Qmult_1_l. rewrite <- Zle_Qle. lia.
    + intros Hc0. apply Qlt_shift_div_l; [done|]. rewrite Qmult_0_l.
      change 0%Q with (inject_Z 0). rewrite <- Zlt_Qlt. lia.
    + intros ->. unfold Qdiv. change (inject_Z 0) with 0%Q. ring.
Qed.

Lemma class_precision_range data id :
  (0 <= class_precision data id)%Q /\ (class_precision data id <= 1)%Q
  /\ (0 < correct data id -> (0 < class_precision data id)%Q)
  /\ (correct data id = 0 -> (class_precision data id == 0)%Q).
Proof. apply ratio_range, correct_le_predicted. Qed.

Lemma class_recall_range data id :
  (0 <= class_recall data id)%Q /\ (class_recall data id <= 1)%Q
  /\ (0 < correct data id -> (0 < class_recall data id)%Q)
  /\ (correct data id = 0 -> (class_recall data id == 0)%Q).
Proof. apply ratio_range, correct_le_actual. Qed.

Lemma Qsum_nonneg (l : list Q) : Forall (fun x => 0 <= x)%Q l -> (0 <= Qsum l)%Q.
Proof.
  induction 1 as [|x l Hx _ IH]; [discriminate|]. rewrite Qsum_cons. lra.
Qed.

Lemma Qsum_pos (l : list Q) (x : Q) :
  Forall (fun y => 0 <= y)%Q l -> x ∈ l -> (0 < x)%Q -> (0 < Qsum l)%Q.
Proof.
  intros Hall Hin Hx. induction Hall as [|y l Hy Hall IH].
  - by apply elem_of_nil in Hin.
  - rewrite Qsum_cons. pose proof (Qsum_nonneg l Hall) as Hs.
    apply elem_of_cons in Hin as [<-|Hin]; [lra|].
    specialize (IH Hin). lra.
Qed.

Lemma mean_range (f : Z -> Q) ids :
  ids <> [] -> (forall id, 0 <= f id /\ f id <= 1)%Q ->
  (0 <= unweighted_mean f ids)%Q /\ (unweighted_mean f ids <= 1)%Q.
Proof.
  intros Hne Hf. unfold unweighted_mean.
  pose proof (length_pos_Q ids Hne) as Hn.
  destruct (Qsum_bounds 0 1 (map f ids)) as [Hlo Hhi].
  { apply Forall_fmap, Forall_forall. intros id _. apply Hf. }
  rewrite length_map in Hlo, Hhi. split.
  - apply Qle_shift_div_l; [done|]. lra.
  - apply Qle_shift_div_r; [done|]. lra.
Qed.

Lemma mean_pos (f : Z -> Q) ids id :
  (forall k, 0 <= f k)%Q -> id ∈ ids -> (0 < f id)%Q ->
  (0 < unweighted_mean f ids)%Q.
Proof.
  intros Hf Hin Hpos. unfold unweighted_mean.
  assert (Hne : ids <> []) by (intros ->; by apply elem_of_nil in Hin).
  pose proof (length_pos_Q ids Hne) as Hn.
  apply Qlt_shift_div_l; [done|]. rewrite Qmult_0_l.
  apply (Qsum_pos _ (f id)); [| by apply list_elem_of_fmap_2 | done].
  apply Forall_fmap, Forall_forall. intros k _. apply Hf.
Qed.

(** X2. A test pass over distinct label ids returns exactly when some
    listed id is predicted correctly at least once; otherwise (no label
    ids, no batches, or no correct prediction of a listed id) it raises
    [ZeroDivisionError], and it never raises anything else. *)
Theorem test_returns_iff_some_hit (test_data : list Batch) (ids : list Z) :
  NoDup ids ->
  ((exists id, id ∈ ids /\ 0 < correct test_data id) ->
     exists r, test_single_span test_data ids = Ok r
               /\ test_two_span test_data ids = Ok r)
  /\ ((forall id, id ∈ ids -> correct test_data id = 0) ->
      exists expr,
        test_single_span test_data ids = Raise (ZeroDivisionError expr)
        /\ test_two_span test_data ids = Raise (ZeroDivisionError expr)
        /\ expr = if bool_decide (ids = []) then "macro_precision"%string
                  else "macro_f1_score"%string).
Proof.
  intros Hnd. pose proof (test_span_outcome test_data ids Hnd) as Hout.
  cbv zeta in Hout. unfold test_single_span, test_two_span. split.
  - intros (id & Hin & Hpos).
    assert (HP : (0 < unweighted_mean (class_precision test_data) ids)%Q).
    { apply (mean_pos _ _ id); [|done|by apply class_precision_range].
      intros k. apply class_precision_range. }
    assert (HR : (0 <= unweighted_mean (class_recall test_data) ids)%Q).
    { apply mean_range; [intros ->; by apply elem_of_nil in Hin|].
      intros k. split; apply class_recall_range. }
    destruct (test_span test_data ids) as [r|e]; [by exists r|]. exfalso.
    destruct Hout as [[-> _]|[(_ & Hz & _)|(_ & _ & -> & _)]].
    + by apply elem_of_nil in Hin.
    + lra.
    + unfold correct in Hpos. simpl in Hpos. lia.
  - intros Hzero.
    assert (HP : (unweighted_mean (class_precision test_data) ids == 0)%Q).
    { apply mean_zero. intros id Hid. apply class_precision_range. by apply Hzero. }
    assert (HR : (unweighted_mean (class_recall test_data) ids == 0)%Q).
    { apply mean_zero. intros id Hid. apply class_recall_range. by apply Hzero. }
    destruct (test_span test_data ids) as [r|e].
    + exfalso. destruct Hout as (_ & _ & Hnz & _). apply Hnz. rewrite HP, HR. reflexivity.
    + destruct Hout as [[-> ->]|[(Hne & _ & ->)|(_ & Hnz & _)]].
      * eexists. repeat split.
      * eexists. repeat split. by rewrite bool_decide_eq_false_2.
      * exfalso. apply Hnz. rewrite HP, HR. reflexivity.
Qed.

Lemma test_returns_iff_some_hit_witness :
  exists r, test_single_span [{| batch_loss := 1; samples := [(0, 0); (1, 0)] |}] [0; 1]
            = Ok r.
Proof.
  assert (Hnd : NoDup [0; 1]) by (apply (bool_decide_unpack _); vm_compute; exact I).
  destruct (test_returns_iff_some_hit
              [{| batch_loss := 1; samples := [(0, 0); (1, 0)] |}] [0; 1] Hnd)
    as [Hret _].
  destruct Hret as (r & Hr & _).
  - exists 0. split; [apply list_elem_of_here | reflexivity].
  - exists r. exact Hr.
Defined.

(** X3. When a test pass over distinct label ids returns, the macro
    precision, the macro recall and the macro F1 all lie in (0, 1]. *)
Theorem macro_scores_are_bounded (test_data : list Batch) (ids : list Z) (r : Report) :
  NoDup ids ->
  test_single_span test_data ids = Ok r \/ test_two_span test_data ids = Ok r ->
  let P := macro_precision r in
  let R := macro_recall r in
  let F := macro_f1_score r in
  (0 < P)%Q /\ (P <= 1)%Q /\ (0 < R)%Q /\ (R <= 1)%Q
  /\ (0 < F)%Q /\ (F <= 1)%Q.
Proof.
  intros Hnd Hr.
  assert (Hrun : test_span test_data ids = Ok r) by (destruct Hr; assumption).
  pose proof (test_span_outcome test_data ids Hnd) as Hout.
  cbv zeta in Hout. rewrite Hrun in Hout.
  destruct Hout as (Hids & _ & Hnz & HP & HR & HF).
  set (P0 := unweighted_mean (class_precision test_data) ids) in *.
  set (R0 := unweighted_mean (class_recall test_data) ids) in *.
  assert (HPr : (0 <= P0)%Q /\ (P0 <= 1)%Q).
  { apply mean_range; [done|]. intros k. split; apply class_precision_range. }
  assert (HRr : (0 <= R0)%Q /\ (R0 <= 1)%Q).
  { apply mean_range; [done|]. intros k. split; apply class_recall_range. }
  (* some listed id is predicted correctly, else both means vanish *)
  assert (Hhit : exists id, id ∈ ids /\ 0 < correct test_data id).
  { destruct (decide (Exists (fun id => 0 < correct test_data id) ids)) as [He|Hn].
    - apply Exists_exists in He. exact He.
    - exfalso. apply Hnz.
      assert (Hz : forall id, id ∈ ids -> correct test_data id = 0).
      { intros id Hid. destruct (correct_le_predicted test_data id) as [H0 _].
        destruct (decide (0 < correct test_data id)) as [Hpos|Hnpos]; [|lia].
        exfalso. apply Hn. apply Exists_exists. eauto. }
      assert (E1 : (P0 == 0)%Q).
      { apply mean_zero. intros id Hid. apply class_precision_range. by apply Hz. }
      assert (E2 : (R0 == 0)%Q).
      { apply mean_zero. intros id Hid. apply class_recall_range. by apply Hz. }
      rewrite E1, E2. reflexivity. }
  destruct Hhit as (id & Hin & Hpos).
  assert (HP0 : (0 < P0)%Q).
  { apply (mean_pos _ _ id); [|done|by apply class_precision_range].
    intros k. apply class_precision_range. }
  assert (HR0 : (0 < R0)%Q).
  { apply (mean_pos _ _ id); [|done|by apply class_recall_range].
    intros k. apply class_recall_range. }
  cbv zeta. rewrite HF, HP, HR.
  assert (Hsum : (0 < P0 + R0)%Q) by lra.
  destruct HPr as [_ HP1]. destruct HRr as [_ HR1].
  repeat split; try done.
  - apply Qlt_shift_div_l; [done|]. nra.
  - apply Qle_shift_div_r; [done|]. nra.
Qed.

Lemma macro_scores_are_bounded_witness :
  exists r, test_single_span [{| batch_loss := 1 # 2; samples := scenario |}] [0; 1] = Ok r
            /\ (macro_f1_score r <= 1)%Q.
Proof.
  assert (Hnd : NoDup [0; 1]) by (apply (bool_decide_unpack _); vm_compute; exact I).
  set (run := test_single_span [{| batch_loss := 1 # 2; samples := scenario |}] [0; 1]).
  set (r := match run with
            | Ok r => r
            | Raise _ => {| mean_loss := 0; mean_accuracy := 0; macro_precision := 0;
                            macro_recall := 0; macro_f1_score := 0 |}
            end).
  assert (Hrun : run = Ok r) by (vm_compute; reflexivity).
  exists r. split; [exact Hrun|].
  destruct (macro_scores_are_bounded
              [{| batch_loss := 1 # 2; samples := scenario |}] [0; 1] r Hnd
              (or_introl Hrun)) as (_ & _ & _ & _ & _ & HF).
  exact HF.
Defined.


(** *** The mean loss and the mean accuracy *)

Lemma bumped_is_Some f l d d' id :
  bumped f l d d' -> is_Some (d !! id) -> is_Some (d' !! id).
Proof.
  intros Hb [q Hq]. rewrite (Hb id), Hq. destruct (decide (id ∈ l)); simpl; eauto.
Qed.

Lemma test_pass_accumulates ids : forall data s,
  NoDup ids ->
  (forall id, id ∈ ids -> is_Some (preds_sum s !! id) /\ is_Some (targets_sum s !! id)
                          /\ is_Some (preds_correct_sum s !! id)) ->
  exists s', test_pass data ids s = Ok s'
    /\ loss s' = foldl (fun q b => (q + batch_loss b)%Q) (loss s) data
    /\ accuracy s' = foldl (fun q b => (q + batch_accuracy b)%Q) (accuracy s) data.
Proof.
  induction data as [|b data IH]; intros s Hnd Hk.
  - exists s. done.
  - cbn [test_pass foldl].
    edestruct (tally_bumps b ids) as (s2 & Hrun & Hl & Ha & Bp & Bt & Bc);
      [exact Hnd | | rewrite Hrun; cbn [rbind]].
    { intros id Hid. simpl. by apply Hk. }
    simpl in Hl, Ha, Bp, Bt, Bc.
    edestruct (IH {| preds_sum := preds_sum s2; targets_sum := targets_sum s2;
                     preds_correct_sum := preds_correct_sum s2; loss := loss s2;
                     accuracy := (accuracy s2 + batch_accuracy b)%Q |})
      as (s' & Hs' & Hl' & Ha'); [exact Hnd | |].
    { intros id Hid. simpl. destruct (Hk id Hid) as (H1 & H2 & H3).
      repeat split; eapply bumped_is_Some; eauto. }
    exists s'. split; [exact Hs'|]. simpl in Hl', Ha'. by rewrite Hl', Ha', Hl, Ha.
Qed.

Lemma foldl_Qplus_map {A} (f : A -> Q) (l : list A) : forall start,
  (foldl (fun q a => q + f a) start l == start + Qsum (map f l))%Q.
Proof.
  induction l as [|a l IH]; intros start; simpl.
  - unfold Qsum. simpl. ring.
  - rewrite IH, Qsum_cons. ring.
Qed.

Lemma hits_cons b data :
  hits (b :: data)
  = Z.of_nat (length (List.filter (fun s => fst s =? snd s) (samples b))) + hits data.
Proof.
  unfold hits, all_samples. simpl.
  rewrite List.filter_app, length_app. lia.
Qed.

Lemma sample_count_cons b data :
  sample_count (b :: data) = Z.of_nat (length (samples b)) + sample_count data.
Proof. unfold sample_count, all_samples. simpl. rewrite length_app. lia. Qed.

(** With batches of one size the sum of the batch accuracies is the number
    of hits over that size. *)
Lemma equal_batches (k : nat) (data : list Batch) :
  (0 < k)%nat -> Forall (fun b => length (samples b) = k) data ->
  (Qsum (map batch_accuracy data) == inject_Z (hits data) / inject_Z (Z.of_nat k))%Q
  /\ sample_count data = Z.of_nat k * Z.of_nat (length data).
Proof.
  intros Hk Hall.
  assert (Hkq : ~ (inject_Z (Z.of_nat k) == 0)%Q).
  { intros E. change 0%Q with (inject_Z 0) in E.
    apply (proj1 (inject_Z_injective _ _)) in E. lia. }
  induction Hall as [|b data Hb Hall [IH1 IH2]].
  - split; [|unfold sample_count; simpl; lia].
    unfold hits, Qsum. simpl. unfold Qdiv. ring.
  - cbn [map length]. rewrite Qsum_cons, IH1, hits_cons, sample_count_cons, IH2, Hb.
    split; [|lia]. unfold batch_accuracy. rewrite Hb, inject_Z_plus. by field.
Qed.

(** X4. When a test pass over distinct label ids returns, the loss is
    the sum of the batch losses over the number of batches and the
    accuracy the sum of the batch accuracies over the number of batches;
    with batches of one common size that accuracy is the share of the
    samples of the whole test set whose prediction equals its target. *)
Theorem accuracy_is_mean_over_batches (test_data : list Batch) (ids : list Z) (r : Report) :
  NoDup ids ->
  test_single_span test_data ids = Ok r \/ test_two_span test_data ids = Ok r ->
  let n := inject_Z (Z.of_nat (length test_data)) in
  (mean_loss r == Qsum (map batch_loss test_data) / n)%Q
  /\ (mean_accuracy r == Qsum (map batch_accuracy test_data) / n)%Q
  /\ (forall k, (0 < k)%nat ->
        Forall (fun b => length (samples b) = k) test_data ->
        (mean_accuracy r
         == inject_Z (hits test_data) / inject_Z (sample_count test_data))%Q).
Proof.
  intros Hnd Hr n.
  assert (Hrun : test_span test_data ids = Ok r) by (destruct Hr; assumption).
  assert (Hdata : test_data <> []).
  { pose proof (test_span_outcome test_data ids Hnd) as Hout. cbv zeta in Hout.
    rewrite Hrun in Hout. tauto. }
  unfold test_span in Hrun.
  destruct (test_pass_accumulates ids test_data
              {| preds_sum := zeros ids; targets_sum := zeros ids;
                 preds_correct_sum := zeros ids; loss := 0%Q; accuracy := 0%Q |} Hnd)
    as (s & Hs & Hl & Ha).
  { intros id Hid. simpl. rewrite zeros_lookup by done. eauto. }
  rewrite Hs in Hrun. cbn [rbind] in Hrun. simpl in Hl, Ha.
  destruct (ratios (preds_correct_sum s) (preds_sum s) ids); [|discriminate].
  cbn [rbind] in Hrun.
  destruct (ratios (preds_correct_sum s) (targets_sum s) ids); [|discriminate].
  cbn [rbind] in Hrun.
  destruct (macro "macro_precision" _ ids); [|discriminate]. cbn [rbind] in Hrun.
  destruct (macro "macro_recall" _ ids); [|discriminate]. cbn [rbind] in Hrun.
  destruct (macro_f1 _ _); [|discriminate]. cbn [rbind] in Hrun.
  destruct (py_div "loss / len(loop)" _ _) as [ml|] eqn:El; [|discriminate].
  cbn [rbind] in Hrun.
  destruct (py_div "accuracy / len(loop)" _ _) as [ma|] eqn:Ea; [|discriminate].
  cbn [rbind] in Hrun. injection Hrun as <-. simpl.
  apply py_div_Ok in El as [Hn ->]. apply py_div_Ok in Ea as [_ ->]. fold n in Hn |- *.
  assert (HL : (loss s == Qsum (map batch_loss test_data))%Q).
  { rewrite Hl, foldl_Qplus_map. ring. }
  assert (HA : (accuracy s == Qsum (map batch_accuracy test_data))%Q).
  { rewrite Ha, foldl_Qplus_map. ring. }
  split; [by rewrite HL|]. split; [by rewrite HA|].
  intros k Hk Hall. destruct (equal_batches k test_data Hk Hall) as [Hsum Hcount].
  rewrite HA, Hsum, Hcount, inject_Z_mult. fold n.
  assert (Hkq : ~ (inject_Z (Z.of_nat k) == 0)%Q).
  { intros E. change 0%Q with (inject_Z 0) in E.
    apply (proj1 (inject_Z_injective _ _)) in E. lia. }
  by field.
Qed.

Lemma accuracy_is_mean_over_batches_witness :
  exists r, test_single_span [{| batch_loss := 1 # 2; samples := scenario |}] [0; 1] = Ok r
            /\ (mean_accuracy r == 3 # 4)%Q.
Proof.
  assert (Hnd : NoDup [0; 1]) by (apply (bool_decide_unpack _); vm_compute; exact I).
  set (data := [{| batch_loss := 1 # 2; samples := scenario |}]).
  set (run := test_single_span data [0; 1]).
  set (r := match run with
            | Ok r => r
            | Raise _ => {| mean_loss := 0; mean_accuracy := 0; macro_precision := 0;
                            macro_recall := 0; macro_f1_score := 0 |}
            end).
  assert (Hrun : run = Ok r) by (vm_compute; reflexivity).
  exists r. split; [exact Hrun|].
  destruct (accuracy_is_mean_over_batches data [0; 1] r Hnd (or_introl Hrun))
    as (_ & _ & Heq).
  assert (Hall : Forall (fun b => length (samples b) = 4%nat) data)
    by (repeat constructor).
  assert (H4 : (0 < 4)%nat) by lia.
  rewrite (Heq 4%nat H4 Hall). reflexivity.
Defined.

End EvaluatorTheory.

(** ** More on the training loop *)

Module TrainerMoreTheory.

Import Trainer TrainerMore TrainerTheory.

(** *** The best loss *)

Lemma best_so_far_evaluated cfg m m' f :
  best_so_far cfg m -> evaluated cfg m m' f ->
  best_so_far cfg m'
  /\ forall e, f = Raised e ->
       patience_lr cfg = 0 /\ e = ZeroDivisionError "counter % config.patience_lr".
Proof.
  intros (Hc & H0 & Hb) Hev.
  assert (Hm1 : forall loss ml,
             loss = val_loss cfg (Z.to_nat (v_eval m)) ->
             best_before loss m = Some ml ->
             let m1 := improvement loss (v_eval m + 1) ml (v_counter m) m in
             best_so_far cfg m1
             /\ best_so_far cfg (finish_evaluation loss m1)
             /\ best_so_far cfg (finish_evaluation loss (halve m1))).
  { intros loss ml Hl Hbest m1.
    assert (Hinv : best_so_far cfg m1);
      [|split; [exact Hinv | split; exact Hinv]].
    destruct (improvement_fields loss (v_eval m + 1) ml (v_counter m) m)
      as (_ & He & _ & _ & _ & Hcnt). fold m1 in He, Hcnt.
    assert (Hnat : Z.to_nat (v_eval m + 1) = S (Z.to_nat (v_eval m)))
      by (rewrite Z2Nat.inj_add by lia; simpl; lia).
    (* [ml] is the best of the losses before this one, or this one *)
    assert (Hml : ml = loss /\ v_eval m = 0
                  \/ 0 < v_eval m
                     /\ exists j, (j < Z.to_nat (v_eval m))%nat
                          /\ ml = val_loss cfg j
                          /\ forall k, (k < Z.to_nat (v_eval m))%nat ->
                                       (val_loss cfg j <= val_loss cfg k)%Q).
    { unfold best_before in Hbest.
      destruct (Z.eqb_spec (v_eval m + 1) 1) as [E|E].
      - left. split; [congruence | lia].
      - right. split; [lia|]. destruct Hb as (j & Hj & Hmin & Hle); [lia|].
        exists j. split; [done|]. split; [congruence | done]. }
    unfold best_so_far. rewrite He.
    split; [destruct Hcnt as [(_ & -> & _)|(_ & -> & _)]; lia|].
    split; [lia|]. intros _. rewrite Hnat.
    destruct Hcnt as [(Hlt & _ & ->)|(Hle & _ & ->)].
    - (* the new loss is the best *)
      exists (Z.to_nat (v_eval m)). split; [lia|]. split; [by rewrite Hl|].
      intros k Hk. rewrite <- Hl.
      destruct (decide (k = Z.to_nat (v_eval m))) as [->|Hne];
        [rewrite <- Hl; apply Qle_refl|].
      destruct Hml as [[_ E0]|(_ & j & Hj & -> & Hmin)].
      + rewrite E0 in Hk, Hne. simpl in Hk, Hne. lia.
      + apply Qlt_le_weak. eapply Qlt_le_trans; [exact Hlt|]. apply Hmin. lia.
    - (* the best stays *)
      destruct Hml as [[-> E0]|(_ & j & Hj & -> & Hmin)].
      + exists 0%nat. rewrite E0 in *. simpl in Hl. split; [lia|].
        split; [by rewrite Hl|]. intros k Hk.
        assert (k = 0%nat) as -> by (simpl in Hk; lia). apply Qle_refl.
      + exists j. split; [lia|]. split; [done|]. intros k Hk.
        destruct (decide (k = Z.to_nat (v_eval m))) as [->|Hne];
          [by rewrite <- Hl | apply Hmin; lia]. }
  destruct Hev as [ Hnone | loss ml m1 Hl Hbest -> _ | loss ml m1 Hl Hbest -> _ _
                  | loss ml m1 Hl Hbest -> _ _ Hz
                  | loss ml m1 Hl Hbest -> _ _ _ _ _
                  | loss ml m1 Hl Hbest -> _ _ _ _ ];
    try (destruct (Hm1 loss ml Hl Hbest) as (F1 & F2 & F3));
    try (split; [done | intros ? [=]]).
  - exfalso. unfold best_before in Hnone.
    destruct (Z.eqb_spec (v_eval m + 1) 1) as [|E]; [discriminate|].
    destruct Hb as (j & _ & Hmin & _); [lia|]. congruence.
  - split; [done | congruence].
Qed.

(** X5. After any number of epochs of any run, [min_loss] is unbound
    if no evaluation was made and is otherwise the smallest validation
    loss evaluated so far; the counter lies between 0 and the number of
    evaluations. *)
Theorem min_loss_is_best_so_far (cfg : TrainConfig) (fuel : nat) :
  best_so_far cfg (fst (train_single_span cfg fuel))
  /\ best_so_far cfg (fst (train_two_span cfg fuel)).
Proof.
  assert (H : best_so_far cfg (fst (train_span cfg fuel))); [|by split].
  unfold train_span. apply (training_invariant cfg (best_so_far cfg)).
  - intros i m Hm. exact Hm.
  - intros m m' f Hm Hev. by apply (best_so_far_evaluated cfg m m' f).
  - unfold best_so_far, initial. simpl. repeat split; try done; lia.
Qed.


(** *** Exceptions *)

Lemma batch_flow cfg i m :
  best_so_far cfg m ->
  best_so_far cfg (fst (batch cfg i m))
  /\ v_i (fst (batch cfg i m)) = Some i
  /\ forall e, snd (batch cfg i m) = Raised e -> misconfigured cfg e.
Proof.
  intros Hm. unfold batch, py_mod.
  destruct (Z.eqb_spec (eval_interval cfg) 0) as [HE|HE].
  { simpl. split; [exact Hm|]. split; [reflexivity|].
    intros e [= <-]. right. left. done. }
  set (m1 := emit (Step i (param_groups m)) (bind_i i m)).
  assert (Hm1 : best_so_far cfg m1) by exact Hm.
  destruct (i mod eval_interval cfg =? 0);
    [|simpl; split; [exact Hm1|]; split; [reflexivity | discriminate]].
  destruct (evaluation cfg m1) as [m2 f] eqn:Hev.
  apply evaluation_evaluated in Hev.
  destruct (best_so_far_evaluated cfg m1 m2 f Hm1 Hev) as [Hm2 Hraise].
  simpl. split; [done|]. split; [by rewrite (evaluated_v_i _ _ _ _ Hev)|].
  intros e ->. right. right. by apply Hraise.
Qed.

Lemma epoch_flow cfg n : forall i m,
  best_so_far cfg m ->
  best_so_far cfg (fst (epoch cfg n i m))
  /\ (n <> 0%nat -> is_Some (v_i (fst (epoch cfg n i m))))
  /\ (n = 0%nat -> fst (epoch cfg n i m) = m /\ snd (epoch cfg n i m) = Next)
  /\ forall e, snd (epoch cfg n i m) = Raised e -> misconfigured cfg e.
Proof.
  induction n as [|n IH]; intros i m Hm.
  - simpl. split; [exact Hm|]. repeat split; try done.
  - cbn [epoch]. destruct (batch_flow cfg i m Hm) as (Hb & Hvi & Hraise).
    destruct (batch cfg i m) as [m1 [| |e]]; simpl in *.
    + destruct (IH (i + 1) m1 Hb) as (H1 & H2 & H3 & H4).
      split; [done|]. split; [|split; [done|done]].
      intros _. destruct n as [|n']; [|by apply H2].
      destruct H3 as [-> _]; [done|]. rewrite Hvi. eauto.
    + split; [exact Hb|]. split; [intros _; rewrite Hvi; eauto|].
      split; [done | discriminate].
    + split; [exact Hb|]. split; [intros _; rewrite Hvi; eauto|].
      split; [done|]. intros e' [= <-]. by apply Hraise.
Qed.

Lemma training_flow cfg fuel : forall s m e,
  best_so_far cfg m ->
  snd (training cfg fuel s m) = Crashed e -> misconfigured cfg e.
Proof.
  induction fuel as [|fuel IH]; intros s m e Hm; [discriminate|].
  cbn [training].
  destruct (epoch_flow cfg (train_data cfg) s m Hm) as (H1 & H2 & H3 & H4).
  destruct (epoch cfg (train_data cfg) s m) as [m1 [| |e']]; simpl in *.
  - destruct (v_i m1) as [i|] eqn:Hvi.
    + unfold py_mod. destruct (Z.eqb_spec (eval_interval cfg) 0) as [HE|HE].
      * simpl. intros [= <-]. right. left. done.
      * by apply IH.
    + simpl. intros [= <-]. left. split; [|done].
      destruct (train_data cfg); [done|]. destruct H2 as [? ?]; done.
  - discriminate.
  - intros [= <-]. by apply H4.
Qed.

Lemma initial_best cfg : best_so_far cfg (initial cfg).
Proof. unfold best_so_far, initial. simpl. repeat split; try done; lia. Qed.

(** *** The run with the call of the evaluator *)

Lemma eval_span_cases (l : list Q) :
  (l = [] /\ Evaluator.eval_span l = Raise empty_loader)
  \/ (l <> [] /\ Evaluator.eval_span l
                  = Ok (Qsum l / inject_Z (Z.of_nat (length l)))%Q).
Proof.
  destruct l as [|x l]; [left; split; reflexivity|]. right. split; [done|].
  unfold Evaluator.eval_span.
  pose proof (EvaluatorTheory.length_pos_Q (x :: l) ltac:(done)) as Hn.
  apply py_div_nonzero. intros E. rewrite E in Hn. discriminate.
Qed.

(** The evaluation block reads the loss of the evaluation it makes and
    no other. *)
Lemma evaluation_with_losses cfg f g m :
  f (Z.to_nat (v_eval m)) = g (Z.to_nat (v_eval m)) ->
  evaluation (with_losses cfg f) m = evaluation (with_losses cfg g) m.
Proof. unfold evaluation, with_losses. cbn [val_loss]. by intros ->. Qed.

Section Simulation.

Variable val_data : nat -> list Q.
Variable cfg : TrainConfig.
Variable F : nat -> Q.
Hypothesis F_returned :
  forall k q, Evaluator.eval_span (val_data k) = Ok q -> q = F k.

Lemma evaluation_on_cases m :
  evaluation_on val_data cfg m = evaluation (with_losses cfg F) m
  \/ (evaluation_on val_data cfg m = (m, Raised empty_loader)
      /\ exists k, val_data k = []).
Proof.
  unfold evaluation_on.
  destruct (eval_span_cases (val_data (Z.to_nat (v_eval m)))) as [[Hnil ->]|[_ Hok]].
  - right. split; [reflexivity | eauto].
  - left. rewrite Hok. apply evaluation_with_losses. by apply F_returned.
Qed.

Lemma batch_on_cases i m :
  batch_on val_data cfg i m = batch (with_losses cfg F) i m
  \/ ((exists m', batch_on val_data cfg i m = (m', Raised empty_loader))
      /\ exists k, val_data k = []).
Proof.
  unfold batch_on, batch. cbn [eval_interval with_losses].
  destruct (py_mod _ i (eval_interval cfg)) as [r|e]; [|by left].
  destruct (r =? 0); [|by left].
  destruct (evaluation_on_cases (emit (Step i (param_groups m)) (bind_i i m)))
    as [->|[-> Hk]]; [by left|].
  right. split; [by eexists | exact Hk].
Qed.

Lemma epoch_on_cases n : forall i m,
  epoch_on val_data cfg n i m = epoch (with_losses cfg F) n i m
  \/ ((exists m', epoch_on val_data cfg n i m = (m', Raised empty_loader))
      /\ exists k, val_data k = []).
Proof.
  induction n as [|n IH]; intros i m; [by left|].
  cbn [epoch_on epoch].
  destruct (batch_on_cases i m) as [->|[[m' ->] Hk]].
  - destruct (batch (with_losses cfg F) i m) as [m1 [| |e]]; try by left.
    apply IH.
  - right. split; [by eexists | exact Hk].
Qed.

Lemma training_on_cases fuel : forall s m,
  training_on val_data cfg fuel s m = training (with_losses cfg F) fuel s m
  \/ ((exists m', training_on val_data cfg fuel s m = (m', Crashed empty_loader))
      /\ exists k, val_data k = []).
Proof.
  induction fuel as [|fuel IH]; intros s m; [by left|].
  cbn [training_on training]. cbn [train_data eval_interval with_losses].
  destruct (epoch_on_cases (train_data cfg) s m) as [->|[[m' ->] Hk]].
  - destruct (epoch (with_losses cfg F) (train_data cfg) s m) as [m1 [| |e]];
      try by left.
    destruct (v_i m1) as [i|]; [|by left].
    destruct (py_mod _ i (eval_interval cfg)) as [s'|e]; [|by left].
    apply IH.
  - right. split; [by eexists | exact Hk].
Qed.

End Simulation.


Lemma val_mean_returned val_data k q :
  Evaluator.eval_span (val_data k) = Ok q -> q = val_mean val_data k.
Proof.
  destruct (eval_span_cases (val_data k)) as [[_ ->]|[_ ->]]; [discriminate|].
  by intros [= <-].
Qed.

(** X6. A run of the trainers, with the call of the evaluator in it,
    raises only for four reasons: an empty train loader ([i] is unbound
    when the next epoch is set up), a zero [eval_interval], a zero
    [patience_lr], or an empty validation loader (the evaluator divides by
    the number of its batches); [min_loss] in particular is never read
    unbound.  On any other input the trainers return or go on. *)
Theorem crashes_are_misconfigurations
    (val_data : nat -> list Q) (cfg : TrainConfig) (fuel : nat) (e : exn) :
  snd (train_single_span_on val_data cfg fuel) = Crashed e
  \/ snd (train_two_span_on val_data cfg fuel) = Crashed e ->
  crash_reason val_data cfg e.
Proof.
  intros Hcrash.
  assert (H : snd (train_span_on val_data cfg fuel) = Crashed e)
    by (destruct Hcrash; assumption).
  unfold train_span_on in H.
  destruct (training_on_cases val_data cfg (val_mean val_data)
              (val_mean_returned val_data) fuel 1 (initial cfg))
    as [Heq|[[m' Hraise] Hk]].
  - left. rewrite Heq in H.
    apply (training_flow (with_losses cfg (val_mean val_data)) fuel 1 _ e) in H;
      [exact H | apply (initial_best (with_losses cfg (val_mean val_data)))].
  - right. rewrite Hraise in H. injection H as <-. split; [reflexivity | exact Hk].
Qed.

Lemma crashes_are_misconfigurations_witness :
  train_single_span_on (fun _ => []) three_batches 1
  = (emit (Step 2 (optimizer three_batches))
          (bind_i 2 (emit (Step 1 (optimizer three_batches))
                          (bind_i 1 (initial three_batches)))),
     Crashed empty_loader)
  /\ crash_reason (fun _ => []) three_batches empty_loader.
Proof.
  assert (Hrun : train_single_span_on (fun _ => []) three_batches 1
                 = (emit (Step 2 (optimizer three_batches))
                         (bind_i 2 (emit (Step 1 (optimizer three_batches))
                                         (bind_i 1 (initial three_batches)))),
                    Crashed empty_loader)) by (vm_compute; reflexivity).
  split; [exact Hrun|].
  assert (H : snd (train_single_span_on (fun _ => []) three_batches 1)
              = Crashed empty_loader) by (rewrite Hrun; reflexivity).
  exact (crashes_are_misconfigurations (fun _ => []) three_batches 1 empty_loader
           (or_introl H)).
Defined.



(** X7. With an empty train loader the trainers raise
    [UnboundLocalError] for [i] at the end of the first epoch, before any
    gradient step or evaluation; with [eval_interval = 0] and a non-empty
    loader they raise [ZeroDivisionError] right after the first gradient
    step; with [patience_lr = 0] an evaluation at which no stop condition
    holds raises [ZeroDivisionError], also when the counter is 0. *)
Theorem misconfigurations_crash (cfg : TrainConfig) (fuel : nat) :
  (train_data cfg = 0%nat ->
     train_single_span cfg (S fuel) = (initial cfg, Crashed (UnboundLocalError "i"))
     /\ train_two_span cfg (S fuel) = (initial cfg, Crashed (UnboundLocalError "i")))
  /\ (train_data cfg <> 0%nat -> eval_interval cfg = 0 ->
      let crash := (emit (Step 1 (optimizer cfg)) (bind_i 1 (initial cfg)),
                    Crashed (ZeroDivisionError "i % config.eval_interval")) in
      train_single_span cfg (S fuel) = crash /\ train_two_span cfg (S fuel) = crash)
  /\ (patience_lr cfg = 0 ->
      forall m m' f,
        evaluation cfg m = (m', f) ->
        v_eval m = 0 \/ is_Some (v_min_loss m) ->
        max_evals_reached cfg (v_eval m + 1) = false ->
        v_counter m' < patience cfg ->
        f = Raised (ZeroDivisionError "counter % config.patience_lr")).
Proof.
  unfold train_single_span, train_two_span, train_span. split; [|split].
  - intros H0. cbn [training]. rewrite H0. simpl. done.
  - intros Hn HE. cbn [training].
    destruct (train_data cfg) as [|n]; [done|].
    cbn [epoch]. unfold batch, py_mod. rewrite HE. simpl. done.
  - intros Hp m m' f Hev Hb Hmax Hpat. apply evaluation_evaluated in Hev.
    destruct Hev as [ Hnone | loss ml m1 _ _ -> Hmax' | loss ml m1 _ _ -> _ Hpat'
                    | loss ml m1 _ _ -> _ _ _
                    | loss ml m1 _ _ -> _ _ Hnz _ _
                    | loss ml m1 _ _ -> _ _ Hnz _ ];
      try (destruct (improvement_fields loss (v_eval m + 1) ml (v_counter m) m)
             as (_ & He & _ & _ & _ & _)).
    + exfalso. unfold best_before in Hnone.
      destruct (Z.eqb_spec (v_eval m + 1) 1) as [|E]; [discriminate|].
      destruct Hb as [?|[? ?]]; [lia | congruence].
    + rewrite He in Hmax'. congruence.
    + simpl in Hpat. lia.
    + reflexivity.
    + contradiction.
    + contradiction.
Qed.


(** *** The learning rate a stalled run ends with *)

Lemma div_succ_multiple (e p : Z) :
  0 < p -> 0 <= e -> (e + 1) mod p = 0 -> (e + 1) / p = e / p + 1.
Proof.
  intros Hp He Hmod.
  pose proof (Z.div_mod e p) as H1. pose proof (Z.div_mod (e + 1) p) as H2.
  pose proof (Z.mod_pos_bound e p Hp) as H3.
  rewrite Hmod in H2. specialize (H1 ltac:(lia)). specialize (H2 ltac:(lia)). nia.
Qed.

Lemma div_succ_other (e p : Z) :
  0 < p -> 0 <= e -> (e + 1) mod p <> 0 -> (e + 1) / p = e / p.
Proof.
  intros Hp He Hmod.
  pose proof (Z.div_mod e p) as H1. pose proof (Z.div_mod (e + 1) p) as H2.
  pose proof (Z.mod_pos_bound e p Hp) as H3.
  pose proof (Z.mod_pos_bound (e + 1) p Hp) as H4.
  specialize (H1 ltac:(lia)). specialize (H2 ltac:(lia)). nia.
Qed.

Lemma decayed_halve cfg h m :
  decayed cfg h m -> length (param_groups m) = length (optimizer cfg) ->
  decayed cfg (S h) (halve m).
Proof.
  intros [Hlr Hg] Hlen. unfold decayed, halve. simpl. rewrite Hlr. split; [done|].
  apply list_eq. intros i. rewrite !list_lookup_fmap.
  destruct (param_groups m !! i) eqn:E1, (optimizer cfg !! i) eqn:E2; try done.
  - apply lookup_lt_Some in E1. apply lookup_ge_None in E2. lia.
  - apply lookup_ge_None in E1. apply lookup_lt_Some in E2. lia.
Qed.

Lemma decayed_length cfg h m :
  decayed cfg h m -> length (param_groups m) = length (optimizer cfg).
Proof. intros [_ ->]. destruct h; [done | by rewrite length_map]. Qed.

Lemma stalled_decay_evaluated cfg m m' f :
  never_improves (val_loss cfg) -> 0 < patience_lr cfg ->
  stalled_decay cfg m -> v_eval m < stop_count cfg -> evaluated cfg m m' f ->
  match f with
  | Break => v_eval m' = stop_count cfg /\ decayed cfg (halvings cfg) m'
  | Next => stalled_decay cfg m' /\ v_eval m' = v_eval m + 1
            /\ v_eval m' < stop_count cfg
  | Raised _ => False
  end.
Proof.
  intros Hnever Hp [Hst Hdec] HN Hev.
  assert (Hnz : patience_lr cfg <> 0) by lia.
  pose proof (stalled_evaluated cfg m m' f Hnever Hnz Hst HN Hev) as Hs.
  pose proof Hst as (H0 & _ & _).
  destruct Hev as [ Hnone | loss ml m1 Hl Hbest -> _ | loss ml m1 Hl Hbest -> _ _
                  | loss ml m1 Hl Hbest -> _ _ Hz
                  | loss ml m1 Hl Hbest -> _ _ _ Hmod Hpos
                  | loss ml m1 Hl Hbest -> _ _ _ Hno ];
    try done;
    destruct (stalled_improvement cfg m loss ml Hnever Hst Hl Hbest) as (He & Hc & _);
    destruct (improvement_fields loss (v_eval m + 1) ml (v_counter m) m)
      as (Hlr & _ & _ & Hg & _ & _).
  - destruct Hs as [Hs _]. split; [done|]. simpl in Hs. rewrite He in Hs.
    unfold halvings. rewrite <- Hs. replace (v_eval m + 1 - 1) with (v_eval m) by lia.
    destruct Hdec as [D1 D2]. unfold decayed. simpl. by rewrite Hlr, Hg.
  - destruct Hs as [Hs _]. split; [done|]. simpl in Hs. rewrite He in Hs.
    unfold halvings. rewrite <- Hs. replace (v_eval m + 1 - 1) with (v_eval m) by lia.
    destruct Hdec as [D1 D2]. unfold decayed. simpl. by rewrite Hlr, Hg.
  - destruct Hs as (Hs1 & Hs2 & Hs3). split; [|done]. split; [done|].
    simpl. rewrite He. rewrite Hc in Hmod.
    rewrite (div_succ_multiple _ _ Hp H0 Hmod).
    rewrite Z2Nat.inj_add by (try apply Z.div_pos; lia).
    replace (Z.to_nat (v_eval m / patience_lr cfg) + Z.to_nat 1)%nat
      with (S (Z.to_nat (v_eval m / patience_lr cfg))) by (simpl; lia).
    assert (Hd1 : decayed cfg (Z.to_nat (v_eval m / patience_lr cfg))
                    (improvement loss (v_eval m + 1) ml (v_counter m) m)).
    { destruct Hdec as [D1 D2]. unfold decayed. by rewrite Hlr, Hg. }
    pose proof (decayed_halve cfg _ _ Hd1 (decayed_length cfg _ _ Hd1)) as Hd2.
    exact Hd2.
  - destruct Hs as (Hs1 & Hs2 & Hs3). split; [|done]. split; [done|].
    simpl. rewrite He. rewrite Hc in Hno.
    rewrite (div_succ_other _ _ Hp H0) by (intros E; apply Hno; split; [done | lia]).
    destruct Hdec as [D1 D2]. unfold decayed. simpl. by rewrite Hlr, Hg.
Qed.

(** X8. On a configuration on which evaluations keep coming, with a
    positive [patience_lr], a run on losses that never improve stops after
    [stop_count] evaluations with the learning rate halved
    [(stop_count - 1) / patience_lr] times, in the local variable and in
    every parameter group; with the defaults ([patience=20],
    [patience_lr=5], no [max_evals]) that is three halvings. *)
Theorem stalled_run_ends_decayed (cfg : TrainConfig) :
  well_configured cfg -> 0 < patience_lr cfg -> never_improves (val_loss cfg) ->
  (exists fuel m,
      train_single_span cfg fuel = (m, Finished)
      /\ train_two_span cfg fuel = (m, Finished)
      /\ v_eval m = stop_count cfg
      /\ decayed cfg (halvings cfg) m)
  /\ (max_evals cfg = None -> patience cfg = 20 -> patience_lr cfg = 5 ->
      halvings cfg = 3%nat).
Proof.
  intros Hcfg Hp Hnever. split.
  - set (k := Z.to_nat (stop_count cfg * (eval_interval cfg + 1) + eval_interval cfg)).
    assert (H1 : 1 <= stop_count cfg) by (unfold stop_count; lia).
    destruct (training_terminates cfg (stop_count cfg) (stalled_decay cfg)
                (fun m => v_eval m = stop_count cfg /\ decayed cfg (halvings cfg) m)
                Hcfg) with (k := k) (s := 1) (m := initial cfg) as (m & Hrun & Hfin).
    + intros i m Hm. exact Hm.
    + intros m m' f Hm HN Hev. by apply (stalled_decay_evaluated cfg m m' f).
    + unfold stalled_decay, stalled, decayed, initial. simpl.
      repeat split; try done; lia.
    + simpl. lia.
    + destruct Hcfg as (HE & _). lia.
    + destruct Hcfg as (HE & _). subst k. simpl. nia.
    + exists k, m. destruct Hfin as [He Hd]. done.
  - intros Hmax Hpat Hplr. unfold halvings, stop_count. rewrite Hmax, Hpat, Hplr.
    reflexivity.
Qed.

Lemma defaults_well_configured : well_configured defaults.
Proof. unfold well_configured. simpl. repeat split; lia. Qed.

Lemma stalled_run_ends_decayed_witness :
  exists fuel m, train_single_span defaults fuel = (m, Finished)
                 /\ v_eval m = 20 /\ v_lr m = ((1 # 10000) / 2 / 2 / 2)%Q.
Proof.
  assert (Hp : 0 < patience_lr defaults) by reflexivity.
  assert (Hn : never_improves (val_loss defaults))
    by (intros k; simpl; apply Qle_refl).
  destruct (stalled_run_ends_decayed defaults defaults_well_configured Hp Hn)
    as [(fuel & m & Hrun & _ & He & Hlr & _) _].
  exists fuel, m. split; [exact Hrun|]. split; [exact He | exact Hlr].
Defined.

End TrainerMoreTheory.

(** ** More on the span aligner *)

Module AlignerMoreTheory.

Import Aligner AlignerMore AlignerTheory.

Local Open Scope nat_scope.

(** *** Padding *)

(** X9. Padding returns exactly when the tokens fit the row or there
    is a single token (which is broadcast, into an empty row when it does
    not fit).  Tokens that fit are kept as a prefix and followed by zeros
    up to [max_seq_length]; more than one token in too short a row raises
    the size mismatch. *)
Theorem pad_keeps_the_tokens (max_seq_length : nat) (tokens : list Z) :
  (length tokens <= max_seq_length ->
     exists row,
       pad max_seq_length tokens = Ok row
       /\ length row = max_seq_length
       /\ take (length tokens) row = tokens
       /\ forall p, length tokens <= p < max_seq_length -> row !! p = Some 0%Z)
  /\ (max_seq_length < length tokens -> length tokens <> 1 ->
      pad max_seq_length tokens = Raise size_mismatch)
  /\ (max_seq_length < length tokens -> length tokens = 1 ->
      pad max_seq_length tokens = Ok []).
Proof.
  split; [|split].
  - intros Hle. rewrite pad_fits by done. eexists. split; [reflexivity|].
    split; [rewrite length_app, length_replicate; lia|].
    split; [by rewrite take_app_length|].
    intros p Hp. rewrite lookup_app_r by lia. apply lookup_replicate_2. lia.
  - intros Hlt Hne. unfold pad. rewrite Nat.min_r by lia.
    destruct (Nat.eqb_spec (length tokens) max_seq_length) as [?|_]; [lia|].
    destruct tokens as [|t [|t' tokens]]; try reflexivity. simpl in Hne. lia.
  - intros Hlt H1. unfold pad. rewrite Nat.min_r by lia.
    destruct (Nat.eqb_spec (length tokens) max_seq_length) as [?|_]; [lia|].
    destruct tokens as [|t [|t' tokens]]; simpl in H1; try lia.
    simpl in Hlt. assert (max_seq_length = 0) as -> by lia. reflexivity.
Qed.

(** *** Masks *)

Lemma span_mask_succ L s e :
  span_mask (S L) s e = span_mask L s e ++ [(s <=? L) && (L <? e)].
Proof. unfold span_mask. by rewrite seq_S, map_app. Qed.

(** X10. A span mask has [max_seq_length] cells, is true exactly on
    the cells [start <= p < end] of the row, so on [min end max_seq_length
    - start] cells, and is false everywhere when [end <= start]. *)
Theorem span_mask_is_an_interval (max_seq_length start end_ : nat) :
  let mask := span_mask max_seq_length start end_ in
  length mask = max_seq_length
  /\ (forall p, p < max_seq_length ->
        mask !! p = Some (bool_decide (start <= p < end_)))
  /\ length (List.filter (fun b : bool => b) mask)
     = Nat.min end_ max_seq_length - start
  /\ (end_ <= start -> mask = replicate max_seq_length false).
Proof.
  cbv zeta. split; [apply span_mask_length|].
  split; [intros p Hp; by apply span_mask_lookup|]. split.
  - induction max_seq_length as [|L IH]; [simpl; lia|].
    rewrite span_mask_succ, List.filter_app, length_app, IH. simpl.
    destruct (Nat.leb_spec start L), (Nat.ltb_spec L end_); simpl; lia.
  - intros Hle. apply list_eq. intros p.
    destruct (decide (p < max_seq_length)) as [Hp|Hp].
    + rewrite span_mask_lookup by done. rewrite lookup_replicate_2 by done.
      f_equal. apply bool_decide_eq_false_2. lia.
    + rewrite !lookup_ge_None_2; [done | rewrite length_replicate; lia
                                 | rewrite span_mask_length; lia].
Qed.

(** *** Label tensors *)

Lemma label_tensor_map labels l2i i label id : forall ks,
  labels !! i = Some label -> l2i !! label = Some id ->
  label_tensor labels l2i i ks
  = Ok (map (fun k => if (id =? Z.of_nat k)%Z then 1%Q else 0%Q) ks).
Proof.
  intros ks Hl Hid. induction ks as [|k ks IH]; [done|].
  cbn [label_tensor]. unfold list_get, dict_get. rewrite Hl. cbn [rbind].
  rewrite Hid. cbn [rbind]. by rewrite IH.
Qed.

Lemma label_tensor_Ok labels l2i i ks t :
  label_tensor labels l2i i ks = Ok t ->
  (ks = [] /\ t = [])
  \/ exists label id,
       labels !! i = Some label /\ l2i !! label = Some id
       /\ t = map (fun k => if (id =? Z.of_nat k)%Z then 1%Q else 0%Q) ks.
Proof.
  intros H. destruct ks as [|k ks]; [left; simpl in H; by injection H as <-|].
  right.
  destruct (labels !! i) as [label|] eqn:Hl;
    [|cbn [label_tensor] in H; unfold list_get in H; rewrite Hl in H; discriminate].
  destruct (l2i !! label) as [id|] eqn:Hid;
    [|cbn [label_tensor] in H; unfold list_get, dict_get in H; rewrite Hl in H;
      cbn [rbind] in H; rewrite Hid in H; discriminate].
  rewrite (label_tensor_map _ _ _ _ _ _ Hl Hid) in H. injection H as <-.
  by exists label, id.
Qed.

Lemma label_tensor_raises labels l2i i e : forall ks,
  label_tensor labels l2i i ks = Raise e -> e = IndexError \/ e = KeyError.
Proof.
  induction ks as [|k ks IH]; [discriminate|].
  cbn [label_tensor]. unfold list_get, dict_get.
  destruct (labels !! i) as [label|]; cbn [rbind]; [|intros [= <-]; by left].
  destruct (l2i !! label) as [id|]; cbn [rbind]; [|intros [= <-]; by right].
  destruct (label_tensor labels l2i i ks); cbn [rbind]; [discriminate|].
  intros [= <-]. by apply IH.
Qed.

(** *** The loop body, with the lookups of the first sequence spelled out *)

Lemma word_to_tokens_first enc e0 w :
  enc !! 0 = Some e0 -> word_to_tokens enc w None = Ok (word_spans e0 !! w).
Proof. intros H. unfold word_to_tokens, list_get. by rewrite H. Qed.

Lemma body_eq enc span1s span2s labels l2i L i tokens out e0 :
  enc !! 0 = Some e0 ->
  body enc span1s span2s labels l2i L i tokens out =
  try target <- pad L tokens;
  try s1 <- list_get span1s i;
  match span2s with
  | [] =>
      match resolved enc s1 with
      | Some (start, end_) => keep labels l2i L i target start end_ out
      | None => Ok out
      end
  | _ :: _ =>
      try s2 <- list_get span2s i;
      match resolved enc s1, resolved enc s2 with
      | Some (start, end_), Some (start2, end2) =>
          keep labels l2i L i target start end_
            {| updated_input_ids := updated_input_ids out;
               span1_masks := span1_masks out;
               span2_masks := span2_masks out ++ [span_mask L start2 end2];
               label_tensors := label_tensors out |}
      | _, _ => Ok out
      end
  end.
Proof.
  intros H0. unfold body, resolved.
  destruct (pad L tokens) as [target|]; [|done]. cbn [rbind].
  destruct span2s as [|sp2h span2t].
  - destruct (list_get span1s i) as [s1|]; [|done]. cbn [rbind].
    rewrite !(word_to_tokens_first _ _ _ H0). cbn [rbind].
    by destruct (word_spans e0 !! s1.1) as [[? ?]|],
                (word_spans e0 !! s1.2) as [[? ?]|].
  - destruct (list_get span1s i) as [s1|]; [|done]. cbn [rbind].
    rewrite !(word_to_tokens_first _ _ _ H0). cbn [rbind].
    destruct (list_get (sp2h :: span2t) i) as [s2|]; [|done]. cbn [rbind].
    rewrite !(word_to_tokens_first _ _ _ H0). cbn [rbind].
    by destruct (word_spans e0 !! s1.1) as [[? ?]|],
                (word_spans e0 !! s1.2) as [[? ?]|],
                (word_spans e0 !! s2.1) as [[? ?]|],
                (word_spans e0 !! s2.2) as [[? ?]|].
Qed.

Lemma keep_Ok labels l2i L i target s e out out' :
  keep labels l2i L i target s e out = Ok out' ->
  exists label,
    label_tensor labels l2i i (seq 0 (size l2i)) = Ok label
    /\ out' = {| updated_input_ids := updated_input_ids out ++ [target];
                 span1_masks := span1_masks out ++ [span_mask L s e];
                 span2_masks := span2_masks out;
                 label_tensors := label_tensors out ++ [label] |}.
Proof.
  unfold keep. destruct (label_tensor _ _ _ _) as [label|]; [|discriminate].
  intros [= <-]. by exists label.
Qed.

Lemma keep_raises labels l2i L i target s e out err :
  keep labels l2i L i target s e out = Raise err ->
  err = IndexError \/ err = KeyError.
Proof.
  unfold keep.
  destruct (label_tensor _ _ _ _) as [label|] eqn:E; [discriminate|].
  intros [= <-]. by apply label_tensor_raises in E.
Qed.

Lemma labelled_total labels l2i i :
  (size l2i <> 0 ->
   exists label, labels !! i = Some label /\ is_Some (l2i !! label)) ->
  exists t, label_tensor labels l2i i (seq 0 (size l2i)) = Ok t.
Proof.
  intros H. destruct (size l2i) as [|n]; [by eexists|].
  destruct H as (label & Hl & id & Hid); [done|].
  rewrite (label_tensor_map _ _ _ _ _ _ Hl Hid). by eexists.
Qed.

Lemma labelled_of_Ok labels l2i i t :
  label_tensor labels l2i i (seq 0 (size l2i)) = Ok t ->
  size l2i <> 0 ->
  exists label, labels !! i = Some label /\ is_Some (l2i !! label).
Proof.
  intros H Hn. apply label_tensor_Ok in H as [[Hnil _]|(label & id & Hl & Hid & _)].
  - destruct (size l2i); [done | discriminate].
  - exists label. split; [done | by exists id].
Qed.

Lemma kept_single enc span1s i sp1 :
  span1s !! i = Some sp1 ->
  kept enc span1s [] i = bool_decide (is_Some (resolved enc sp1)).
Proof. intros H. unfold kept. by rewrite H. Qed.

Lemma kept_pair enc span1s sp2h span2t i sp1 sp2 :
  span1s !! i = Some sp1 -> (sp2h :: span2t) !! i = Some sp2 ->
  kept enc span1s (sp2h :: span2t) i
  = bool_decide (is_Some (resolved enc sp1)) && bool_decide (is_Some (resolved enc sp2)).
Proof. intros H1 H2. unfold kept. by rewrite H1, H2. Qed.

(** With its spans and label at hand, the body returns. *)
Lemma body_returns enc span1s span2s labels l2i L i tokens out e0 target :
  enc !! 0 = Some e0 -> pad L tokens = Ok target ->
  well_formed enc span1s span2s labels l2i i ->
  exists out', body enc span1s span2s labels l2i L i tokens out = Ok out'.
Proof.
  intros H0 Hpad ([sp1 H1] & H2 & H3).
  rewrite (body_eq _ _ _ _ _ _ _ _ _ _ H0), Hpad. unfold list_get.
  rewrite H1. cbn [rbind].
  destruct span2s as [|sp2h span2t].
  - rewrite (kept_single _ _ _ _ H1) in H3.
    destruct (resolved enc sp1) as [[s e]|]; [|by eexists].
    destruct (labelled_total labels l2i i) as [t Ht].
    { apply H3. by apply bool_decide_eq_true_2. }
    unfold keep. rewrite Ht. by eexists.
  - destruct H2 as [sp2 H2]; [done|]. rewrite H2. cbn [rbind].
    rewrite (kept_pair _ _ _ _ _ _ _ H1 H2) in H3.
    destruct (resolved enc sp1) as [[s e]|]; [|by eexists].
    destruct (resolved enc sp2) as [[s' e']|]; [|by eexists].
    destruct (labelled_total labels l2i i) as [t Ht].
    { apply H3. apply andb_true_intro. split; by apply bool_decide_eq_true_2. }
    unfold keep. rewrite Ht. by eexists.
Qed.

(** A body that returns had its spans and label at hand. *)
Lemma body_Ok_well_formed enc span1s span2s labels l2i L i tokens out out' e0 :
  enc !! 0 = Some e0 ->
  body enc span1s span2s labels l2i L i tokens out = Ok out' ->
  well_formed enc span1s span2s labels l2i i.
Proof.
  intros H0. rewrite (body_eq _ _ _ _ _ _ _ _ _ _ H0).
  destruct (pad L tokens) as [target|]; [|discriminate]. cbn [rbind].
  unfold list_get. destruct (span1s !! i) as [sp1|] eqn:H1; [|discriminate].
  cbn [rbind]. destruct span2s as [|sp2h span2t].
  - intros Hrun. split; [by eexists|]. split; [done|].
    rewrite (kept_single _ _ _ _ H1). intros Hk%bool_decide_eq_true_1.
    destruct Hk as [[s e] Hr]. rewrite Hr in Hrun.
    apply keep_Ok in Hrun as (t & Ht & _). by apply (labelled_of_Ok _ _ _ _ Ht).
  - destruct ((sp2h :: span2t) !! i) as [sp2|] eqn:H2; [|discriminate].
    cbn [rbind]. intros Hrun. split; [by eexists|]. split; [by eexists|].
    rewrite (kept_pair _ _ _ _ _ _ _ H1 H2).
    intros [[[s e] Hr]%bool_decide_eq_true_1
            [[s' e'] Hr']%bool_decide_eq_true_1]%andb_prop.
    rewrite Hr, Hr' in Hrun.
    apply keep_Ok in Hrun as (t & Ht & _). by apply (labelled_of_Ok _ _ _ _ Ht).
Qed.

(** After the padding, the body can only fail on an index or on a key. *)
Lemma body_raises enc span1s span2s labels l2i L i tokens out e0 target err :
  enc !! 0 = Some e0 -> pad L tokens = Ok target ->
  body enc span1s span2s labels l2i L i tokens out = Raise err ->
  err = IndexError \/ err = KeyError.
Proof.
  intros H0 Hpad. rewrite (body_eq _ _ _ _ _ _ _ _ _ _ H0), Hpad. cbn [rbind].
  unfold list_get. destruct (span1s !! i) as [sp1|]; cbn [rbind];
    [|intros [= <-]; by left].
  destruct span2s as [|sp2h span2t].
  - destruct (resolved enc sp1) as [[s e]|]; [apply keep_raises | discriminate].
  - destruct ((sp2h :: span2t) !! i) as [sp2|]; cbn [rbind];
      [|intros [= <-]; by left].
    destruct (resolved enc sp1) as [[s e]|]; [|discriminate].
    destruct (resolved enc sp2) as [[s' e']|]; [apply keep_raises | discriminate].
Qed.

Section Loop.

Variable enc : BatchEncoding.
Variables span1s span2s : list (nat * nat).
Variable labels : list string.
Variable l2i : gmap string Z.
Variable L : nat.
Variable e0 : Encoding.
Hypothesis first : enc !! 0 = Some e0.

Lemma align_returns : forall rows i out,
  Forall (fun tokens => exists target, pad L tokens = Ok target) rows ->
  (forall k, k < length rows -> well_formed enc span1s span2s labels l2i (i + k)) ->
  exists out', align enc span1s span2s labels l2i L i rows out = Ok out'.
Proof.
  induction rows as [|tokens rows IH]; intros i out Hrows Hwf; [by eexists|].
  apply Forall_cons in Hrows as [[target Hpad] Hrows]. cbn [align].
  destruct (body_returns enc span1s span2s labels l2i L i tokens out e0 target)
    as [out1 Hbody]; [done | done | |].
  { replace i with (i + 0) by lia. apply Hwf. simpl. lia. }
  rewrite Hbody. cbn [rbind]. apply IH; [done|].
  intros k Hk. replace (S i + k) with (i + S k) by lia. apply Hwf. simpl. lia.
Qed.

Lemma align_Ok_well_formed : forall rows i out out',
  align enc span1s span2s labels l2i L i rows out = Ok out' ->
  forall k, k < length rows -> well_formed enc span1s span2s labels l2i (i + k).
Proof.
  induction rows as [|tokens rows IH]; intros i out out' Hrun k Hk;
    [simpl in Hk; lia|].
  cbn [align] in Hrun.
  destruct (body enc span1s span2s labels l2i L i tokens out) as [out1|] eqn:Hbody;
    [|discriminate].
  cbn [rbind] in Hrun. destruct k as [|k].
  - rewrite Nat.add_0_r. by eapply body_Ok_well_formed.
  - replace (i + S k) with (S i + k) by lia.
    apply (IH _ _ _ Hrun). simpl in Hk. lia.
Qed.

Lemma align_raises : forall rows i out err,
  Forall (fun tokens => exists target, pad L tokens = Ok target) rows ->
  align enc span1s span2s labels l2i L i rows out = Raise err ->
  err = IndexError \/ err = KeyError.
Proof.
  induction rows as [|tokens rows IH]; intros i out err Hrows; [discriminate|].
  apply Forall_cons in Hrows as [[target Hpad] Hrows]. cbn [align].
  destruct (body enc span1s span2s labels l2i L i tokens out) as [out1|] eqn:Hbody;
    cbn [rbind].
  - by apply IH.
  - intros [= <-]. by eapply body_raises.
Qed.

End Loop.

Lemma rows_fit enc L :
  padded_to 128 enc = true -> 128 <= L ->
  Forall (fun tokens => exists target, pad L tokens = Ok target) (map ids enc).
Proof.
  intros Hp HL. apply Forall_forall. intros tokens (e & -> & He)%list_elem_of_fmap.
  destruct (padded_to_spec 128 enc e Hp He) as [Hlen _].
  eexists. apply pad_fits. lia.
Qed.

Lemma tokenize_returns tokenizer texts span1s span2s labels l2i L :
  let enc := tokenizer texts 128 in
  padded_to 128 enc = true -> 128 <= L ->
  (forall i, i < length enc -> well_formed enc span1s span2s labels l2i i) ->
  exists out,
    tokenize_jiant_dataset tokenizer texts span1s span2s labels l2i L = Ok out.
Proof.
  intros enc Hp HL Hwf. unfold tokenize_jiant_dataset. fold enc.
  pose proof (rows_fit enc L Hp HL) as Hrows.
  destruct (enc !! 0) as [e0|] eqn:H0.
  - apply (align_returns enc span1s span2s labels l2i L e0 H0); [done|].
    intros k Hk. rewrite length_map in Hk. by apply Hwf.
  - assert (enc = []) as -> by (by destruct enc). by eexists.
Qed.

Lemma tokenize_Ok_well_formed tokenizer texts span1s span2s labels l2i L out :
  tokenize_jiant_dataset tokenizer texts span1s span2s labels l2i L = Ok out ->
  let enc := tokenizer texts 128 in
  forall i, i < length enc -> well_formed enc span1s span2s labels l2i i.
Proof.
  intros Hrun enc i Hi. unfold tokenize_jiant_dataset in Hrun. fold enc in Hrun.
  destruct (enc !! 0) as [e0|] eqn:H0.
  - apply (align_Ok_well_formed enc span1s span2s labels l2i L e0 H0 _ _ _ _ Hrun i).
    by rewrite length_map.
  - assert (Hnil : enc = []) by (by destruct enc). rewrite Hnil in Hi.
    simpl in Hi. lia.
Qed.

Lemma tokenize_raises tokenizer texts span1s span2s labels l2i L err :
  let enc := tokenizer texts 128 in
  padded_to 128 enc = true -> 128 <= L ->
  tokenize_jiant_dataset tokenizer texts span1s span2s labels l2i L = Raise err ->
  err = IndexError \/ err = KeyError.
Proof.
  intros enc Hp HL. unfold tokenize_jiant_dataset. fold enc.
  pose proof (rows_fit enc L Hp HL) as Hrows.
  destruct (enc !! 0) as [e0|] eqn:H0.
  - by apply (align_raises enc span1s span2s labels l2i L e0 H0).
  - assert (enc = []) as -> by (by destruct enc). discriminate.
Qed.

(** Too short a list of spans makes the call raise. *)
Lemma tokenize_short_spans tokenizer texts span1s span2s labels l2i L :
  let enc := tokenizer texts 128 in
  length span1s < length enc \/ (span2s <> [] /\ length span2s < length enc) ->
  exists err,
    tokenize_jiant_dataset tokenizer texts span1s span2s labels l2i L = Raise err.
Proof.
  intros enc Hshort.
  destruct (tokenize_jiant_dataset tokenizer texts span1s span2s labels l2i L)
    as [out|err] eqn:Hrun; [|by exists err].
  exfalso. pose proof (tokenize_Ok_well_formed _ _ _ _ _ _ _ _ Hrun) as Hwf.
  cbv zeta in Hwf. fold enc in Hwf.
  destruct Hshort as [Hs|[Hne Hs]].
  - destruct (Hwf (length span1s) Hs) as [[sp H1] _].
    apply lookup_lt_Some in H1. lia.
  - destruct (Hwf (length span2s) Hs) as (_ & H2 & _).
    destruct (H2 Hne) as [sp H2']. apply lookup_lt_Some in H2'. lia.
Qed.

(** X11. On a batch the tokenizer has padded to its 128 tokens, and
    with rows of at least that length, the call returns exactly when every
    sample has an entry in [span1s], an entry in [span2s] if that list is
    not empty, and -- only if the sample is kept and the vocabulary is not
    empty -- a label that is a key of [labels_to_ids]; the label of a
    dropped sample is never looked at.  Otherwise the call raises
    [IndexError] or [KeyError] and nothing else; in particular it raises
    when [span1s], or a non-empty [span2s], is shorter than the batch. *)
Theorem tokenize_returns_iff_well_formed
    (tokenizer : Tokenizer) (texts : list string) (span1s span2s : list (nat * nat))
    (labels : list string) (labels_to_ids : gmap string Z) (max_seq_length : nat) :
  let enc := tokenizer texts 128 in
  let run := tokenize_jiant_dataset tokenizer texts span1s span2s labels
               labels_to_ids max_seq_length in
  padded_to 128 enc = true -> 128 <= max_seq_length ->
  ((exists out, run = Ok out)
   <-> forall i, i < length enc ->
         well_formed enc span1s span2s labels labels_to_ids i)
  /\ (forall err, run = Raise err -> err = IndexError \/ err = KeyError)
  /\ (length span1s < length enc
      \/ (span2s <> [] /\ length span2s < length enc) ->
      exists err, run = Raise err).
Proof.
  intros enc run Hp HL. split; [split|split].
  - intros [out Hrun]. by apply (tokenize_Ok_well_formed _ _ _ _ _ _ _ _ Hrun).
  - by apply tokenize_returns.
  - intros err. by apply tokenize_raises.
  - apply tokenize_short_spans.
Qed.

Lemma tokenize_returns_iff_well_formed_witness :
  exists err,
    tokenize_jiant_dataset char_tokenizer two_texts [(0, 1)] []
                           ["A"; "B"]%string two_labels 128 = Raise err.
Proof.
  assert (Hpad : padded_to 128 (char_tokenizer two_texts 128) = true)
    by (vm_compute; reflexivity).
  assert (HL : 128 <= 128) by lia.
  destruct (tokenize_returns_iff_well_formed char_tokenizer two_texts [(0, 1)] []
              ["A"; "B"]%string two_labels 128 Hpad HL) as (_ & _ & Hshort).
  assert (Hs : length [(0, 1)] < length (char_tokenizer two_texts 128))
    by (simpl; lia).
  exact (Hshort (or_introl Hs)).
Defined.

(** *** The four lists stay in step *)

Lemma Qsum_snoc (l : list Q) (x : Q) : (Qsum (l ++ [x]) == Qsum l + x)%Q.
Proof.
  unfold Qsum at 1. rewrite foldl_app. simpl. fold (Qsum l). reflexivity.
Qed.

Lemma one_hot_succ n id :
  one_hot (S n) id = one_hot n id ++ [if (id =? Z.of_nat n)%Z then 1%Q else 0%Q].
Proof. unfold one_hot. by rewrite seq_S, map_app. Qed.

Lemma one_hot_length n id : length (one_hot n id) = n.
Proof. unfold one_hot. by rewrite length_map, length_seq. Qed.

(** A one-hot vector sums to one when the id is one of its cells and to
    zero when it is not. *)
Lemma Qsum_one_hot n id :
  (Qsum (one_hot n id)
   == if bool_decide (0 <= id < Z.of_nat n)%Z then 1 else 0)%Q.
Proof.
  induction n as [|n IH].
  - rewrite bool_decide_eq_false_2 by lia. reflexivity.
  - rewrite one_hot_succ, Qsum_snoc, IH.
    destruct (Z.eqb_spec id (Z.of_nat n)) as [->|Hne].
    + rewrite bool_decide_eq_false_2 by lia. rewrite bool_decide_eq_true_2 by lia.
      reflexivity.
    + destruct (decide (0 <= id < Z.of_nat n)%Z) as [Hin|Hout].
      * rewrite !bool_decide_eq_true_2 by lia. reflexivity.
      * rewrite !bool_decide_eq_false_2 by lia. reflexivity.
Qed.

Lemma label_at_Ok labels l2i i t :
  label_tensor labels l2i i (seq 0 (size l2i)) = Ok t -> label_at labels l2i i t.
Proof.
  intros [[Hnil ->]|(label & id & Hl & Hid & ->)]%label_tensor_Ok.
  - left. split; [|done]. destruct (size l2i); [done | discriminate].
  - right. by exists label, id.
Qed.

Lemma parallel_skip enc span1s span2s labels l2i L samples out :
  parallel enc span1s span2s labels l2i L samples out ->
  parallel enc span1s span2s labels l2i L (samples ++ []) out.
Proof. by rewrite app_nil_r. Qed.

Lemma body_parallel enc span1s span2s labels l2i L i e out out' samples :
  enc !! i = Some e ->
  parallel enc span1s span2s labels l2i L samples out ->
  body enc span1s span2s labels l2i L i (ids e) out = Ok out' ->
  parallel enc span1s span2s labels l2i L
    (samples ++ if kept enc span1s span2s i then [i] else []) out'.
Proof.
  intros He Hpar.
  assert (exists e0, enc !! 0 = Some e0) as [e0 H0].
  { destruct enc as [|e0 enc']; [done | by exists e0]. }
  rewrite (body_eq _ _ _ _ _ _ _ _ _ _ H0).
  destruct (pad L (ids e)) as [target|] eqn:Hpad; [|discriminate]. cbn [rbind].
  unfold list_get. destruct (span1s !! i) as [sp1|] eqn:H1; [|discriminate].
  cbn [rbind].
  assert (Hrow : row_of enc L i target) by (by exists e).
  destruct Hpar as (Pi & P1 & Pl & P2).
  destruct span2s as [|sp2h span2t].
  - rewrite (kept_single _ _ _ _ H1).
    destruct (resolved enc sp1) as [[s1 e1]|] eqn:Hr.
    + rewrite bool_decide_eq_true_2 by done.
      intros (t & Ht%label_at_Ok & ->)%keep_Ok.
      assert (Hm : mask_at enc span1s L i (span_mask L s1 e1))
        by (by exists sp1, s1, e1).
      unfold parallel. simpl.
      split; [apply Forall2_app; [done | by constructor]|].
      split; [apply Forall2_app; [done | by constructor]|].
      split; [apply Forall2_app; [done | by constructor]|]. done.
    + rewrite bool_decide_eq_false_2 by (by intros [? ?]).
      intros [= <-]. by apply parallel_skip.
  - destruct ((sp2h :: span2t) !! i) as [sp2|] eqn:H2; [|discriminate].
    cbn [rbind]. rewrite (kept_pair _ _ _ _ _ _ _ H1 H2).
    destruct (resolved enc sp1) as [[s1 e1]|] eqn:Hr;
      [|rewrite bool_decide_eq_false_2 by (by intros [? ?]);
        intros [= <-]; by apply parallel_skip].
    destruct (resolved enc sp2) as [[s2 e2]|] eqn:Hr';
      [|rewrite (bool_decide_eq_false_2 (is_Some None)) by (by intros [? ?]);
        rewrite andb_false_r; intros [= <-]; by apply parallel_skip].
    rewrite !bool_decide_eq_true_2 by done.
    intros (t & Ht%label_at_Ok & ->)%keep_Ok.
    assert (Hm : mask_at enc span1s L i (span_mask L s1 e1))
      by (by exists sp1, s1, e1).
    assert (Hm2 : mask_at enc (sp2h :: span2t) L i (span_mask L s2 e2))
      by (by exists sp2, s2, e2).
    unfold parallel. simpl.
    split; [apply Forall2_app; [done | by constructor]|].
    split; [apply Forall2_app; [done | by constructor]|].
    split; [apply Forall2_app; [done | by constructor]|].
    apply Forall2_app; [done | by constructor].
Qed.

Lemma kept_samples_cons enc span1s span2s i n :
  kept_samples enc span1s span2s i (S n)
  = (if kept enc span1s span2s i then [i] else [])
    ++ kept_samples enc span1s span2s (S i) n.
Proof.
  unfold kept_samples. simpl. by destruct (kept enc span1s span2s i).
Qed.

Lemma align_parallel enc span1s span2s labels l2i L : forall es i out out' samples,
  (forall k e, es !! k = Some e -> enc !! (i + k) = Some e) ->
  parallel enc span1s span2s labels l2i L samples out ->
  align enc span1s span2s labels l2i L i (map ids es) out = Ok out' ->
  parallel enc span1s span2s labels l2i L
    (samples ++ kept_samples enc span1s span2s i (length es)) out'.
Proof.
  induction es as [|e es IH]; intros i out out' samples Hes Hpar Hrun.
  - simpl in Hrun. injection Hrun as <-. by apply parallel_skip.
  - cbn [map align] in Hrun.
    destruct (body enc span1s span2s labels l2i L i (ids e) out) as [out1|] eqn:Hbody;
      [|discriminate].
    cbn [rbind] in Hrun. cbn [length]. rewrite kept_samples_cons, app_assoc.
    apply (IH (S i) out1); [| |done].
    + intros k e' Hk. replace (S i + k) with (i + S k) by lia. by apply Hes.
    + apply (body_parallel _ _ _ _ _ _ _ e out); [|done|done].
      replace i with (i + 0) by lia. by apply Hes.
Qed.

(** X12. The four returned lists are parallel and in input order: the
    [j]-th row, span1 mask, label tensor and (with second spans) span2
    mask all belong to the [j]-th of the samples that were kept -- the row
    is that sample's padded row, the masks are the masks of its spans and
    the label tensor is the one-hot vector of the id of its label.  Every
    label tensor has [num_labels] cells and sums to one or to zero (an id
    outside [range(num_labels)] gives the zero vector). *)
Theorem outputs_are_parallel
    (tokenizer : Tokenizer) (texts : list string) (span1s span2s : list (nat * nat))
    (labels : list string) (labels_to_ids : gmap string Z) (max_seq_length : nat)
    (out : Aligned) :
  tokenize_jiant_dataset tokenizer texts span1s span2s labels labels_to_ids
                         max_seq_length = Ok out ->
  let enc := tokenizer texts 128 in
  parallel enc span1s span2s labels labels_to_ids max_seq_length
           (kept_samples enc span1s span2s 0 (length enc)) out
  /\ Forall (fun t => length t = size labels_to_ids
                      /\ ((Qsum t == 0)%Q \/ (Qsum t == 1)%Q))
            (label_tensors out).
Proof.
  intros Hrun enc. unfold tokenize_jiant_dataset in Hrun. fold enc in Hrun.
  assert (Hpar : parallel enc span1s span2s labels labels_to_ids max_seq_length
                   (kept_samples enc span1s span2s 0 (length enc)) out).
  { apply (align_parallel _ _ _ _ _ _ enc 0 _ out []) in Hrun; [done|done|].
    unfold parallel. simpl. destruct span2s; repeat split; constructor. }
  split; [exact Hpar|].
  destruct Hpar as (_ & _ & Pl & _).
  apply Forall_forall. intros t Ht.
  apply list_elem_of_lookup in Ht as [j Hj].
  destruct (Forall2_lookup_r _ _ _ _ _ Pl Hj) as (i & _ & Hlab).
  destruct Hlab as [[Hn ->]|(label & id & _ & _ & ->)].
  - split; [by rewrite Hn|]. left. reflexivity.
  - split; [apply one_hot_length|]. rewrite Qsum_one_hot.
    destruct (bool_decide _); [right | left]; reflexivity.
Qed.

Lemma outputs_are_parallel_witness :
  exists out,
    tokenize_jiant_dataset char_tokenizer two_texts [(0, 1); (2, 3)] []
                           ["A"; "B"]%string two_labels 128 = Ok out
    /\ label_tensors out = [[1%Q; 0%Q]]
    /\ parallel (char_tokenizer two_texts 128) [(0, 1); (2, 3)] []
                ["A"; "B"]%string two_labels 128 [0] out.
Proof.
  set (out := match tokenize_jiant_dataset char_tokenizer two_texts [(0, 1); (2, 3)]
                      [] ["A"; "B"]%string two_labels 128 with
              | Ok o => o
              | Raise _ => no_samples
              end).
  assert (Hrun : tokenize_jiant_dataset char_tokenizer two_texts [(0, 1); (2, 3)]
                   [] ["A"; "B"]%string two_labels 128 = Ok out)
    by (vm_compute; reflexivity).
  exists out. split; [exact Hrun|]. split; [vm_compute; reflexivity|].
  destruct (outputs_are_parallel char_tokenizer two_texts [(0, 1); (2, 3)] []
              ["A"; "B"]%string two_labels 128 out Hrun) as [Hpar _].
  exact Hpar.
Defined.

End AlignerMoreTheory.

(** ** The reader *)

Module LoaderTheory.

Import Aligner AlignerMore AlignerTheory AlignerMoreTheory Loader.

Local Open Scope nat_scope.

Lemma collected_snoc ss s :
  complete_sample s = true ->
  exists t s1 l,
    s.1 = Some t /\ span1 s.2 = Some s1 /\ label s.2 = Some l
    /\ collected (ss ++ [s])
       = let '(texts, span1s, span2s, labels) := collected ss in
         (texts ++ [t], span1s ++ [s1],
          match span2 s.2 with Some s2 => span2s ++ [s2] | None => span2s end,
          labels ++ [l]).
Proof.
  unfold complete_sample. intros [[Ht H1]%andb_prop Hl]%andb_prop.
  apply bool_decide_eq_true_1 in Ht as [t Ht], H1 as [s1 H1], Hl as [l Hl].
  exists t, s1, l. repeat split; try done.
  unfold collected. rewrite !omap_app. simpl. rewrite Ht, H1, Hl.
  destruct (span2 s.2); simpl; by rewrite ?app_nil_r.
Qed.

Lemma read_target_spec jiant_dict target done :
  read_target jiant_dict target (collected done)
  = if complete_sample (text jiant_dict, target)
    then Ok (collected (done ++ [(text jiant_dict, target)]))
    else Raise KeyError.
Proof.
  destruct (complete_sample (text jiant_dict, target)) eqn:Hc.
  - destruct (collected_snoc done _ Hc) as (t & s1 & l & Ht & H1 & Hl & ->).
    simpl in Ht, H1, Hl. unfold read_target.
    destruct (collected done) as [[[texts span1s] span2s] labels].
    rewrite Ht, H1, Hl. reflexivity.
  - unfold read_target.
    destruct (collected done) as [[[texts span1s] span2s] labels].
    unfold complete_sample in Hc. simpl in Hc.
    destruct (text jiant_dict) as [t|]; [|done].
    destruct (span1 target) as [s1|]; [|done].
    destruct (label target) as [l|]; [|done].
    exfalso. revert Hc. rewrite !bool_decide_eq_true_2 by done. done.
Qed.

Lemma read_targets_spec jiant_dict : forall ts done,
  read_targets jiant_dict ts (collected done)
  = if forallb complete_sample (map (fun target => (text jiant_dict, target)) ts)
    then Ok (collected (done ++ map (fun target => (text jiant_dict, target)) ts))
    else Raise KeyError.
Proof.
  induction ts as [|target ts IH]; intros done.
  - simpl. by rewrite app_nil_r.
  - cbn [read_targets map forallb]. rewrite read_target_spec.
    destruct (complete_sample (text jiant_dict, target)); [|done].
    cbn [rbind andb]. rewrite IH. by rewrite <- app_assoc.
Qed.

Lemma samples_cons jiant_dict lines :
  samples (jiant_dict :: lines) = samples_of jiant_dict ++ samples lines.
Proof. reflexivity. Qed.

Lemma read_lines_spec : forall lines done,
  read_lines lines (collected done)
  = if complete lines then Ok (collected (done ++ samples lines))
    else Raise KeyError.
Proof.
  induction lines as [|jiant_dict lines IH]; intros done.
  - simpl. by rewrite app_nil_r.
  - cbn [read_lines complete forallb]. rewrite samples_cons.
    unfold complete_line, samples_of.
    destruct (targets jiant_dict) as [ts|]; [|done].
    cbn [field rbind default]. rewrite read_targets_spec.
    destruct (forallb complete_sample _); [|done].
    cbn [rbind andb]. rewrite IH. fold (complete lines).
    by rewrite <- app_assoc.
Qed.

Lemma omap_length_le {A B} (f : A -> option B) (l : list A) :
  length (omap f l) <= length l.
Proof. induction l as [|a l IH]; cbn; [lia|]. destruct (f a); cbn; lia. Qed.

Lemma omap_length_filter {A B} (f : A -> option B) (l : list A) :
  length (omap f l)
  = length (List.filter (fun a => bool_decide (is_Some (f a))) l).
Proof.
  induction l as [|a l IH]; [done|]. cbn.
  destruct (f a) as [b|]; cbn; by rewrite IH.
Qed.

Lemma omap_all_some {A B} (f : A -> option B) (l : list A) :
  forallb (fun a => bool_decide (is_Some (f a))) l = true ->
  length (omap f l) = length l.
Proof.
  induction l as [|a l IH]; [done|]. cbn.
  intros [[b Hb]%bool_decide_eq_true_1 Hl]%andb_prop. rewrite Hb. cbn.
  by rewrite IH.
Qed.

Lemma omap_some_none {A B} (f : A -> option B) (l : list A) :
  forallb (fun a => bool_decide (is_Some (f a))) l = false ->
  length (omap f l) < length l.
Proof.
  induction l as [|a l IH]; [done|]. cbn.
  pose proof (omap_length_le f l).
  destruct (f a) as [b|]; cbn; [|lia].
  rewrite ?bool_decide_eq_true_2 by done. cbn. intros Hl%IH. lia.
Qed.

Lemma omap_all_none {A B} (f : A -> option B) (l : list A) :
  forallb (fun a => bool_decide (f a = None)) l = true -> omap f l = [].
Proof.
  induction l as [|a l IH]; [done|]. cbn.
  intros [Ha%bool_decide_eq_true_1 Hl]%andb_prop. rewrite Ha. by apply IH.
Qed.

Lemma omap_some_some {A B} (f : A -> option B) (l : list A) :
  forallb (fun a => bool_decide (f a = None)) l = false -> omap f l <> [].
Proof.
  induction l as [|a l IH]; [done|]. cbn.
  destruct (f a) as [b|]; cbn; [done|].
  rewrite ?bool_decide_eq_true_2 by done. cbn. apply IH.
Qed.

Lemma complete_samples : forall lines,
  complete lines = true -> forallb complete_sample (samples lines) = true.
Proof.
  induction lines as [|jiant_dict lines IH]; [done|].
  cbn [complete forallb]. intros [Hl Hls]%andb_prop.
  rewrite samples_cons, forallb_app. unfold complete_line in Hl.
  destruct (targets jiant_dict); [|done]. rewrite Hl. by apply IH.
Qed.

Lemma complete_lengths ss :
  forallb complete_sample ss = true ->
  length (omap fst ss) = length ss
  /\ length (omap (fun s => span1 s.2) ss) = length ss
  /\ length (omap (fun s => label s.2) ss) = length ss.
Proof.
  intros Hc.
  split; [|split]; apply omap_all_some; rewrite forallb_forall in *;
    intros s Hs; specialize (Hc s Hs); unfold complete_sample in Hc;
    apply andb_prop in Hc as [[Ht H1]%andb_prop Hl]; done.
Qed.

(** X13. The reader returns exactly when every key it asks for is
    there (every line has ["targets"]; every target has ["span1"] and
    ["label"] and its line has ["text"]) and raises [KeyError] otherwise.
    A line without targets is never asked for its text.  What it returns
    are the texts, first spans, second spans and labels of the samples in
    file order: [texts], [span1s] and [labels] have one entry per sample,
    [span2s] one entry per sample that has a second span. *)
Theorem read_collects_the_samples (lines : list Line) :
  (complete lines = true ->
   read_jiant_dataset lines = Ok (collected (samples lines))
   /\ let '(texts, span1s, span2s, labels) := collected (samples lines) in
      length texts = length (samples lines)
      /\ length span1s = length (samples lines)
      /\ length labels = length (samples lines)
      /\ length span2s
         = length (List.filter (fun s => bool_decide (is_Some (span2 s.2)))
                               (samples lines))
      /\ length span2s <= length texts)
  /\ (complete lines = false -> read_jiant_dataset lines = Raise KeyError)
  /\ (forall t, read_jiant_dataset [{| text := t; targets := Some [] |}]
                = Ok ([], [], [], [])).
Proof.
  pose proof (read_lines_spec lines []) as Hrun. simpl in Hrun.
  split; [|split].
  - intros Hc. unfold read_jiant_dataset.
    change ([], [], [], []) with (collected []). rewrite Hrun, Hc.
    split; [done|].
    destruct (complete_lengths _ (complete_samples _ Hc)) as (Ht & H1 & Hl).
    unfold collected. rewrite Ht, H1, Hl. repeat split; try done.
    + apply omap_length_filter.
    + apply omap_length_le.
  - intros Hc. unfold read_jiant_dataset.
    change ([], [], [], []) with (collected []). by rewrite Hrun, Hc.
  - reflexivity.
Qed.

(** X14. Reading a file and aligning what was read (with a tokenizer
    that gives one padded sequence per text, rows of at least 128 tokens):
    if some samples of the file have a second span and others have none,
    [span2s] is not empty and shorter than the batch, and the aligner
    raises ([IndexError] or [KeyError]); if all of them have one or none
    has, and every label is in the vocabulary, the aligner returns. *)
Theorem mixed_targets_cannot_be_aligned
    (tokenizer : Tokenizer) (lines : list Line)
    (texts : list string) (span1s span2s : list (nat * nat)) (labels : list string)
    (labels_to_ids : gmap string Z) (max_seq_length : nat) :
  read_jiant_dataset lines = Ok (texts, span1s, span2s, labels) ->
  length (tokenizer texts 128) = length texts ->
  padded_to 128 (tokenizer texts 128) = true ->
  128 <= max_seq_length ->
  let run := tokenize_jiant_dataset tokenizer texts span1s span2s labels
               labels_to_ids max_seq_length in
  (uniform lines = false ->
   exists err, run = Raise err /\ (err = IndexError \/ err = KeyError))
  /\ (uniform lines = true ->
      (forall label, label ∈ labels -> is_Some (labels_to_ids !! label)) ->
      exists out, run = Ok out).
Proof.
  intros Hread Hlen Hp HL run.
  pose proof (read_lines_spec lines []) as Hrun. simpl in Hrun.
  unfold read_jiant_dataset in Hread.
  change ([], [], [], []) with (collected []) in Hread. rewrite Hrun in Hread.
  destruct (complete lines) eqn:Hc; [|discriminate].
  destruct (complete_lengths _ (complete_samples _ Hc)) as (Ht & H1 & Hl).
  injection Hread as <- <- <- <-. rewrite Ht in Hlen.
  split.
  - intros [Hsome Hnone]%orb_false_elim.
    destruct (tokenize_short_spans tokenizer (omap fst (samples lines))
                (omap (fun s => span1 s.2) (samples lines))
                (omap (fun s => span2 s.2) (samples lines))
                (omap (fun s => label s.2) (samples lines))
                labels_to_ids max_seq_length) as [err Herr].
    { right. split; [by apply omap_some_some|].
      rewrite Hlen. by apply omap_some_none. }
    exists err. split; [exact Herr|].
    by apply (tokenize_raises _ _ _ _ _ _ _ _ Hp HL Herr).
  - intros Hu Hlabels. apply tokenize_returns; [done | done |].
    intros i Hi. rewrite Hlen in Hi. split; [|split].
    + apply lookup_lt_is_Some. by rewrite H1.
    + intros Hne. apply lookup_lt_is_Some.
      apply orb_prop in Hu as [Hall|Hnone].
      * by rewrite (omap_all_some _ _ Hall).
      * by rewrite (omap_all_none _ _ Hnone) in Hne.
    + intros _ _.
      destruct (lookup_lt_is_Some_2 (omap (fun s => label s.2) (samples lines)) i)
        as [label Hlab]; [by rewrite Hl|].
      exists label. split; [done|]. apply Hlabels.
      by apply list_elem_of_lookup_2 in Hlab.
Qed.

Lemma mixed_targets_cannot_be_aligned_witness :
  exists err,
    tokenize_jiant_dataset char_tokenizer ["a b c"; "a b c"]%string
      [(0, 0); (1, 1)] [(1, 1)] ["A"; "B"]%string two_labels 128 = Raise err
    /\ (err = IndexError \/ err = KeyError).
Proof.
  assert (Hread : read_jiant_dataset mixed_file
                  = Ok (["a b c"; "a b c"]%string, [(0, 0); (1, 1)], [(1, 1)],
                        ["A"; "B"]%string)) by reflexivity.
  assert (Hlen : length (char_tokenizer ["a b c"; "a b c"]%string 128)
                 = length ["a b c"; "a b c"]%string) by reflexivity.
  assert (Hpad : padded_to 128 (char_tokenizer ["a b c"; "a b c"]%string 128) = true)
    by (vm_compute; reflexivity).
  assert (HL : 128 <= 128) by lia.
  destruct (mixed_targets_cannot_be_aligned char_tokenizer mixed_file _ _ _ _
              two_labels 128 Hread Hlen Hpad HL) as [Hmixed _].
  assert (Hu : uniform mixed_file = false) by (vm_compute; reflexivity).
  exact (Hmixed Hu).
Defined.

End LoaderTheory.

(** ** More on the layer sweep *)

Module SweepMoreTheory.

Import Sweep SweepTheory.

(** The sweep writes to no path but that of the results file. *)
Lemma sweep_frame cfg path : forall layers results fs,
  (forall dir, results_path cfg = Some dir -> path <> results_file dir) ->
  fst (sweep cfg layers results fs) !! path = fs !! path.
Proof.
  induction layers as [|layer layers IH]; intros results fs Hpath; [done|].
  cbn [sweep].
  destruct ((task_type cfg =? "single_span")%string
            || (task_type cfg =? "two_span")%string); [|done].
  destruct (known_model (model_name cfg)); [|done].
  destruct (train_and_test cfg layer) as [[[l a] f1]|e]; [|done].
  rewrite IH by done.
  destruct (results_path cfg) as [dir|] eqn:Hdir; [|done].
  unfold write_json. apply lookup_insert_ne. intros E. by apply (Hpath dir).
Qed.

(** What the sweep returns does not depend on the files. *)
Lemma sweep_result cfg : forall layers results fs fs',
  snd (sweep cfg layers results fs) = snd (sweep cfg layers results fs').
Proof.
  induction layers as [|layer layers IH]; intros results fs fs'; [done|].
  cbn [sweep].
  destruct ((task_type cfg =? "single_span")%string
            || (task_type cfg =? "two_span")%string); [|done].
  destruct (known_model (model_name cfg)); [|done].
  destruct (train_and_test cfg layer) as [[[l a] f1]|e]; [|done].
  apply IH.
Qed.

(** X15. What [probing] does besides the case of a completed layer
    with a results path.  It writes to no file but the results file, and
    to none at all without a results path; what it returns does not depend
    on the files.  Without layers it returns the empty table, whatever the
    task type and the model.  With layers, it returns [None] at once for a
    task type that is neither ["single_span"] nor ["two_span"], and for a
    valid task type with a model name that starts with neither ["roberta"]
    nor ["bert"] it raises [UnboundLocalError] for [probing_model]; in
    both cases before any layer is trained and with the files untouched. *)
Theorem probing_writes_only_the_results_file (cfg : ProbeConfig) (fs : Files) :
  (forall path,
     (forall dir, results_path cfg = Some dir -> path <> results_file dir) ->
     fst (probing cfg fs) !! path = fs !! path)
  /\ (results_path cfg = None -> fst (probing cfg fs) = fs)
  /\ (forall fs', snd (probing cfg fs') = snd (probing cfg fs))
  /\ (num_layers cfg = [] -> probing cfg fs = (fs, Ok (Some ∅)))
  /\ (num_layers cfg <> [] -> valid_task cfg = false ->
      probing cfg fs = (fs, Ok None))
  /\ (num_layers cfg <> [] -> valid_task cfg = true ->
      known_model (model_name cfg) = false ->
      probing cfg fs = (fs, Raise (UnboundLocalError "probing_model"))).
Proof.
  unfold probing. split; [|split; [|split; [|split; [|split]]]].
  - intros path Hpath. by apply sweep_frame.
  - intros Hnone. apply map_eq. intros path. apply sweep_frame.
    intros dir Hdir. congruence.
  - intros fs'. apply sweep_result.
  - by intros ->.
  - intros Hne Hv. destruct (num_layers cfg) as [|layer layers]; [done|].
    cbn [sweep]. unfold valid_task in Hv. by rewrite Hv.
  - intros Hne Hv Hk. destruct (num_layers cfg) as [|layer layers]; [done|].
    cbn [sweep]. unfold valid_task in Hv. by rewrite Hv, Hk.
Qed.

End SweepMoreTheory.

(** ** Plotting *)

Module PlotTheory.

Import Sweep SweepTheory Plot.

Lemma subscript_scores s :
  subscript (scores_value s) (inr "f1_score"%string) = Done (VNum (f1_score s)).
Proof.
  unfold subscript, scores_value.
  rewrite lookup_insert_ne by done. rewrite lookup_insert_ne by done.
  by rewrite lookup_insert_eq.
Qed.

Lemma subscript_nested task model v :
  subscript (VDict (nested task model v)) (inr task)
  = Done (VDict {[ inr model := v ]}).
Proof. unfold nested, subscript. by rewrite lookup_singleton_eq. Qed.

Lemma subscript_singleton model v :
  subscript (VDict {[ inr model := v ]}) (inr model) = Done v.
Proof. unfold subscript. by rewrite lookup_singleton_eq. Qed.

Lemma json_value_lookup j key :
  subscript (json_value j) (inr key)
  = match j !! key with
    | Some s => Done (scores_value s)
    | None => Failed (Exn KeyError)
    end.
Proof.
  unfold subscript, json_value. rewrite (lookup_kmap inr), lookup_fmap.
  by destruct (j !! key).
Qed.

Lemma table_value_lookup t key :
  subscript (table_value t) (inr key) = Failed (Exn KeyError).
Proof.
  unfold subscript, table_value.
  assert (H : kmap (M2 := gmap Key) inl (scores_value <$> t) !! inr key = None).
  { apply lookup_kmap_None; [apply _|]. intros i [=]. }
  by rewrite H.
Qed.

(** Every field of an entry is a number. *)
Lemma scores_value_fields s key :
  subscript (scores_value s) key = Failed (Exn KeyError)
  \/ exists q, subscript (scores_value s) key = Done (VNum q).
Proof.
  unfold subscript, scores_value.
  destruct (decide (key = inr "loss"%string)) as [->|H1];
    [rewrite lookup_insert_eq; right; by eexists|].
  rewrite lookup_insert_ne by done.
  destruct (decide (key = inr "accuracy"%string)) as [->|H2];
    [rewrite lookup_insert_eq; right; by eexists|].
  rewrite lookup_insert_ne by done.
  destruct (decide (key = inr "f1_score"%string)) as [->|H3];
    [rewrite lookup_insert_eq; right; by eexists|].
  rewrite lookup_insert_ne by done. rewrite lookup_empty. by left.
Qed.

Lemma f1_of_nested_json cfg layers task model layer :
  all_complete cfg layers -> layer ∈ layers ->
  f1_of (VDict (nested task model (json_value (json_dump (table cfg layers)))))
        task model layer
  = Done (match train_and_test cfg layer with
          | Ok (_, _, f1) => f1
          | Raise _ => 0%Q
          end).
Proof.
  intros Hall Hin. unfold f1_of.
  rewrite subscript_nested. cbn [and_then].
  rewrite subscript_singleton. cbn [and_then].
  rewrite json_value_lookup, json_dump_lookup. unfold table.
  rewrite table_lookup by done. rewrite decide_True by done.
  destruct (Hall layer Hin) as [[[l a] f1] ->]. cbn [and_then].
  rewrite subscript_scores. reflexivity.
Qed.

Lemma scores_nested_json cfg layers task model :
  all_complete cfg layers ->
  forall ls, Forall (fun layer => layer ∈ layers) ls ->
  scores (VDict (nested task model (json_value (json_dump (table cfg layers)))))
         task model ls
  = Done (f1_scores cfg ls).
Proof.
  intros Hall ls. induction 1 as [|layer ls Hin _ IH]; [done|].
  cbn [scores]. rewrite (f1_of_nested_json _ _ _ _ _ Hall Hin). cbn [and_then].
  rewrite IH. reflexivity.
Qed.

Lemma scores_nested_table t task model layer ls :
  scores (VDict (nested task model (table_value t))) task model (layer :: ls)
  = Failed (Exn KeyError).
Proof.
  cbn [scores]. unfold f1_of.
  rewrite subscript_nested. cbn [and_then].
  rewrite subscript_singleton. cbn [and_then].
  by rewrite table_value_lookup.
Qed.

Lemma scores_flat j task model layer ls :
  exists e,
    scores (json_value j) task model (layer :: ls) = Failed e
    /\ (e = Exn KeyError \/ e = TypeError).
Proof.
  cbn [scores]. unfold f1_of. rewrite json_value_lookup.
  destruct (j !! task) as [s|]; cbn [and_then]; [|eauto].
  destruct (scores_value_fields s (inr model)) as [->|[q ->]]; cbn [and_then];
    eauto.
Qed.

(** X16. [probing] and [plot_task] together, for a completed sweep
    with a results path.  The object [probing] writes, put under the task
    and the model names, is plotted: the four calls are made on the axes,
    the line has the layers as abscissae and their F1 scores, in order, as
    ordinates, and the label and the title default to the model and the
    task.  The file as [probing] writes it, which has the layers at its
    top level, is not: [plot_task] raises [KeyError] or [TypeError] on it.
    Nor is the table [probing] returns, even under the task and the model:
    its keys are [int]s where [plot_task] looks up [str(layer)], which is
    a [KeyError].  In both cases nothing is drawn. *)
Theorem plot_reads_string_keys_under_task_and_model
    (cfg : ProbeConfig) (fs : Files) (dir : string) (files : gmap string value)
    (task model linestyle : string) (label title : option string) (axes : unit) :
  results_path cfg = Some dir ->
  valid_task cfg = true ->
  known_model (model_name cfg) = true ->
  all_complete cfg (num_layers cfg) ->
  num_layers cfg <> [] ->
  let layers := num_layers cfg in
  let json := json_dump (table cfg layers) in
  fst (probing cfg fs) !! results_file dir = Some json
  /\ snd (probing cfg fs) = Ok (Some (table cfg layers))
  /\ plot_task files (Dict (nested task model (json_value json)))
               task model linestyle layers label title (Some axes)
     = ([(Axes, Title (default task title)); (Axes, Grid);
         (Axes, Line layers (f1_scores cfg layers) linestyle (default model label));
         (Axes, Legend)], None)
  /\ (exists e,
        plot_task (loadable (fst (probing cfg fs))) (Path (results_file dir))
                  task model linestyle layers label title (Some axes)
        = ([], Some e)
        /\ (e = Exn KeyError \/ e = TypeError))
  /\ plot_task files (Dict (nested task model (table_value (table cfg layers))))
               task model linestyle layers label title (Some axes)
     = ([], Some (Exn KeyError)).
Proof.
  intros Hdir Hv Hk Hall Hne layers json.
  assert (Hrun : probing cfg fs
                 = (<[results_file dir := json]> fs, Ok (Some (table cfg layers)))).
  { unfold probing.
    pose proof (sweep_app cfg [] (num_layers cfg) ∅ fs Hv Hk Hall) as Happ.
    rewrite app_nil_r in Happ. rewrite Happ. cbn [sweep]. unfold persisted.
    rewrite Hdir. subst json layers. by destruct (num_layers cfg). }
  rewrite Hrun. cbn [fst snd].
  split; [apply lookup_insert_eq|]. split; [reflexivity|]. split; [|split].
  - unfold plot_task. subst json.
    rewrite (scores_nested_json cfg layers task model Hall layers)
      by (by apply Forall_forall).
    reflexivity.
  - unfold plot_task, loadable. rewrite lookup_fmap, lookup_insert_eq.
    cbn [fmap option_fmap option_map].
    subst layers. destruct (num_layers cfg) as [|layer ls]; [done|].
    destruct (scores_flat json task model layer ls) as (e & -> & He).
    by exists e.
  - unfold plot_task. subst layers.
    destruct (num_layers cfg) as [|layer ls]; [done|].
    by rewrite scores_nested_table.
Qed.

Lemma plot_reads_string_keys_under_task_and_model_witness :
  plot_task ∅ (Dict (nested "ner" "bert" (json_value (json_dump (table three_layers
              [1; 2; 3]%Z))))) "ner" "bert" "-" [1; 2; 3]%Z None None (Some ())
  = ([(Axes, Title "ner"); (Axes, Grid);
      (Axes, Line [1; 2; 3]%Z [(1 / 4)%Q; (2 / 4)%Q; (3 / 4)%Q] "-" "bert");
      (Axes, Legend)], None)
  /\ plot_task ∅ (Dict (nested "ner" "bert" (table_value (table three_layers
                [1; 2; 3]%Z)))) "ner" "bert" "-" [1; 2; 3]%Z None None (Some ())
     = ([], Some (Exn KeyError)).
Proof.
  destruct (plot_reads_string_keys_under_task_and_model three_layers ∅ "out" ∅
              "ner" "bert" "-" None None () eq_refl eq_refl eq_refl
              three_layers_complete) as (_ & _ & Hplot & _ & Htable).
  { discriminate. }
  split; [exact Hplot | exact Htable].
Defined.

Lemma subscript_error v key e :
  subscript v key = Failed e -> e = Exn KeyError \/ e = TypeError.
Proof.
  unfold subscript. destruct v as [q|d]; [intros [= <-]; by right|].
  destruct (d !! key); [discriminate | intros [= <-]; by left].
Qed.

Lemma f1_of_error results task model layer e :
  f1_of results task model layer = Failed e -> e = Exn KeyError \/ e = TypeError.
Proof.
  unfold f1_of.
  destruct (subscript results _) as [a|?] eqn:Ea; cbn [and_then];
    [|intros [= <-]; by eapply subscript_error].
  destruct (subscript a _) as [b|?] eqn:Eb; cbn [and_then];
    [|intros [= <-]; by eapply subscript_error].
  destruct (subscript b _) as [c|?] eqn:Ec; cbn [and_then];
    [|intros [= <-]; by eapply subscript_error].
  destruct (subscript c _) as [d|?] eqn:Ed; cbn [and_then];
    [|intros [= <-]; by eapply subscript_error].
  destruct d; [discriminate | intros [= <-]; by right].
Qed.

(** The lookups fail with [KeyError] or [TypeError] only. *)
Lemma scores_error results task model : forall ls e,
  scores results task model ls = Failed e -> e = Exn KeyError \/ e = TypeError.
Proof.
  induction ls as [|layer ls IH]; intros e; [discriminate|].
  cbn [scores].
  destruct (f1_of results task model layer) as [y|?] eqn:Ey; cbn [and_then];
    [|intros [= <-]; by eapply f1_of_error].
  destruct (scores results task model ls) as [ys|?]; cbn [and_then];
    [discriminate|].
  intros [= <-]. by apply IH.
Qed.

(** X17. Called without an axes object ([plot=None], the default),
    [plot_task] never completes a plot.  It returns [None] only when the
    input is neither a path of a file nor a dict, having drawn nothing.
    Otherwise it raises: the error of the first failing lookup, nothing
    drawn; or, the scores found, [AttributeError] from the call of
    [legend] on [None], after the title, the grid and the line have been
    drawn on [plt].  With an axes object every call is made on it and the
    function returns exactly when the input is invalid or every score is
    found. *)
Theorem plot_task_without_axes_raises
    (files : gmap string value) (input : Input) (task model linestyle : string)
    (num_layers : list Z) (label title : option string) :
  let loaded := match input with
                | Path p => files !! p
                | Dict d => Some (VDict d)
                | Other => None
                end in
  let run := plot_task files input task model linestyle num_layers label title in
  (snd (run None) = None <-> loaded = None)
  /\ (loaded = None -> forall plot, run plot = ([], None))
  /\ Forall (fun c => c.1 = Pyplot /\ c.2 <> Legend) (fst (run None))
  /\ (fst (run None) <> [] <-> snd (run None) = Some AttributeError)
  /\ (forall results y,
        loaded = Some results ->
        scores results task model num_layers = Done y ->
        run None
        = ([(Pyplot, Title (default task title)); (Pyplot, Grid);
            (Pyplot, Line num_layers y linestyle (default model label))],
           Some AttributeError))
  /\ (forall results e,
        loaded = Some results ->
        scores results task model num_layers = Failed e ->
        forall plot, run plot = ([], Some e))
  /\ (forall axes,
        Forall (fun c => c.1 = Axes) (fst (run (Some axes)))
        /\ (snd (run (Some axes)) = None
            <-> loaded = None
                \/ exists results y,
                     loaded = Some results
                     /\ scores results task model num_layers = Done y)).
Proof.
  intros loaded run. unfold run, plot_task. fold loaded.
  destruct loaded as [results|]; cbn [fst snd].
  - destruct (scores results task model num_layers) as [y|e] eqn:Hy; cbn [fst snd].
    + split; [split; discriminate|]. split; [discriminate|].
      split; [repeat constructor; discriminate|].
      split; [split; [reflexivity | discriminate]|].
      split; [intros r y' [= <-] Hy'; rewrite Hy in Hy'; by injection Hy' as <-|].
      split; [intros r e' [= <-] Hy'; congruence|].
      intros axes. split; [repeat constructor|].
      split; [|reflexivity]. intros _. right. by exists results, y.
    + split; [split; discriminate|]. split; [discriminate|].
      split; [constructor|].
      split.
      { split; [done|]. intros [= ->].
        by destruct (scores_error _ _ _ _ _ Hy). }
      split; [intros r y' [= <-] Hy'; congruence|].
      split; [intros r e' [= <-] Hy' plot; rewrite Hy in Hy'; by injection Hy' as <-|].
      intros axes. split; [constructor|].
      split; [discriminate|]. intros [[=]|(r & y' & [= <-] & Hy')]. congruence.
  - split; [done|]. split; [done|]. split; [constructor|].
    split; [split; [done | discriminate]|]. split; [discriminate|].
    split; [discriminate|].
    intros axes. split; [constructor|]. split; [by left | reflexivity].
Qed.

End PlotTheory.
